(** * Voter-register OCR pipeline: segmentation, recognition dispatch,
      field extraction and validation

    A shallow embedding of [scripts/ocr_page_fast.py],
    [scripts/ocr_page_python.py] and [scripts/parse_ocr.py].

    Python [str] values are sequences of Unicode code points, [int]s are
    unbounded integers, dictionaries with a fixed key set are records and
    dictionaries filled at run time are finite maps. *)

From Stdlib Require Import ZArith NArith List String Ascii Bool Lia Permutation.
From stdpp Require Import base option list gmap.

Local Open Scope N_scope.

(** ** Python strings *)

Definition codepoint := N.
Abbreviation str := (list codepoint).

(** Source literals are written as UTF-8 text and decoded to code points. *)
Fixpoint utf8_decode (bs : list N) : str :=
  match bs with
  | [] => []
  | b :: rest =>
      if b <? 128 then b :: utf8_decode rest
      else if b <? 224 then
        match rest with
        | b1 :: rest1 => ((b - 192) * 64 + (b1 - 128)) :: utf8_decode rest1
        | _ => []
        end
      else if b <? 240 then
        match rest with
        | b1 :: b2 :: rest2 =>
            ((b - 224) * 4096 + (b1 - 128) * 64 + (b2 - 128)) :: utf8_decode rest2
        | _ => []
        end
      else
        match rest with
        | b1 :: b2 :: b3 :: rest3 =>
            ((b - 240) * 262144 + (b1 - 128) * 4096 + (b2 - 128) * 64 + (b3 - 128))
              :: utf8_decode rest3
        | _ => []
        end
  end.

Definition utf8 (s : string) : str :=
  utf8_decode (List.map N_of_ascii (list_ascii_of_string s)).

Definition str_eqb (a b : str) : bool := bool_decide (a = b).

(** [len(s)] *)
Definition len (s : str) : Z := Z.of_nat (length s).

Definition in_ranges (tbl : list (N * N)) (c : codepoint) : bool :=
  existsb (fun r => (fst r <=? c) && (c <=? snd r)) tbl.

(** [str.isspace] on one character, which is also [\s] of [re] on [str]
    patterns. *)
Definition whitespace_ranges : list (N * N) :=
  [(9, 13); (28, 32); (133, 133); (160, 160); (5760, 5760); (8192, 8202);
   (8232, 8233); (8239, 8239); (8287, 8287); (12288, 12288)].

Definition isspace (c : codepoint) : bool := in_ranges whitespace_ranges c.

(** [str.lstrip()], [str.rstrip()] and [str.strip()] without argument. *)
Fixpoint lstrip (s : str) : str :=
  match s with
  | c :: s' => if isspace c then lstrip s' else s
  | [] => []
  end.

Definition rstrip (s : str) : str := rev (lstrip (rev s)).

Definition strip (s : str) : str := rstrip (lstrip s).

(** The Unicode decimal digits (category Nd, Unicode 14.0): [str.isdecimal]
    on one character and [\d] of [re]. Within each range the digit value is
    the offset modulo ten. *)
Definition decimal_ranges : list (N * N) :=
  [
    (48, 57); (1632, 1641); (1776, 1785); (1984, 1993); (2406, 2415); (2534, 2543);
    (2662, 2671); (2790, 2799); (2918, 2927); (3046, 3055); (3174, 3183); (3302, 3311);
    (3430, 3439); (3558, 3567); (3664, 3673); (3792, 3801); (3872, 3881); (4160, 4169);
    (4240, 4249); (6112, 6121); (6160, 6169); (6470, 6479); (6608, 6617); (6784, 6793);
    (6800, 6809); (6992, 7001); (7088, 7097); (7232, 7241); (7248, 7257); (42528, 42537);
    (43216, 43225); (43264, 43273); (43472, 43481); (43504, 43513); (43600, 43609); (44016, 44025);
    (65296, 65305); (66720, 66729); (68912, 68921); (69734, 69743); (69872, 69881); (69942, 69951);
    (70096, 70105); (70384, 70393); (70736, 70745); (70864, 70873); (71248, 71257); (71360, 71369);
    (71472, 71481); (71904, 71913); (72016, 72025); (72784, 72793); (73040, 73049); (73120, 73129);
    (92768, 92777); (92864, 92873); (93008, 93017); (120782, 120831); (123200, 123209); (123632, 123641);
    (125264, 125273); (130032, 130041)
  ].

Definition isdecimal (c : codepoint) : bool := in_ranges decimal_ranges c.

Definition digit_value (c : codepoint) : option N :=
  match List.find (fun r => (fst r <=? c) && (c <=? snd r)) decimal_ranges with
  | Some r => Some ((c - fst r) mod 10)
  | None => None
  end.

(** [str.isalnum] on one character (Unicode 14.0); with the underscore these
    are the word characters [\w] that decide [\b]. *)
Definition alnum_ranges : list (N * N) :=
  [
    (48, 57); (65, 90); (97, 122); (170, 170); (178, 179); (181, 181);
    (185, 186); (188, 190); (192, 214); (216, 246); (248, 705); (710, 721);
    (736, 740); (748, 748); (750, 750); (880, 884); (886, 887); (890, 893);
    (895, 895); (902, 902); (904, 906); (908, 908); (910, 929); (931, 1013);
    (1015, 1153); (1162, 1327); (1329, 1366); (1369, 1369); (1376, 1416); (1488, 1514);
    (1519, 1522); (1568, 1610); (1632, 1641); (1646, 1647); (1649, 1747); (1749, 1749);
    (1765, 1766); (1774, 1788); (1791, 1791); (1808, 1808); (1810, 1839); (1869, 1957);
    (1969, 1969); (1984, 2026); (2036, 2037); (2042, 2042); (2048, 2069); (2074, 2074);
    (2084, 2084); (2088, 2088); (2112, 2136); (2144, 2154); (2160, 2183); (2185, 2190);
    (2208, 2249); (2308, 2361); (2365, 2365); (2384, 2384); (2392, 2401); (2406, 2415);
    (2417, 2432); (2437, 2444); (2447, 2448); (2451, 2472); (2474, 2480); (2482, 2482);
    (2486, 2489); (2493, 2493); (2510, 2510); (2524, 2525); (2527, 2529); (2534, 2545);
    (2548, 2553); (2556, 2556); (2565, 2570); (2575, 2576); (2579, 2600); (2602, 2608);
    (2610, 2611); (2613, 2614); (2616, 2617); (2649, 2652); (2654, 2654); (2662, 2671);
    (2674, 2676); (2693, 2701); (2703, 2705); (2707, 2728); (2730, 2736); (2738, 2739);
    (2741, 2745); (2749, 2749); (2768, 2768); (2784, 2785); (2790, 2799); (2809, 2809);
    (2821, 2828); (2831, 2832); (2835, 2856); (2858, 2864); (2866, 2867); (2869, 2873);
    (2877, 2877); (2908, 2909); (2911, 2913); (2918, 2927); (2929, 2935); (2947, 2947);
    (2949, 2954); (2958, 2960); (2962, 2965); (2969, 2970); (2972, 2972); (2974, 2975);
    (2979, 2980); (2984, 2986); (2990, 3001); (3024, 3024); (3046, 3058); (3077, 3084);
    (3086, 3088); (3090, 3112); (3114, 3129); (3133, 3133); (3160, 3162); (3165, 3165);
    (3168, 3169); (3174, 3183); (3192, 3198); (3200, 3200); (3205, 3212); (3214, 3216);
    (3218, 3240); (3242, 3251); (3253, 3257); (3261, 3261); (3293, 3294); (3296, 3297);
    (3302, 3311); (3313, 3314); (3332, 3340); (3342, 3344); (3346, 3386); (3389, 3389);
    (3406, 3406); (3412, 3414); (3416, 3425); (3430, 3448); (3450, 3455); (3461, 3478);
    (3482, 3505); (3507, 3515); (3517, 3517); (3520, 3526); (3558, 3567); (3585, 3632);
    (3634, 3635); (3648, 3654); (3664, 3673); (3713, 3714); (3716, 3716); (3718, 3722);
    (3724, 3747); (3749, 3749); (3751, 3760); (3762, 3763); (3773, 3773); (3776, 3780);
    (3782, 3782); (3792, 3801); (3804, 3807); (3840, 3840); (3872, 3891); (3904, 3911);
    (3913, 3948); (3976, 3980); (4096, 4138); (4159, 4169); (4176, 4181); (4186, 4189);
    (4193, 4193); (4197, 4198); (4206, 4208); (4213, 4225); (4238, 4238); (4240, 4249);
    (4256, 4293); (4295, 4295); (4301, 4301); (4304, 4346); (4348, 4680); (4682, 4685);
    (4688, 4694); (4696, 4696); (4698, 4701); (4704, 4744); (4746, 4749); (4752, 4784);
    (4786, 4789); (4792, 4798); (4800, 4800); (4802, 4805); (4808, 4822); (4824, 4880);
    (4882, 4885); (4888, 4954); (4969, 4988); (4992, 5007); (5024, 5109); (5112, 5117);
    (5121, 5740); (5743, 5759); (5761, 5786); (5792, 5866); (5870, 5880); (5888, 5905);
    (5919, 5937); (5952, 5969); (5984, 5996); (5998, 6000); (6016, 6067); (6103, 6103);
    (6108, 6108); (6112, 6121); (6128, 6137); (6160, 6169); (6176, 6264); (6272, 6276);
    (6279, 6312); (6314, 6314); (6320, 6389); (6400, 6430); (6470, 6509); (6512, 6516);
    (6528, 6571); (6576, 6601); (6608, 6618); (6656, 6678); (6688, 6740); (6784, 6793);
    (6800, 6809); (6823, 6823); (6917, 6963); (6981, 6988); (6992, 7001); (7043, 7072);
    (7086, 7141); (7168, 7203); (7232, 7241); (7245, 7293); (7296, 7304); (7312, 7354);
    (7357, 7359); (7401, 7404); (7406, 7411); (7413, 7414); (7418, 7418); (7424, 7615);
    (7680, 7957); (7960, 7965); (7968, 8005); (8008, 8013); (8016, 8023); (8025, 8025);
    (8027, 8027); (8029, 8029); (8031, 8061); (8064, 8116); (8118, 8124); (8126, 8126);
    (8130, 8132); (8134, 8140); (8144, 8147); (8150, 8155); (8160, 8172); (8178, 8180);
    (8182, 8188); (8304, 8305); (8308, 8313); (8319, 8329); (8336, 8348); (8450, 8450);
    (8455, 8455); (8458, 8467); (8469, 8469); (8473, 8477); (8484, 8484); (8486, 8486);
    (8488, 8488); (8490, 8493); (8495, 8505); (8508, 8511); (8517, 8521); (8526, 8526);
    (8528, 8585); (9312, 9371); (9450, 9471); (10102, 10131); (11264, 11492); (11499, 11502);
    (11506, 11507); (11517, 11517); (11520, 11557); (11559, 11559); (11565, 11565); (11568, 11623);
    (11631, 11631); (11648, 11670); (11680, 11686); (11688, 11694); (11696, 11702); (11704, 11710);
    (11712, 11718); (11720, 11726); (11728, 11734); (11736, 11742); (11823, 11823); (12293, 12295);
    (12321, 12329); (12337, 12341); (12344, 12348); (12353, 12438); (12445, 12447); (12449, 12538);
    (12540, 12543); (12549, 12591); (12593, 12686); (12690, 12693); (12704, 12735); (12784, 12799);
    (12832, 12841); (12872, 12879); (12881, 12895); (12928, 12937); (12977, 12991); (13312, 19903);
    (19968, 42124); (42192, 42237); (42240, 42508); (42512, 42539); (42560, 42606); (42623, 42653);
    (42656, 42735); (42775, 42783); (42786, 42888); (42891, 42954); (42960, 42961); (42963, 42963);
    (42965, 42969); (42994, 43009); (43011, 43013); (43015, 43018); (43020, 43042); (43056, 43061);
    (43072, 43123); (43138, 43187); (43216, 43225); (43250, 43255); (43259, 43259); (43261, 43262);
    (43264, 43301); (43312, 43334); (43360, 43388); (43396, 43442); (43471, 43481); (43488, 43492);
    (43494, 43518); (43520, 43560); (43584, 43586); (43588, 43595); (43600, 43609); (43616, 43638);
    (43642, 43642); (43646, 43695); (43697, 43697); (43701, 43702); (43705, 43709); (43712, 43712);
    (43714, 43714); (43739, 43741); (43744, 43754); (43762, 43764); (43777, 43782); (43785, 43790);
    (43793, 43798); (43808, 43814); (43816, 43822); (43824, 43866); (43868, 43881); (43888, 44002);
    (44016, 44025); (44032, 55203); (55216, 55238); (55243, 55291); (63744, 64109); (64112, 64217);
    (64256, 64262); (64275, 64279); (64285, 64285); (64287, 64296); (64298, 64310); (64312, 64316);
    (64318, 64318); (64320, 64321); (64323, 64324); (64326, 64433); (64467, 64829); (64848, 64911);
    (64914, 64967); (65008, 65019); (65136, 65140); (65142, 65276); (65296, 65305); (65313, 65338);
    (65345, 65370); (65382, 65470); (65474, 65479); (65482, 65487); (65490, 65495); (65498, 65500);
    (65536, 65547); (65549, 65574); (65576, 65594); (65596, 65597); (65599, 65613); (65616, 65629);
    (65664, 65786); (65799, 65843); (65856, 65912); (65930, 65931); (66176, 66204); (66208, 66256);
    (66273, 66299); (66304, 66339); (66349, 66378); (66384, 66421); (66432, 66461); (66464, 66499);
    (66504, 66511); (66513, 66517); (66560, 66717); (66720, 66729); (66736, 66771); (66776, 66811);
    (66816, 66855); (66864, 66915); (66928, 66938); (66940, 66954); (66956, 66962); (66964, 66965);
    (66967, 66977); (66979, 66993); (66995, 67001); (67003, 67004); (67072, 67382); (67392, 67413);
    (67424, 67431); (67456, 67461); (67463, 67504); (67506, 67514); (67584, 67589); (67592, 67592);
    (67594, 67637); (67639, 67640); (67644, 67644); (67647, 67669); (67672, 67702); (67705, 67742);
    (67751, 67759); (67808, 67826); (67828, 67829); (67835, 67867); (67872, 67897); (67968, 68023);
    (68028, 68047); (68050, 68096); (68112, 68115); (68117, 68119); (68121, 68149); (68160, 68168);
    (68192, 68222); (68224, 68255); (68288, 68295); (68297, 68324); (68331, 68335); (68352, 68405);
    (68416, 68437); (68440, 68466); (68472, 68497); (68521, 68527); (68608, 68680); (68736, 68786);
    (68800, 68850); (68858, 68899); (68912, 68921); (69216, 69246); (69248, 69289); (69296, 69297);
    (69376, 69415); (69424, 69445); (69457, 69460); (69488, 69505); (69552, 69579); (69600, 69622);
    (69635, 69687); (69714, 69743); (69745, 69746); (69749, 69749); (69763, 69807); (69840, 69864);
    (69872, 69881); (69891, 69926); (69942, 69951); (69956, 69956); (69959, 69959); (69968, 70002);
    (70006, 70006); (70019, 70066); (70081, 70084); (70096, 70106); (70108, 70108); (70113, 70132);
    (70144, 70161); (70163, 70187); (70272, 70278); (70280, 70280); (70282, 70285); (70287, 70301);
    (70303, 70312); (70320, 70366); (70384, 70393); (70405, 70412); (70415, 70416); (70419, 70440);
    (70442, 70448); (70450, 70451); (70453, 70457); (70461, 70461); (70480, 70480); (70493, 70497);
    (70656, 70708); (70727, 70730); (70736, 70745); (70751, 70753); (70784, 70831); (70852, 70853);
    (70855, 70855); (70864, 70873); (71040, 71086); (71128, 71131); (71168, 71215); (71236, 71236);
    (71248, 71257); (71296, 71338); (71352, 71352); (71360, 71369); (71424, 71450); (71472, 71483);
    (71488, 71494); (71680, 71723); (71840, 71922); (71935, 71942); (71945, 71945); (71948, 71955);
    (71957, 71958); (71960, 71983); (71999, 71999); (72001, 72001); (72016, 72025); (72096, 72103);
    (72106, 72144); (72161, 72161); (72163, 72163); (72192, 72192); (72203, 72242); (72250, 72250);
    (72272, 72272); (72284, 72329); (72349, 72349); (72368, 72440); (72704, 72712); (72714, 72750);
    (72768, 72768); (72784, 72812); (72818, 72847); (72960, 72966); (72968, 72969); (72971, 73008);
    (73030, 73030); (73040, 73049); (73056, 73061); (73063, 73064); (73066, 73097); (73112, 73112);
    (73120, 73129); (73440, 73458); (73648, 73648); (73664, 73684); (73728, 74649); (74752, 74862);
    (74880, 75075); (77712, 77808); (77824, 78894); (82944, 83526); (92160, 92728); (92736, 92766);
    (92768, 92777); (92784, 92862); (92864, 92873); (92880, 92909); (92928, 92975); (92992, 92995);
    (93008, 93017); (93019, 93025); (93027, 93047); (93053, 93071); (93760, 93846); (93952, 94026);
    (94032, 94032); (94099, 94111); (94176, 94177); (94179, 94179); (94208, 100343); (100352, 101589);
    (101632, 101640); (110576, 110579); (110581, 110587); (110589, 110590); (110592, 110882); (110928, 110930);
    (110948, 110951); (110960, 111355); (113664, 113770); (113776, 113788); (113792, 113800); (113808, 113817);
    (119520, 119539); (119648, 119672); (119808, 119892); (119894, 119964); (119966, 119967); (119970, 119970);
    (119973, 119974); (119977, 119980); (119982, 119993); (119995, 119995); (119997, 120003); (120005, 120069);
    (120071, 120074); (120077, 120084); (120086, 120092); (120094, 120121); (120123, 120126); (120128, 120132);
    (120134, 120134); (120138, 120144); (120146, 120485); (120488, 120512); (120514, 120538); (120540, 120570);
    (120572, 120596); (120598, 120628); (120630, 120654); (120656, 120686); (120688, 120712); (120714, 120744);
    (120746, 120770); (120772, 120779); (120782, 120831); (122624, 122654); (123136, 123180); (123191, 123197);
    (123200, 123209); (123214, 123214); (123536, 123565); (123584, 123627); (123632, 123641); (124896, 124902);
    (124904, 124907); (124909, 124910); (124912, 124926); (124928, 125124); (125127, 125135); (125184, 125251);
    (125259, 125259); (125264, 125273); (126065, 126123); (126125, 126127); (126129, 126132); (126209, 126253);
    (126255, 126269); (126464, 126467); (126469, 126495); (126497, 126498); (126500, 126500); (126503, 126503);
    (126505, 126514); (126516, 126519); (126521, 126521); (126523, 126523); (126530, 126530); (126535, 126535);
    (126537, 126537); (126539, 126539); (126541, 126543); (126545, 126546); (126548, 126548); (126551, 126551);
    (126553, 126553); (126555, 126555); (126557, 126557); (126559, 126559); (126561, 126562); (126564, 126564);
    (126567, 126570); (126572, 126578); (126580, 126583); (126585, 126588); (126590, 126590); (126592, 126601);
    (126603, 126619); (126625, 126627); (126629, 126633); (126635, 126651); (127232, 127244); (130032, 130041);
    (131072, 173791); (173824, 177976); (177984, 178205); (178208, 183969); (183984, 191456); (194560, 195101);
    (196608, 201546)
  ].

Definition isalnum (c : codepoint) : bool := in_ranges alnum_ranges c.

Definition is_word (c : codepoint) : bool := isalnum c || (c =? 95).

(** ** Integers and their decimal text *)

Fixpoint uint_chars (d : Decimal.uint) : str :=
  match d with
  | Decimal.Nil => []
  | Decimal.D0 d => 48 :: uint_chars d
  | Decimal.D1 d => 49 :: uint_chars d
  | Decimal.D2 d => 50 :: uint_chars d
  | Decimal.D3 d => 51 :: uint_chars d
  | Decimal.D4 d => 52 :: uint_chars d
  | Decimal.D5 d => 53 :: uint_chars d
  | Decimal.D6 d => 54 :: uint_chars d
  | Decimal.D7 d => 55 :: uint_chars d
  | Decimal.D8 d => 56 :: uint_chars d
  | Decimal.D9 d => 57 :: uint_chars d
  end.

(** [str(n)] for [n >= 0] *)
Definition decimal (n : N) : str := uint_chars (N.to_uint n).

(** [f"{n:02d}"]: sign, then the digits zero-padded so that the whole has at
    least two characters. *)
Definition format_02d (n : Z) : str :=
  let digits := decimal (Z.abs_N n) in
  if (n <? 0)%Z then
    45 :: repeat 48 (1 - length digits)%nat ++ digits
  else
    repeat 48 (2 - length digits)%nat ++ digits.

(** [range(n)] *)
Definition range (n : nat) : list Z := List.map Z.of_nat (seq 0 n).

(** [int(s)] for a string: surrounding whitespace is dropped, one sign is
    allowed, then decimal digits with single underscores between them.
    [None] is [ValueError]. *)
Fixpoint int_digits (acc : N) (after_underscore : bool) (s : str) : option N :=
  match s with
  | [] => if after_underscore then None else Some acc
  | c :: s' =>
      if (c =? 95)%N then
        if after_underscore then None else int_digits acc true s'
      else
        match digit_value c with
        | Some d => int_digits (acc * 10 + d)%N false s'
        | None => None
        end
  end.

Definition int_unsigned (s : str) : option N :=
  match s with
  | c :: _ => if isdecimal c then int_digits 0%N false s else None
  | [] => None
  end.

Definition int (s : str) : option Z :=
  match strip s with
  | 43%N :: s' => Z.of_N <$> int_unsigned s'
  | 45%N :: s' => (fun n => Z.opp (Z.of_N n)) <$> int_unsigned s'
  | s' => Z.of_N <$> int_unsigned s'
  end.


(** ** Page geometry (module constants of both page scripts) *)

Local Open Scope Z_scope.

Definition GRID_COLS : nat := 3.
Definition GRID_ROWS : nat := 10.
Definition RECORD_WIDTH : Z := 298.
Definition RECORD_HEIGHT : Z := 121.
Definition START_X : Z := 22.
Definition START_Y : Z := 42.
Definition GAP_X : Z := 5.
Definition GAP_Y : Z := 5.

(** The part of one loop iteration that precedes any cropping:
    [record_num], [record_id], [x], [y]. *)
Record tile := {
  tile_record_id : str;
  tile_row : Z;
  tile_col : Z;
  tile_x : Z;
  tile_y : Z
}.

Definition tile_at (row col : Z) : tile :=
  let record_num := row * Z.of_nat GRID_COLS + col in
  {| tile_record_id := format_02d record_num;
     tile_row := row;
     tile_col := col;
     tile_x := START_X + col * (RECORD_WIDTH + GAP_X);
     tile_y := START_Y + row * (RECORD_HEIGHT + GAP_Y) |}.

(** [x + RECORD_WIDTH > img.width or y + RECORD_HEIGHT > img.height] *)
Definition out_of_bounds (width height : Z) (t : tile) : bool :=
  (tile_x t + RECORD_WIDTH >? width) || (tile_y t + RECORD_HEIGHT >? height).

(** The two nested [for] loops with the bounds check and its [continue].
    [skipped] is what the script does before the [continue], [body] what the
    rest of the iteration does; both act on what the loop accumulates. *)
Definition grid_loop {A} (width height : Z) (skipped body : tile -> A -> A) (init : A) : A :=
  fold_left
    (fun acc row =>
       fold_left
         (fun acc col =>
            let t := tile_at row col in
            if out_of_bounds width height t then skipped t acc else body t acc)
         (range GRID_COLS) acc)
    (range GRID_ROWS) init.

(** The tiles that reach the body of the loop, in loop order. *)
Definition segment (width height : Z) : list tile :=
  grid_loop width height (fun _ acc => acc) (fun t acc => acc ++ [t]) [].

(** ** The part of Python's [re] that the scripts use

    Patterns are written as syntax trees next to their source text. Every
    repetition in the scripts is over a single-character item, so repetition
    is defined on such items; every pattern has at most one capturing
    group. Matching is the backtracking search of [re]: alternatives left to
    right, greedy repetitions longest first, lazy ones shortest first. *)
Module re.

Local Open Scope N_scope.

Inductive set_item :=
| Ch (c : codepoint)            (* a literal character in a set *)
| Rg (lo hi : codepoint)        (* lo-hi *)
| Space                         (* \s *)
| Digit.                        (* \d *)

Inductive item :=
| Char (c : codepoint)          (* a literal character *)
| Dot                           (* .  (no DOTALL: anything but \n) *)
| In (items : list set_item)    (* [...] *)
| NotIn (items : list set_item). (* [^...] *)

Inductive regex :=
| Lit (s : str)                 (* a run of literal characters *)
| One (a : item)
| Repeat (greedy : bool) (lo : nat) (hi : option nat) (a : item)
                                (* a{lo,hi}; a* a+ a*? with hi = None *)
| Cat (r1 r2 : regex)
| Alt (r1 r2 : regex)           (* r1|r2 *)
| Group (r : regex)             (* ( ... ), group 1 *)
| WordBoundary                  (* \b *)
| Bol                           (* ^ (no MULTILINE) *)
| Eol.                          (* $ (no MULTILINE) *)

Arguments Ch c%_N.
Arguments Rg (lo hi)%_N.
Arguments Char c%_N.

(** Case mapping of the characters that map to or from an ASCII letter:
    the letters themselves, U+0130, U+0131, U+017F and U+212A. All other
    characters are left alone; the literals and ranges of the scripts'
    case-insensitive patterns are ASCII or caseless, so nothing else can
    change a comparison. *)
Definition lower (c : codepoint) : codepoint :=
  if (65 <=? c) && (c <=? 90) then c + 32
  else if c =? 304 then 105
  else if c =? 8490 then 107
  else c.

Definition upper (c : codepoint) : codepoint :=
  if (97 <=? c) && (c <=? 122) then c - 32
  else if c =? 305 then 73
  else if c =? 383 then 83
  else c.

Definition char_matches (ignorecase : bool) (x c : codepoint) : bool :=
  (c =? x) || (ignorecase && (lower c =? lower x)).

Definition set_item_matches (ignorecase : bool) (i : set_item) (c : codepoint) : bool :=
  match i with
  | Ch x => char_matches ignorecase x c
  | Rg lo hi =>
      if ignorecase then
        let l := lower c in
        ((lo <=? l) && (l <=? hi)) || ((lo <=? upper l) && (upper l <=? hi))
      else (lo <=? c) && (c <=? hi)
  | Space => isspace c
  | Digit => isdecimal c
  end.

Definition item_matches (ignorecase : bool) (a : item) (c : codepoint) : bool :=
  match a with
  | Char x => char_matches ignorecase x c
  | Dot => negb (c =? 10)
  | In items => existsb (fun i => set_item_matches ignorecase i c) items
  | NotIn items => negb (existsb (fun i => set_item_matches ignorecase i c) items)
  end.

(** A position in the subject: the character before it (if any) and the
    text from it on. *)
Definition at_boundary (prev : option codepoint) (s : str) : bool :=
  xorb (from_option is_word false prev) (from_option is_word false (head s)).

Definition below (hi : option nat) (n : nat) : bool :=
  match hi with
  | Some h => (n <? h)%nat
  | None => true
  end.

Definition or_else {A} (x y : option A) : option A :=
  match x with
  | Some _ => x
  | None => y
  end.

Section Matcher.
Context {R : Type}.
Variable ignorecase : bool.

(** The rest of the pattern, run at the position a sub-pattern stops
    at, with the text of group 1 so far. *)
Definition cont := option codepoint -> str -> option str -> option R.

Fixpoint lit (x : str) (prev : option codepoint) (s : str) (cap : option str)
    (k : cont) : option R :=
  match x with
  | [] => k prev s cap
  | xc :: x' =>
      match s with
      | c :: s' => if char_matches ignorecase xc c then lit x' (Some c) s' cap k else None
      | [] => None
      end
  end.

(** [n] items have been taken so far. *)
Fixpoint repeat_item (greedy : bool) (lo : nat) (hi : option nat) (a : item)
    (n : nat) (prev : option codepoint) (s : str) (k : option codepoint -> str -> option R)
    : option R :=
  let stop := if (lo <=? n)%nat then k prev s else None in
  let more :=
    match s with
    | c :: s' =>
        if item_matches ignorecase a c && below hi n
        then repeat_item greedy lo hi a (S n) (Some c) s' k
        else None
    | [] => None
    end in
  if greedy then or_else more stop else or_else stop more.

Fixpoint run (r : regex) (prev : option codepoint) (s : str) (cap : option str)
    (k : cont) : option R :=
  match r with
  | Lit x => lit x prev s cap k
  | One a =>
      match s with
      | c :: s' => if item_matches ignorecase a c then k (Some c) s' cap else None
      | [] => None
      end
  | Repeat greedy lo hi a =>
      repeat_item greedy lo hi a 0 prev s (fun prev' s' => k prev' s' cap)
  | Cat r1 r2 => run r1 prev s cap (fun prev' s' cap' => run r2 prev' s' cap' k)
  | Alt r1 r2 => or_else (run r1 prev s cap k) (run r2 prev s cap k)
  | Group r1 =>
      run r1 prev s cap
        (fun prev' s' _ => k prev' s' (Some (take (length s - length s') s)))
  | WordBoundary => if at_boundary prev s then k prev s cap else None
  | Bol => match prev with None => k prev s cap | Some _ => None end
  | Eol => match s with [] | [10] => k prev s cap | _ => None end
  end.
End Matcher.

(** A match found at some position: the text after it and group 1. *)
Record match_object := { rest : str; group1 : option str }.

Definition match_here (ignorecase : bool) (r : regex) (prev : option codepoint) (s : str)
    : option match_object :=
  run ignorecase r prev s None (fun _ s' cap => Some {| rest := s'; group1 := cap |}).

(** [re.match(pattern, s)] *)
Definition match_ (ignorecase : bool) (r : regex) (s : str) : option match_object :=
  match_here ignorecase r None s.

Fixpoint search_from (ignorecase : bool) (r : regex) (prev : option codepoint) (s : str)
    : option match_object :=
  match match_here ignorecase r prev s with
  | Some m => Some m
  | None =>
      match s with
      | c :: s' => search_from ignorecase r (Some c) s'
      | [] => None
      end
  end.

(** [re.search(pattern, s)] *)
Definition search (ignorecase : bool) (r : regex) (s : str) : option match_object :=
  search_from ignorecase r None s.

(** [m.group(1)]; in every pattern of the scripts group 1 is on every
    path through the pattern, so a match always carries it. *)
Definition group (m : match_object) : str := default [] (group1 m).

(** [re.sub(pattern, repl, s)] with a literal replacement. [skip] counts
    the characters still inside the match that was just replaced. *)
Fixpoint sub_from (r : regex) (repl : str) (prev : option codepoint) (s : str)
    (skip : nat) : str :=
  match s with
  | [] =>
      match skip, match_here false r prev [] with
      | O, Some _ => repl
      | _, _ => []
      end
  | c :: s' =>
      match skip with
      | S n => sub_from r repl (Some c) s' n
      | O =>
          match match_here false r prev s with
          | Some m =>
              match (length s - length (rest m))%nat with
              | O => repl ++ c :: sub_from r repl (Some c) s' 0
              | S n => repl ++ sub_from r repl (Some c) s' n
              end
          | None => c :: sub_from r repl (Some c) s' 0
          end
      end
  end.

Definition sub (r : regex) (repl : str) (s : str) : str := sub_from r repl None s 0.

(** Shorthands for writing patterns. *)
Definition seq_ (rs : list regex) : regex := foldr Cat (Lit []) rs.
Definition star (a : item) : regex := Repeat true 0 None a.       (* a* *)
Definition plus (a : item) : regex := Repeat true 1 None a.       (* a+ *)
Definition lazy_star (a : item) : regex := Repeat false 0 None a. (* a*? *)
Definition counted (lo hi : nat) (a : item) : regex := Repeat true lo (Some hi) a.
Definition at_least (lo : nat) (a : item) : regex := Repeat true lo None a.

End re.

(** ** Paths, sorting and the file system *)

(** [s.startswith(p)] *)
Fixpoint startswith (p s : str) : bool :=
  match p, s with
  | [], _ => true
  | x :: p', c :: s' => (x =? c)%N && startswith p' s'
  | _ :: _, [] => false
  end.

(** [s.replace(old, new)] for a non-empty [old]; [skip] counts the characters
    of the occurrence that was just replaced. *)
Fixpoint replace_from (old new s : str) (skip : nat) : str :=
  match s with
  | [] => []
  | c :: s' =>
      match skip with
      | S n => replace_from old new s' n
      | O =>
          if startswith old s
          then new ++ replace_from old new s' (length old - 1)
          else c :: replace_from old new s' 0
      end
  end.

Definition replace (old new s : str) : str := replace_from old new s 0.

(** [os.path.basename(p)]: what follows the last slash. *)
Fixpoint basename_from (s acc : str) : str :=
  match s with
  | [] => acc
  | c :: s' => if (c =? 47)%N then basename_from s' [] else basename_from s' (acc ++ [c])
  end.

Definition basename (p : str) : str := basename_from p [].

(** [os.path.join(a, b)] *)
Definition path_join (a b : str) : str :=
  match b with
  | 47%N :: _ => b
  | _ =>
      match last a with
      | None => b
      | Some 47%N => a ++ b
      | Some _ => a ++ 47%N :: b
      end
  end.

(** Order of [str] values: by code point, a proper prefix first. *)
Fixpoint str_leb (a b : str) : bool :=
  match a, b with
  | [], _ => true
  | _ :: _, [] => false
  | x :: a', y :: b' =>
      if (x <? y)%N then true else if (y <? x)%N then false else str_leb a' b'
  end.

Fixpoint insert_sorted (x : str) (l : list str) : list str :=
  match l with
  | [] => [x]
  | y :: l' => if str_leb x y then x :: l else y :: insert_sorted x l'
  end.

(** [sorted(l)] for a list of strings *)
Definition sorted (l : list str) : list str := foldr insert_sorted [] l.

(** What the scripts ask of the file system. Text files are read whole;
    [None] stands for any exception of [open] or [read]. *)
Record filesystem := {
  fs_read : str -> option str;
  fs_glob : str -> list str;
  fs_exists : str -> bool;
  fs_listdir : str -> list str;
  fs_isdir : str -> bool
}.

(** ** [scripts/parse_ocr.py] *)
Module parse_ocr.
Import re.

(** The keys of [PATTERNS], in the order of the dictionary literal. *)
Inductive field := serial | name | relation | house_no | age | gender | epic.

#[global] Instance field_eq_dec : EqDecision field.
Proof. solve_decision. Defined.

Definition PATTERNS_keys : list field :=
  [serial; name; relation; house_no; age; gender; epic].

Definition space_or_colon : item := In [Space; Ch 58].   (* [\s:] *)
Definition not_newline : item := NotIn [Ch 10].          (* [^\n] *)
Definition ascii_digit : item := In [Rg 48 57].          (* [0-9] *)
Definition ascii_upper : item := In [Rg 65 90].          (* [A-Z] *)

Definition PATTERNS (f : field) : regex :=
  match f with
  | serial =>   (* \b([0-9]{1,4})\b *)
      seq_ [WordBoundary; Group (counted 1 4 ascii_digit); WordBoundary]
  | name =>     (* निर्वाचक\s*का\s*नाम[\s:]*([^\n]+) *)
      seq_ [Lit (utf8 "निर्वाचक"); star (In [Space]); Lit (utf8 "का"); star (In [Space]);
            Lit (utf8 "नाम"); star space_or_colon; Group (plus not_newline)]
  | relation => (* (?:पति|पिता|माता)\s*का\s*नाम[\s:]*([^\n]+) *)
      seq_ [Alt (Lit (utf8 "पति")) (Alt (Lit (utf8 "पिता")) (Lit (utf8 "माता")));
            star (In [Space]); Lit (utf8 "का"); star (In [Space]);
            Lit (utf8 "नाम"); star space_or_colon; Group (plus not_newline)]
  | house_no => (* मकान\s*संख्या[\s:]*([^\n]+) *)
      seq_ [Lit (utf8 "मकान"); star (In [Space]); Lit (utf8 "संख्या");
            star space_or_colon; Group (plus not_newline)]
  | age =>      (* उम्र[\s:]*([0-9]{1,3}) *)
      seq_ [Lit (utf8 "उम्र"); star space_or_colon; Group (counted 1 3 ascii_digit)]
  | gender =>   (* लिंग[\s:]*([^\n]+) *)
      seq_ [Lit (utf8 "लिंग"); star space_or_colon; Group (plus not_newline)]
  | epic =>     (* \b([A-Z]{3}[0-9]{6,7})\b *)
      seq_ [WordBoundary;
            Group (Cat (counted 3 3 ascii_upper) (counted 6 7 ascii_digit));
            WordBoundary]
  end.

Definition REQUIRED_FIELDS : list field := [name; age; epic].

(** The pattern of the EPIC check, [^[A-Z]{3}[0-9]{6,7}$], used with
    [re.match] and no flags. *)
Definition EPIC_FORMAT : regex :=
  seq_ [Bol; counted 3 3 ascii_upper; counted 6 7 ascii_digit; Eol].

(** The patterns [parse_record] applies to the serial and EPIC files:
    [\b([0-9]{1,4})\b] and [\b([A-Z0-9]{6,12})\b]. *)
Definition RECORD_SERIAL : regex :=
  seq_ [WordBoundary; Group (counted 1 4 ascii_digit); WordBoundary].
Definition RECORD_EPIC : regex :=
  seq_ [WordBoundary; Group (counted 6 12 (In [Rg 65 90; Rg 48 57])); WordBoundary].

(** [self.stats] *)
Record statistics := {
  total_tiles : Z;
  valid_records : Z;
  invalid_records : Z;
  skipped_tiles : Z
}.

(** The lines the parser prints, one constructor per [print] call. *)
Inductive message :=
| TileMissingFields (tile_id : str) (missing : list field)
| TileInvalidAge (tile_id : str) (a : Z)
| TileNonNumericAge (tile_id : str) (a : str)
| TileInvalidEpic (tile_id : str) (e : str)
| RecordMissingFields (record_id : str) (missing : list field)
| RecordInvalidAge (record_id : str) (a : Z)
| RecordNonNumericAge (record_id : str) (a : str)
| ProcessingPage (page_id : str) (count : Z)
| DirectoryNotFound (path : str)
| FoundPages (count : Z)
| ProcessedSoFar (count : Z)
| WroteRecords (count : Z) (path : str)
| NoValidRecords
| Statistics (s : statistics)
| SuccessRate (valid total : Z).

(** A CSV file as the rows handed to the [csv] writer, each a list of
    cells; quoting and line ends are the writer's business. *)
Definition csv_file := list (list str).

(** What a method of [VoterParser] can change: the counters of the parser,
    the lines printed, the files opened for reading (in order) and the
    files written. *)
Record world := {
  stats : statistics;
  stdout : list message;
  opened : list str;
  written : list (str * csv_file)
}.

Definition M (A : Type) : Type := world -> A * world.

Definition ret {A} (x : A) : M A := fun w => (x, w).
Definition bind {A B} (m : M A) (f : A -> M B) : M B :=
  fun w => let (x, w') := m w in f x w'.

Notation "x <- m ;; k" := (bind m (fun x => k))
  (at level 100, m at next level, right associativity).
Notation "m ;; k" := (bind m (fun _ => k))
  (at level 100, right associativity).

Definition get_stats : M statistics := fun w => (stats w, w).

Definition update_stats (f : statistics -> statistics) : M unit :=
  fun w => (tt, {| stats := f (stats w); stdout := stdout w;
                   opened := opened w; written := written w |}).

Definition print (line : message) : M unit :=
  fun w => (tt, {| stats := stats w; stdout := stdout w ++ [line];
                   opened := opened w; written := written w |}).

(** [with open(path) as f: f.read()] inside its [try]. *)
Definition read_file (fs : filesystem) (path : str) : M (option str) :=
  fun w => (fs_read fs path,
            {| stats := stats w; stdout := stdout w;
               opened := opened w ++ [path]; written := written w |}).

Definition write_csv (path : str) (rows : csv_file) : M unit :=
  fun w => (tt, {| stats := stats w; stdout := stdout w;
                   opened := opened w; written := written w ++ [(path, rows)] |}).

(** A [for] loop that carries [acc] through its iterations. *)
Fixpoint for_each {A B} (l : list A) (body : B -> A -> M B) (acc : B) : M B :=
  match l with
  | [] => ret acc
  | x :: l' => acc' <- body acc x ;; for_each l' body acc'
  end.

Definition incr_total (s : statistics) : statistics :=
  {| total_tiles := total_tiles s + 1; valid_records := valid_records s;
     invalid_records := invalid_records s; skipped_tiles := skipped_tiles s |}.
Definition incr_valid (s : statistics) : statistics :=
  {| total_tiles := total_tiles s; valid_records := valid_records s + 1;
     invalid_records := invalid_records s; skipped_tiles := skipped_tiles s |}.
Definition incr_invalid (s : statistics) : statistics :=
  {| total_tiles := total_tiles s; valid_records := valid_records s;
     invalid_records := invalid_records s + 1; skipped_tiles := skipped_tiles s |}.
Definition incr_skipped (s : statistics) : statistics :=
  {| total_tiles := total_tiles s; valid_records := valid_records s;
     invalid_records := invalid_records s; skipped_tiles := skipped_tiles s + 1 |}.

(** [VoterParser.__init__]: the counters start at zero. *)
Definition init_stats : statistics :=
  {| total_tiles := 0; valid_records := 0; invalid_records := 0; skipped_tiles := 0 |}.

(** [extract_field]: [re.search] with [re.UNICODE | re.IGNORECASE]. *)
Definition extract_field (pattern : regex) (text : str) : str :=
  match search true pattern text with
  | Some m => strip (group m)
  | None => []
  end.

(** [clean_text] *)
Definition clean_text (text : str) : str :=
  let text := sub (plus (In [Ch 32; Ch 9])) [32%N] text in          (* [ \t]+ *)
  let text := sub (at_least 3 (Char 10)) [10%N; 10%N] text in       (* \n{3,} *)
  strip text.

(** The dictionary [parse_tile] builds. *)
Record tile_record := {
  tile_id : str;
  t_serial : str;
  t_epic : str;
  t_name : str;
  t_relation : str;
  t_house_no : str;
  t_age : str;
  t_gender : str;
  t_raw_text_length : Z
}.

(** [record.get(field)] for a key of [PATTERNS] *)
Definition tile_get (record : tile_record) (f : field) : str :=
  match f with
  | serial => t_serial record
  | name => t_name record
  | relation => t_relation record
  | house_no => t_house_no record
  | age => t_age record
  | gender => t_gender record
  | epic => t_epic record
  end.

(** Truth value of a string: non-empty. *)
Definition truthy (s : str) : bool := negb (str_eqb s []).

(** Lines 90-122 of [parse_tile]: what happens once the dictionary is
    built. *)
Definition validate_tile (strict_mode : bool) (record : tile_record)
    : M (option tile_record) :=
  let required := if strict_mode then PATTERNS_keys else REQUIRED_FIELDS in
  let missing := List.filter (fun f => negb (truthy (tile_get record f))) required in
  match missing with
  | _ :: _ =>
      print (TileMissingFields (tile_id record) missing) ;;
      ret None
  | [] =>
      let epic_validation : M (option tile_record) :=
        if truthy (t_epic record) && negb (bool_decide (is_Some (match_ false EPIC_FORMAT (t_epic record))))
        then
          print (TileInvalidEpic (tile_id record) (t_epic record)) ;;
          if strict_mode then ret None else ret (Some record)
        else ret (Some record) in
      if truthy (t_age record) then
        match int (t_age record) with
        | Some a =>
            if (a <? 18) || (a >? 120) then
              print (TileInvalidAge (tile_id record) a) ;;
              ret None
            else epic_validation
        | None =>
            print (TileNonNumericAge (tile_id record) (t_age record)) ;;
            ret None
        end
      else epic_validation
  end.

Definition parse_tile (strict_mode : bool) (ocr_text tile_id : str)
    : M (option tile_record) :=
  let text := clean_text ocr_text in
  if len text <? 20 then ret None
  else
    let record :=
      {| tile_id := tile_id;
         t_serial := extract_field (PATTERNS serial) text;
         t_epic := extract_field (PATTERNS epic) text;
         t_name := extract_field (PATTERNS name) text;
         t_relation := extract_field (PATTERNS relation) text;
         t_house_no := extract_field (PATTERNS house_no) text;
         t_age := extract_field (PATTERNS age) text;
         t_gender := extract_field (PATTERNS gender) text;
         t_raw_text_length := len text |} in
    validate_tile strict_mode record.

(** The dictionary [parse_record] builds; [process_page] then sets
    ["page_id"]. *)
Record voter_record := {
  record_id : str;
  v_serial : str;
  v_epic : str;
  v_name : str;
  v_relation : str;
  v_house_no : str;
  v_age : str;
  v_gender : str;
  v_raw_text_length : Z;
  page_id : option str
}.

Definition voter_get (record : voter_record) (f : field) : str :=
  match f with
  | serial => v_serial record
  | name => v_name record
  | relation => v_relation record
  | house_no => v_house_no record
  | age => v_age record
  | gender => v_gender record
  | epic => v_epic record
  end.

Definition set_page_id (p : str) (record : voter_record) : voter_record :=
  {| record_id := record_id record; v_serial := v_serial record;
     v_epic := v_epic record; v_name := v_name record;
     v_relation := v_relation record; v_house_no := v_house_no record;
     v_age := v_age record; v_gender := v_gender record;
     v_raw_text_length := v_raw_text_length record; page_id := Some p |}.

(** The three files of a record: [f"{base_path}_serial.txt"] and so on. *)
Definition region_file (ocr_dir record_id : str) (suffix : string) : str :=
  path_join ocr_dir record_id ++ utf8 suffix.

(** Lines 160-179 of [parse_record]. *)
Definition validate_record (record : voter_record) : M (option voter_record) :=
  let required_fields := [name; age; serial] in
  let missing := List.filter (fun f => negb (truthy (voter_get record f))) required_fields in
  match missing with
  | _ :: _ =>
      print (RecordMissingFields (record_id record) missing) ;;
      ret None
  | [] =>
      if truthy (v_age record) then
        match int (v_age record) with
        | Some a =>
            if (a <? 18) || (a >? 120) then
              print (RecordInvalidAge (record_id record) a) ;;
              ret None
            else ret (Some record)
        | None =>
            print (RecordNonNumericAge (record_id record) (v_age record)) ;;
            ret None
        end
      else ret (Some record)
  end.

Definition parse_record (fs : filesystem) (record_id ocr_dir : str)
    : M (option voter_record) :=
  serial_file <- read_file fs (region_file ocr_dir record_id "_serial.txt") ;;
  let serial_text := from_option strip [] serial_file in
  epic_file <- read_file fs (region_file ocr_dir record_id "_epic.txt") ;;
  let epic_text := from_option strip [] epic_file in
  text_file <- read_file fs (region_file ocr_dir record_id "_text.txt") ;;
  let hindi_text := default [] text_file in
  let record :=
    {| record_id := record_id;
       v_serial := extract_field RECORD_SERIAL serial_text;
       v_epic := extract_field RECORD_EPIC epic_text;
       v_name := extract_field (PATTERNS name) hindi_text;
       v_relation := extract_field (PATTERNS relation) hindi_text;
       v_house_no := extract_field (PATTERNS house_no) hindi_text;
       v_age := extract_field (PATTERNS age) hindi_text;
       v_gender := extract_field (PATTERNS gender) hindi_text;
       v_raw_text_length := len hindi_text;
       page_id := None |} in
  validate_record record.

(** The status of a record as [process_page] reads it. *)
Definition read_status (fs : filesystem) (status_file : str) : M str :=
  content <- read_file fs status_file ;;
  ret (from_option strip (utf8 "UNKNOWN") content).

(** One iteration of the loop of [process_page]. *)
Definition process_status_file (fs : filesystem) (ocr_dir page_id : str)
    (records : list voter_record) (status_file : str) : M (list voter_record) :=
  update_stats incr_total ;;
  let record_id := replace (utf8 ".status") [] (basename status_file) in
  status <- read_status fs status_file ;;
  if negb (str_eqb status (utf8 "VALID")) then
    update_stats incr_skipped ;;
    ret records
  else
    record <- parse_record fs record_id ocr_dir ;;
    match record with
    | Some record =>
        update_stats incr_valid ;;
        ret (records ++ [set_page_id page_id record])
    | None =>
        update_stats incr_invalid ;;
        ret records
    end.

Definition status_files (fs : filesystem) (ocr_dir : str) : list str :=
  sorted (fs_glob fs (path_join ocr_dir (utf8 "record_*.status"))).

Definition process_page (fs : filesystem) (ocr_dir page_id : str)
    : M (list voter_record) :=
  let status_files := status_files fs ocr_dir in
  print (ProcessingPage page_id (Z.of_nat (length status_files))) ;;
  for_each status_files (process_status_file fs ocr_dir page_id) [].

Definition fieldnames : list str :=
  List.map utf8 ["page_id"; "record_id"; "serial"; "epic"; "name";
                 "relation"; "house_no"; "age"; "gender"; "raw_text_length"]%string.

(** [str(n)] *)
Definition str_of_int (n : Z) : str :=
  if n <? 0 then 45%N :: decimal (Z.abs_N n) else decimal (Z.abs_N n).

(** The cells of one record in the order of [fieldnames]. *)
Definition csv_row (record : voter_record) : list str :=
  [default [] (page_id record); record_id record; v_serial record; v_epic record;
   v_name record; v_relation record; v_house_no record; v_age record;
   v_gender record; str_of_int (v_raw_text_length record)].

(** [page_dirs] *)
Definition page_dirs (fs : filesystem) (ocr_base : str) : list str :=
  sorted (List.filter (fun d => fs_isdir fs (path_join ocr_base d))
                      (fs_listdir fs ocr_base)).

(** The loop of [process_directory] over the page directories; it
    carries [all_records]. *)
Definition process_page_dirs (fs : filesystem) (ocr_base : str) (page_dirs : list str)
    : M (list voter_record) :=
  for_each page_dirs
    (fun all_records page_id =>
       page_records <- process_page fs (path_join ocr_base page_id) page_id ;;
       let all_records := all_records ++ page_records in
       (if Z.of_nat (length all_records) mod 100 =? 0
        then print (ProcessedSoFar (Z.of_nat (length all_records)))
        else ret tt) ;;
       ret all_records)
    [].

Definition process_directory (fs : filesystem) (input_dir output_csv : str) : M unit :=
  let ocr_base := path_join input_dir (utf8 "ocr") in
  if negb (fs_exists fs ocr_base) then
    print (DirectoryNotFound ocr_base)
  else
    let page_dirs := page_dirs fs ocr_base in
    print (FoundPages (Z.of_nat (length page_dirs))) ;;
    all_records <- process_page_dirs fs ocr_base page_dirs ;;
    match all_records with
    | _ :: _ =>
        write_csv output_csv (fieldnames :: List.map csv_row all_records) ;;
        print (WroteRecords (Z.of_nat (length all_records)) output_csv)
    | [] => print NoValidRecords
    end ;;
    s <- get_stats ;;
    print (Statistics s) ;;
    if total_tiles s >? 0
    then print (SuccessRate (valid_records s) (total_tiles s))
    else ret tt.

End parse_ocr.

(** ** What both page scripts share *)

(** Images are kept as the history of [PIL] operations that produced them:
    no property depends on pixel values, only on sizes and on which sub-image
    is handed to the recognition engine. *)
Inductive image :=
| Opened (path : str) (width height : Z) (grayscale : bool)
                                  (* Image.open(path); grayscale: mode == 'L' *)
| Convert_L (img : image)         (* img.convert('L') *)
| Crop (box : Z * Z * Z * Z) (img : image)   (* img.crop((left, upper, right, lower)) *)
| Contrast (img : image)          (* ImageEnhance.Contrast(img).enhance(1.2) *)
| Sharpen (img : image).          (* img.filter(ImageFilter.SHARPEN) *)

Fixpoint image_width (img : image) : Z :=
  match img with
  | Opened _ w _ _ => w
  | Crop (x0, _, x1, _) _ => x1 - x0
  | Convert_L i | Contrast i | Sharpen i => image_width i
  end.

Fixpoint image_height (img : image) : Z :=
  match img with
  | Opened _ _ h _ => h
  | Crop (_, y0, _, y1) _ => y1 - y0
  | Convert_L i | Contrast i | Sharpen i => image_height i
  end.

Fixpoint mode_is_L (img : image) : bool :=
  match img with
  | Opened _ _ _ g => g
  | Convert_L _ => true
  | Crop _ i | Contrast i | Sharpen i => mode_is_L i
  end.

(** The three sub-regions of a tile. *)
Inductive region := Serial | Epic | Text.

#[global] Instance region_eq_dec : EqDecision region.
Proof. solve_decision. Defined.

#[global] Instance region_countable : Countable region.
Proof.
  refine (inj_countable'
            (fun r => match r with Serial => 0%nat | Epic => 1%nat | Text => 2%nat end)
            (fun n => match n with 0%nat => Serial | 1%nat => Epic | _ => Text end) _).
  intros []; reflexivity.
Defined.

(** [serial_box], [epic_box] and [text_box], relative to the tile. *)
Definition region_box (r : region) : Z * Z * Z * Z :=
  match r with
  | Serial => (0, 0, 150, 25)
  | Epic => (200, 0, 298, 25)
  | Text => (0, 25, 220, 115)
  end.

(** [record_box] *)
Definition record_box (t : tile) : Z * Z * Z * Z :=
  (tile_x t, tile_y t, tile_x t + RECORD_WIDTH, tile_y t + RECORD_HEIGHT).

(** How the engine is configured for one call. *)
Record profile := {
  lang : string;
  psm : Z;                        (* page segmentation mode *)
  oem : option Z;                 (* --oem, when given *)
  char_whitelist : option string  (* tessedit_char_whitelist, when set *)
}.

(** [pathlib.Path] on a POSIX system: a root and the components, without
    empty and [.] components. *)
Record Path := {
  path_root : str;
  path_parts : list str
}.

Fixpoint split_slash (s cur : str) : list str :=
  match s with
  | [] => [cur]
  | c :: s' =>
      if (c =? 47)%N then cur :: split_slash s' [] else split_slash s' (cur ++ [c])
  end.

(** [Path(p)] *)
Definition Path_of (p : str) : Path :=
  {| path_root :=
       match p with
       | 47%N :: 47%N :: 47%N :: _ => [47%N]
       | 47%N :: 47%N :: _ => [47%N; 47%N]
       | 47%N :: _ => [47%N]
       | _ => []
       end;
     path_parts :=
       List.filter (fun x => negb (str_eqb x [] || str_eqb x [46%N])) (split_slash p []) |}.

Fixpoint join_slash (parts : list str) : str :=
  match parts with
  | [] => []
  | [x] => x
  | x :: rest => x ++ 47%N :: join_slash rest
  end.

(** [str(path)] *)
Definition Path_str (path : Path) : str :=
  match path_root path, path_parts path with
  | [], [] => [46%N]
  | root, parts => root ++ join_slash parts
  end.

(** [path / segment] *)
Definition Path_join (path : Path) (segment : str) : Path :=
  match segment with
  | 47%N :: _ => Path_of segment
  | _ => {| path_root := path_root path;
            path_parts := path_parts path ++ path_parts (Path_of segment) |}
  end.

(** [path.name] *)
Definition Path_name (path : Path) : str := default [] (last (path_parts path)).

Fixpoint rfind_dot (s : str) (i : nat) (found : option nat) : option nat :=
  match s with
  | [] => found
  | c :: s' => rfind_dot s' (S i) (if (c =? 46)%N then Some i else found)
  end.

(** [path.stem]: the name without its last suffix. *)
Definition Path_stem (path : Path) : str :=
  let name := Path_name path in
  match rfind_dot name 0 None with
  | Some i => if (0 <? i)%nat && (i <? length name - 1)%nat then take i name else name
  | None => name
  end.

(** [Path(p).stem] *)
Definition path_stem (p : str) : str := Path_stem (Path_of p).

(** The dictionary both scripts build for a CSV row. *)
Record csv_record := {
  page : str;
  record_id : str;
  row : Z;
  col : Z;
  serial : str;
  epic : str;
  name : str;
  father : str;
  age : str;
  address : str;
  raw_text : str;
  valid : bool
}.

(** [csv_records[0].keys()]: the keys in the order of the dictionary
    literal. *)
Definition csv_keys : list str :=
  List.map utf8 ["page"; "record_id"; "row"; "col"; "serial"; "epic"; "name";
                 "father"; "age"; "address"; "raw_text"; "valid"]%string.

Definition str_of_bool (b : bool) : str := if b then utf8 "True" else utf8 "False".

(** The cells [DictWriter] writes for one record. *)
Definition csv_cells (r : csv_record) : list str :=
  [page r; record_id r; parse_ocr.str_of_int (row r); parse_ocr.str_of_int (col r);
   serial r; epic r; name r; father r; age r; address r; raw_text r;
   str_of_bool (valid r)].

(** What [parse_hindi_text] returns: a key is present only if its pattern
    matched. The function is the same in both scripts. *)
Record parsed_fields := {
  parsed_name : option str;
  parsed_father : option str;
  parsed_age : option str;
  parsed_address : option str
}.

Module hindi.
Import re.

Definition colon : item := In [Ch 58; Ch 65306].   (* [:：] *)

(** [(?:a|b).*?[:：]\s*(value)] *)
Definition labelled (a b : string) (value : regex) : regex :=
  seq_ [Alt (Lit (utf8 a)) (Lit (utf8 b)); lazy_star Dot; One colon;
        star (In [Space]); Group value].

Definition name_pattern : regex :=      (* (?:निर्वाचक|नाम).*?[:：]\s*([^
]+) *)
  labelled "निर्वाचक" "नाम" (plus (NotIn [Ch 10])).
Definition father_pattern : regex :=    (* (?:पिता|पति).*?[:：]\s*([^
]+) *)
  labelled "पिता" "पति" (plus (NotIn [Ch 10])).
Definition age_pattern : regex :=       (* (?:उम्र|आयु).*?[:：]\s*(\d+) *)
  labelled "उम्र" "आयु" (plus (In [Digit])).
Definition address_pattern : regex :=   (* (?:पता|ग्राम).*?[:：]\s*([^
]+) *)
  labelled "पता" "ग्राम" (plus (NotIn [Ch 10])).

(** [re.search(pattern, text, re.IGNORECASE)] and [match.group(1).strip()] *)
Definition find (pattern : regex) (text : str) : option str :=
  (fun m => strip (group m)) <$> search true pattern text.

Definition parse_hindi_text (text : str) : parsed_fields :=
  {| parsed_name := find name_pattern text;
     parsed_father := find father_pattern text;
     parsed_age := find age_pattern text;
     parsed_address := find address_pattern text |}.
End hindi.

(** The dictionary literal [csv_record] of both scripts, after
    [parsed = parse_hindi_text(text)]. *)
Definition make_csv_record (page_name record_id : str) (row col : Z)
    (serial epic text : str) (is_valid : bool) : csv_record :=
  let parsed := hindi.parse_hindi_text text in
  {| page := page_name;
     record_id := record_id;
     row := row;
     col := col;
     serial := serial;
     epic := epic;
     name := default [] (parsed_name parsed);
     father := default [] (parsed_father parsed);
     age := default [] (parsed_age parsed);
     address := default [] (parsed_address parsed);
     raw_text := text;
     valid := is_valid |}.

(** What running a script's [process_page] leaves behind: its return value
    ([None] when an exception leaves the function), the lines printed and the
    files written. *)
Record run (A M : Type) := {
  returned : option A;
  printed : list M;
  written : list (str * list (list str))
}.
Arguments returned {A M} _.
Arguments printed {A M} _.
Arguments written {A M} _.

(** The dictionary [process_page] returns. *)
Record summary := {
  summary_page : str;
  total_records : Z;
  summary_valid_records : Z;
  csv_file : str
}.

(** ** [scripts/ocr_page_fast.py] *)
Module ocr_page_fast.
Import hindi.

(** The machine the script runs on. [recognize] is one [SetImage] and
    [GetUTF8Text] on a configured engine (or one [image_to_string] of the
    fallback library); [None] stands for an exception. *)
Record environment := {
  open_image : str -> option image;
  engine_available : bool;      (* FastOCR() returns instead of raising *)
  recognize : profile -> image -> option str
}.

Definition serial_profile : profile :=
  {| lang := "eng"; psm := 7; oem := None; char_whitelist := Some "0123456789"%string |}.
Definition epic_profile : profile :=
  {| lang := "eng"; psm := 7; oem := None;
     char_whitelist := Some "ABCDEFGHIJKLMNOPQRSTUVWXYZ0123456789"%string |}.
Definition text_profile : profile :=
  {| lang := "hin+eng"; psm := 6; oem := None; char_whitelist := None |}.

Definition ocr_serial (env : environment) (img : image) : option str :=
  strip <$> recognize env serial_profile img.
Definition ocr_epic (env : environment) (img : image) : option str :=
  strip <$> recognize env epic_profile img.
Definition ocr_text (env : environment) (img : image) : option str :=
  strip <$> recognize env text_profile img.

Inductive message :=
| ProcessingPage (image_path : str)
| ErrorProcessingRecord (record_id : str)
| DebugRecord (record_id : str) (s e t : Z)
| Completed (valid_count total : Z) (output_csv : str).

(** The [try] block of one tile: the three crops and recognition calls in
    order; [None] when any of them raises. *)
Definition recognize_tile (env : environment) (record_img : image)
    : option (str * str * str) :=
  match ocr_serial env (Crop (region_box Serial) record_img) with
  | None => None
  | Some serial =>
      match ocr_epic env (Crop (region_box Epic) record_img) with
      | None => None
      | Some epic =>
          match ocr_text env (Crop (region_box Text) record_img) with
          | None => None
          | Some text => Some (serial, epic, text)
          end
      end
  end.

(** [is_valid] *)
Definition is_valid (epic text : str) : bool := (len epic >=? 6) || (len text >=? 20).

(** What the loop carries: [csv_records], [valid_count] and the output. *)
Definition loop_state : Type := list csv_record * Z * list message.

(** The texts one tile ends up with: those of the [try] block, or three
    empty strings when it raised. *)
Definition tile_texts (env : environment) (record_img : image) : str * str * str :=
  default ([], [], []) (recognize_tile env record_img).

(** The body of the loop for an in-bounds tile. *)
Definition process_tile (env : environment) (img : image) (image_path : str)
    (debug : bool) (t : tile) (acc : loop_state) : loop_state :=
  let '(csv_records, valid_count, out) := acc in
  let record_img := Crop (record_box t) img in
  let out :=
    match recognize_tile env record_img with
    | Some _ => out
    | None => out ++ [ErrorProcessingRecord (tile_record_id t)]
    end in
  let '(serial, epic, text) := tile_texts env record_img in
  let is_valid := is_valid epic text in
  let valid_count := if is_valid then valid_count + 1 else valid_count in
  let csv_record :=
    make_csv_record (path_stem image_path) (tile_record_id t) (tile_row t) (tile_col t)
                    serial epic text is_valid in
  let record_num := tile_row t * Z.of_nat GRID_COLS + tile_col t in
  (csv_records ++ [csv_record], valid_count,
   if debug && (record_num <? 3)
   then out ++ [DebugRecord (tile_record_id t) (len serial) (len epic) (len text)]
   else out).

(** The loop over the grid, from an opened page image. *)
Definition process_image (env : environment) (img0 : image) (image_path : str)
    (debug : bool) : loop_state :=
  let img := if mode_is_L img0 then img0 else Convert_L img0 in
  grid_loop (image_width img) (image_height img) (fun _ acc => acc)
    (process_tile env img image_path debug) ([], 0, []).

(** The rows written to [output_csv]: nothing at all for no record. *)
Definition csv_rows (csv_records : list csv_record) : list (list str) :=
  match csv_records with
  | [] => []
  | _ :: _ => csv_keys :: List.map csv_cells csv_records
  end.

Definition process_page (env : environment) (image_path output_csv : str) (debug : bool)
    : run summary message :=
  let out := [ProcessingPage image_path] in
  if negb (engine_available env) then
    {| returned := None; printed := out; written := [] |}
  else
    match open_image env image_path with
    | None => {| returned := None; printed := out; written := [] |}
    | Some img0 =>
        let '(csv_records, valid_count, lines) :=
          process_image env img0 image_path debug in
        {| returned :=
             Some {| summary_page := path_stem image_path;
                     total_records := Z.of_nat (length csv_records);
                     summary_valid_records := valid_count;
                     csv_file := output_csv |};
           printed := out ++ lines
                        ++ [Completed valid_count (Z.of_nat (length csv_records)) output_csv];
           written := [(output_csv, csv_rows csv_records)] |}
    end.

End ocr_page_fast.

(** ** [scripts/ocr_page_python.py] *)
Module ocr_page_python.
Import hindi.

(** How one [subprocess.run] of the engine ends. *)
Inductive process_outcome :=
| Raises                                  (* timeout, engine not found, ... *)
| Exits (returncode : Z) (output : option str).
                                          (* output: the text file it wrote, if readable *)

(** One entry of [ocr_tasks]. *)
Record task := {
  task_type : region;
  task_path : str;
  task_record_id : str
}.

(** What [ocr_region] returns. *)
Record ocr_result := {
  result_record_id : str;
  result_type : region;
  result_text : str;
  success : bool;
  error : bool                            (* the 'error' key is present *)
}.

(** The machine the script runs on. [as_completed] is the order in which
    the pool delivers the results of the submitted tasks; every task is taken
    to complete and to have its result delivered. *)
Record environment := {
  open_image : str -> option image;
  mkdtemp : str;
  save_ok : str -> bool;                  (* Image.save(path) returns instead of raising *)
  tesseract : profile -> option image -> process_outcome;
  as_completed : list ocr_result -> list ocr_result
}.

Inductive message :=
| ProcessingPage (image_path : str)
| WarningOutOfBounds (record_id : str)
| ErrorProcessingRecord (record_id : str)
| NoRecordsExtracted
| Extracted (count : Z)
| Completed (valid_count total : Z) (output_csv : str).

(** [record_data] *)
Record record_data := {
  rd_record_id : str;
  rd_row : Z;
  rd_col : Z;
  rd_x : Z;
  rd_y : Z;
  serial_path : str;
  epic_path : str;
  text_path : str;
  full_path : str
}.

(** [boxes_dir / f"record_{record_id}{suffix}.png"] *)
Definition box_path (boxes_dir : Path) (record_id : str) (suffix : string) : str :=
  Path_str (Path_join boxes_dir (utf8 "record_" ++ record_id ++ utf8 suffix ++ utf8 ".png")).

(** What the loop of [extract_record_regions] carries: [records], the image
    files saved so far, and the output. *)
Definition extraction : Type := list record_data * gmap str image * list message.

(** The body of the loop for an in-bounds tile. Each [save] may raise,
    which abandons the tile; what was saved before stays on disk. *)
Definition extract_tile (env : environment) (img : image) (boxes_dir : Path)
    (t : tile) (acc : extraction) : extraction :=
  let '(records, saved, out) := acc in
  let record_id := tile_record_id t in
  let failed (saved : gmap str image) : extraction :=
    (records, saved, out ++ [ErrorProcessingRecord record_id]) in
  let record_img := Crop (record_box t) img in
  let serial_img := Crop (region_box Serial) record_img in
  let serial_path := box_path boxes_dir record_id "_serial" in
  if negb (save_ok env serial_path) then failed saved else
  let saved := <[serial_path := serial_img]> saved in
  let epic_img := Crop (region_box Epic) record_img in
  let epic_path := box_path boxes_dir record_id "_epic" in
  if negb (save_ok env epic_path) then failed saved else
  let saved := <[epic_path := epic_img]> saved in
  let text_img := Crop (region_box Text) record_img in
  let text_img := Sharpen (Contrast (Convert_L text_img)) in
  let text_path := box_path boxes_dir record_id "_text" in
  if negb (save_ok env text_path) then failed saved else
  let saved := <[text_path := text_img]> saved in
  let full_path := box_path boxes_dir record_id "" in
  if negb (save_ok env full_path) then failed saved else
  let saved := <[full_path := record_img]> saved in
  (records ++ [{| rd_record_id := record_id; rd_row := tile_row t; rd_col := tile_col t;
                  rd_x := tile_x t; rd_y := tile_y t;
                  serial_path := serial_path; epic_path := epic_path;
                  text_path := text_path; full_path := full_path |}],
   saved, out).

(** [extract_record_regions] from an opened page image. *)
Definition extract_record_regions (env : environment) (img : image)
    (image_path output_dir : str) : extraction :=
  let image_name := path_stem image_path in
  let boxes_dir := Path_join (Path_join (Path_of output_dir) (utf8 "boxes")) image_name in
  grid_loop (image_width img) (image_height img)
    (fun t acc =>
       let '(records, saved, out) := acc in
       (records, saved, out ++ [WarningOutOfBounds (tile_record_id t)]))
    (extract_tile env img boxes_dir)
    ([], ∅, []).

(** The command line [ocr_region] builds for each kind of region. *)
Definition region_profile (r : region) : profile :=
  match r with
  | Serial =>
      {| lang := "eng"; psm := 8; oem := Some 1;
         char_whitelist := Some "0123456789"%string |}
  | Epic =>
      {| lang := "eng"; psm := 8; oem := Some 1;
         char_whitelist := Some "ABCDEFGHIJKLMNOPQRSTUVWXYZ0123456789"%string |}
  | Text =>
      {| lang := "hin+eng"; psm := 6; oem := Some 1; char_whitelist := None |}
  end.

Definition ocr_region (env : environment) (saved : gmap str image) (region_data : task)
    : ocr_result :=
  match tesseract env (region_profile (task_type region_data))
                  (saved !! task_path region_data) with
  | Exits returncode output =>
      {| result_record_id := task_record_id region_data;
         result_type := task_type region_data;
         result_text := from_option strip [] output;
         success := returncode =? 0;
         error := false |}
  | Raises =>
      {| result_record_id := task_record_id region_data;
         result_type := task_type region_data;
         result_text := [];
         success := false;
         error := true |}
  end.

(** The three tasks of one record. *)
Definition record_tasks (record : record_data) : list task :=
  [ {| task_type := Serial; task_path := serial_path record;
       task_record_id := rd_record_id record |};
    {| task_type := Epic; task_path := epic_path record;
       task_record_id := rd_record_id record |};
    {| task_type := Text; task_path := text_path record;
       task_record_id := rd_record_id record |} ].

(** One step of the loop over completed futures: [ocr_results] is a
    dictionary of dictionaries. *)
Definition collect (ocr_results : gmap str (gmap region str)) (result : ocr_result)
    : gmap str (gmap region str) :=
  let inner := default ∅ (ocr_results !! result_record_id result) in
  <[result_record_id result := <[result_type result := result_text result]> inner]>
    ocr_results.

(** [ocr_results.get(record_id, {}).get(kind, '').strip()] *)
Definition lookup_text (ocr_results : gmap str (gmap region str)) (record_id : str)
    (kind : region) : str :=
  strip (default [] (default ∅ (ocr_results !! record_id) !! kind)).

(** [is_valid] *)
Definition is_valid (serial epic text : str) : bool :=
  (len serial >=? 1) && (len epic >=? 6) && (len text >=? 20).

(** One iteration of the loop that builds [csv_records]. *)
Definition record_csv (image_path : str) (ocr_results : gmap str (gmap region str))
    (record : record_data) : csv_record :=
  let record_id := rd_record_id record in
  let serial := lookup_text ocr_results record_id Serial in
  let epic := lookup_text ocr_results record_id Epic in
  let text := lookup_text ocr_results record_id Text in
  make_csv_record (path_stem image_path) record_id (rd_row record) (rd_col record)
                  serial epic text (is_valid serial epic text).

Definition csv_rows (csv_records : list csv_record) : list (list str) :=
  match csv_records with
  | [] => []
  | _ :: _ => csv_keys :: List.map csv_cells csv_records
  end.

(** [os.path.dirname(p)] is empty exactly when [p] has no slash; then
    [os.makedirs] raises. *)
Definition has_dirname (p : str) : bool := existsb (fun c => (c =? 47)%N) p.

(** The records the script builds from an opened page image. *)
Definition page_records (env : environment) (img : image) (image_path : str)
    : list record_data * list csv_record * list message :=
  let '(records, saved, out) := extract_record_regions env img image_path (mkdtemp env) in
  let ocr_tasks := flat_map record_tasks records in
  let completed := as_completed env (List.map (ocr_region env saved) ocr_tasks) in
  let ocr_results := fold_left collect completed ∅ in
  (records, List.map (record_csv image_path ocr_results) records, out).

Definition process_page (env : environment) (image_path output_csv : str)
    : run (option summary) message :=
  let out := [ProcessingPage image_path] in
  match open_image env image_path with
  | None => {| returned := None; printed := out; written := [] |}
  | Some img =>
      let '(records, csv_records, lines) := page_records env img image_path in
      let out := out ++ lines in
      match records with
      | [] => {| returned := Some None; printed := out ++ [NoRecordsExtracted];
                 written := [] |}
      | _ :: _ =>
          let out := out ++ [Extracted (Z.of_nat (length records))] in
          let valid_count := Z.of_nat (length (List.filter valid csv_records)) in
          if negb (has_dirname output_csv) then
            {| returned := None; printed := out; written := [] |}
          else
            {| returned :=
                 Some (Some {| summary_page := path_stem image_path;
                               total_records := Z.of_nat (length records);
                               summary_valid_records := valid_count;
                               csv_file := output_csv |});
               printed := out ++ [Completed valid_count (Z.of_nat (length records)) output_csv];
               written := [(output_csv, csv_rows csv_records)] |}
      end
  end.

End ocr_page_python.

(** * Properties *)

(** ** Grid segmentation *)

(** The full grid in row-major order, and the two-digit identifier of the
    [n]-th position, written as a specification to compare the loop with. *)
Definition grid : list tile :=
  flat_map (fun r => List.map (fun c => tile_at r c) (range GRID_COLS)) (range GRID_ROWS).

Definition two_digits (n : nat) : str :=
  [N.of_nat (48 + n / 10); N.of_nat (48 + n mod 10)].

(** The rectangles of two tiles do not overlap. *)
Definition rect_disjoint (a b : tile) : Prop :=
  tile_x a + RECORD_WIDTH <= tile_x b \/ tile_x b + RECORD_WIDTH <= tile_x a \/
  tile_y a + RECORD_HEIGHT <= tile_y b \/ tile_y b + RECORD_HEIGHT <= tile_y a.

Definition rect_disjointb (a b : tile) : bool :=
  (tile_x a + RECORD_WIDTH <=? tile_x b) || (tile_x b + RECORD_WIDTH <=? tile_x a) ||
  (tile_y a + RECORD_HEIGHT <=? tile_y b) || (tile_y b + RECORD_HEIGHT <=? tile_y a).

Section Grid.
Variables width height : Z.

Lemma fold_left_flat_map {A B C} (f : A -> C -> A) (g : B -> list C) (l : list B) (init : A) :
  fold_left f (flat_map g l) init = fold_left (fun acc x => fold_left f (g x) acc) l init.
Proof.
  revert init. induction l as [|x l IH]; intros init; simpl; [reflexivity|].
  now rewrite fold_left_app, IH.
Qed.

Lemma fold_left_map {A B C} (f : A -> C -> A) (g : B -> C) (l : list B) (init : A) :
  fold_left f (List.map g l) init = fold_left (fun acc x => f acc (g x)) l init.
Proof.
  revert init. induction l as [|x l IH]; intros init; simpl; [reflexivity|]. apply IH.
Qed.

Lemma grid_loop_fold {A} (skipped body : tile -> A -> A) (init : A) :
  grid_loop width height skipped body init =
  fold_left (fun acc t => if out_of_bounds width height t then skipped t acc else body t acc)
            grid init.
Proof.
  unfold grid_loop, grid. rewrite fold_left_flat_map.
  generalize (range GRID_ROWS). intros rows. revert init.
  induction rows as [|r rows IH]; intros init; cbn [fold_left]; [reflexivity|].
  rewrite fold_left_map. apply IH.
Qed.

Lemma fold_keep_filter (l : list tile) (init : list tile) :
  fold_left (fun acc t => if out_of_bounds width height t then acc else acc ++ [t]) l init =
  init ++ List.filter (fun t => negb (out_of_bounds width height t)) l.
Proof.
  revert init. induction l as [|t l IH]; intros init; simpl.
  - now rewrite app_nil_r.
  - rewrite IH. destruct (out_of_bounds width height t); simpl; [reflexivity|].
    now rewrite <- app_assoc.
Qed.

Lemma segment_filter :
  segment width height = List.filter (fun t => negb (out_of_bounds width height t)) grid.
Proof. unfold segment. rewrite grid_loop_fold. apply fold_keep_filter. Qed.

Lemma out_of_bounds_spec (t : tile) :
  out_of_bounds width height t = true <->
  tile_x t + 298 > width \/ tile_y t + 121 > height.
Proof.
  unfold out_of_bounds, RECORD_WIDTH, RECORD_HEIGHT.
  rewrite orb_true_iff. rewrite !Z.gtb_gt. reflexivity.
Qed.
End Grid.

Lemma grid_within_footprint :
  Forall (fun t => tile_x t + 298 <= 926 /\ tile_y t + 121 <= 1297) grid.
Proof.
  apply List.Forall_forall. intros t Ht.
  assert (H : forallb (fun t => (tile_x t + 298 <=? 926) && (tile_y t + 121 <=? 1297))
                      grid = true) by (vm_compute; reflexivity).
  rewrite forallb_forall in H. specialize (H t Ht).
  apply andb_true_iff in H. destruct H as [H1 H2]. split; now apply Z.leb_le.
Qed.

Lemma segment_full (width height : Z) :
  926 <= width -> 1297 <= height -> segment width height = grid.
Proof.
  intros Hw Hh. rewrite segment_filter.
  pose proof grid_within_footprint as Hin.
  induction Hin as [|t l [Hx Hy] _ IH]; simpl; [reflexivity|].
  replace (out_of_bounds width height t) with false.
  - simpl. now rewrite IH.
  - symmetry. apply not_true_is_false. rewrite out_of_bounds_spec. lia.
Qed.

Lemma grid_disjoint (i j : nat) (a b : tile) :
  grid !! i = Some a -> grid !! j = Some b -> i <> j -> rect_disjoint a b.
Proof.
  intros Ha Hb Hij.
  assert (H : forallb (fun i => forallb (fun j =>
                (i =? j)%nat ||
                match grid !! i, grid !! j with
                | Some a, Some b => rect_disjointb a b
                | _, _ => false
                end) (seq 0 30)) (seq 0 30) = true) by (vm_compute; reflexivity).
  assert (Hi : (i < 30)%nat) by (apply lookup_lt_Some in Ha; exact Ha).
  assert (Hj : (j < 30)%nat) by (apply lookup_lt_Some in Hb; exact Hb).
  rewrite forallb_forall in H. specialize (H i).
  rewrite in_seq in H. specialize (H ltac:(lia)).
  rewrite forallb_forall in H. specialize (H j).
  rewrite in_seq in H. specialize (H ltac:(lia)).
  rewrite Ha, Hb in H. apply orb_true_iff in H. destruct H as [H|H].
  - apply Nat.eqb_eq in H. contradiction.
  - unfold rect_disjointb in H. unfold rect_disjoint.
    rewrite !orb_true_iff in H. rewrite !Z.leb_le in H. tauto.
Qed.

Lemma tile_at_spec (r c : nat) :
  (r < 10)%nat -> (c < 3)%nat ->
  let t := tile_at (Z.of_nat r) (Z.of_nat c) in
  tile_row t = Z.of_nat r /\ tile_col t = Z.of_nat c /\
  tile_x t = 22 + Z.of_nat c * (298 + 5) /\
  tile_y t = 42 + Z.of_nat r * (121 + 5) /\
  tile_record_id t = two_digits (r * 3 + c).
Proof.
  intros Hr Hc.
  do 10 (destruct r as [|r]; [do 3 (destruct c as [|c]; [vm_compute; repeat split|]); lia|]).
  lia.
Qed.

(** ** The decoupled parser: counters and status files *)

Section Parser.
Import parse_ocr.

(** The counters add up. *)
Definition balanced (s : statistics) : Prop :=
  total_tiles s = valid_records s + invalid_records s + skipped_tiles s.

(** No counter went down from [s] to [s']. *)
Definition grew (s s' : statistics) : Prop :=
  total_tiles s <= total_tiles s' /\ valid_records s <= valid_records s' /\
  invalid_records s <= invalid_records s' /\ skipped_tiles s <= skipped_tiles s'.

(** [s'] is [s] with [total_tiles] and exactly one other counter one
    higher. *)
Definition counted_once (s s' : statistics) : Prop :=
  total_tiles s' = total_tiles s + 1 /\
  ((valid_records s' = valid_records s + 1 /\ invalid_records s' = invalid_records s /\
    skipped_tiles s' = skipped_tiles s) \/
   (valid_records s' = valid_records s /\ invalid_records s' = invalid_records s + 1 /\
    skipped_tiles s' = skipped_tiles s) \/
   (valid_records s' = valid_records s /\ invalid_records s' = invalid_records s /\
    skipped_tiles s' = skipped_tiles s + 1)).

(** The status of a record as the loop sees it, and whether it is the
    token [VALID]. *)
Definition status_of (fs : filesystem) (status_file : str) : str :=
  from_option strip (utf8 "UNKNOWN") (fs_read fs status_file).

Definition marked_valid (fs : filesystem) (status_file : str) : bool :=
  str_eqb (status_of fs status_file) (utf8 "VALID").

(** The record a status file stands for and its three text files. *)
Definition record_of (status_file : str) : str :=
  replace (utf8 ".status") [] (basename status_file).

Definition region_files (ocr_dir status_file : str) : list str :=
  [region_file ocr_dir (record_of status_file) "_serial.txt";
   region_file ocr_dir (record_of status_file) "_epic.txt";
   region_file ocr_dir (record_of status_file) "_text.txt"].

Variable fs : filesystem.

Lemma validate_record_world (record : voter_record) (w : world) :
  let w' := snd (validate_record record w) in
  stats w' = stats w /\ opened w' = opened w /\ written w' = written w.
Proof.
  unfold validate_record.
  destruct (List.filter _ _); [|cbn; auto].
  destruct (truthy (v_age record)); [|cbn; auto].
  destruct (int (v_age record)) as [a|]; [|cbn; auto].
  destruct ((a <? 18) || (a >? 120)); cbn; auto.
Qed.

Lemma parse_record_world (record_id ocr_dir : str) (w : world) :
  let w' := snd (parse_record fs record_id ocr_dir w) in
  stats w' = stats w /\ written w' = written w /\
  opened w' = opened w ++ [region_file ocr_dir record_id "_serial.txt";
                           region_file ocr_dir record_id "_epic.txt";
                           region_file ocr_dir record_id "_text.txt"].
Proof.
  unfold parse_record, bind, read_file. cbv zeta.
  match goal with |- context [validate_record ?r ?w0] =>
    destruct (validate_record_world r w0) as (Hs & Ho & Hw) end.
  rewrite Hs, Ho, Hw. cbn. rewrite <- !app_assoc. auto.
Qed.

Lemma run_bind {A B} (m : M A) (f : A -> M B) (w : world) :
  bind m f w = f (fst (m w)) (snd (m w)).
Proof. unfold bind. destruct (m w); reflexivity. Qed.

Lemma run_read_status (status_file : str) (w : world) :
  read_status fs status_file w =
  (status_of fs status_file,
   {| stats := stats w; stdout := stdout w;
      opened := opened w ++ [status_file]; written := written w |}).
Proof. reflexivity. Qed.

(** What one iteration does to the world, by the status it reads. *)
Lemma process_status_file_skip (ocr_dir page_id : str) (records : list voter_record)
    (status_file : str) (w : world) :
  marked_valid fs status_file = false ->
  process_status_file fs ocr_dir page_id records status_file w =
  (records, {| stats := incr_skipped (incr_total (stats w)); stdout := stdout w;
               opened := opened w ++ [status_file]; written := written w |}).
Proof.
  intros H. unfold process_status_file.
  rewrite run_bind. cbv beta. rewrite run_bind, run_read_status. cbn [fst snd].
  fold (marked_valid fs status_file). rewrite H. reflexivity.
Qed.

Lemma process_status_file_parse (ocr_dir page_id : str) (records : list voter_record)
    (status_file : str) (w : world) :
  marked_valid fs status_file = true ->
  let w0 := {| stats := incr_total (stats w); stdout := stdout w;
               opened := opened w ++ [status_file]; written := written w |} in
  let '(parsed, w1) := parse_record fs (record_of status_file) ocr_dir w0 in
  let '(records', w') := process_status_file fs ocr_dir page_id records status_file w in
  opened w' = opened w1 /\ written w' = written w1 /\ stdout w' = stdout w1 /\
  match parsed with
  | Some record =>
      records' = records ++ [set_page_id page_id record] /\
      stats w' = incr_valid (stats w1)
  | None => records' = records /\ stats w' = incr_invalid (stats w1)
  end.
Proof.
  intros H w0. unfold process_status_file.
  rewrite run_bind. cbv beta. rewrite run_bind, run_read_status. cbn [fst snd].
  fold (marked_valid fs status_file). rewrite H. cbn [negb].
  rewrite run_bind. fold (record_of status_file).
  change (snd (update_stats incr_total w)) with
    {| stats := incr_total (stats w); stdout := stdout w;
       opened := opened w; written := written w |}.
  cbn [stats stdout opened written]. fold w0.
  destruct (parse_record fs (record_of status_file) ocr_dir w0) as [[record|] w1];
    cbn [fst snd]; repeat split; reflexivity.
Qed.

Lemma process_status_file_counts (ocr_dir page_id : str) (records : list voter_record)
    (status_file : str) (w : world) :
  let w' := snd (process_status_file fs ocr_dir page_id records status_file w) in
  counted_once (stats w) (stats w') /\
  (skipped_tiles (stats w') =
   skipped_tiles (stats w) + (if marked_valid fs status_file then 0 else 1)) /\
  (marked_valid fs status_file = false ->
   invalid_records (stats w') = invalid_records (stats w) /\
   valid_records (stats w') = valid_records (stats w)) /\
  written w' = written w /\
  opened w' = opened w ++ status_file ::
                (if marked_valid fs status_file then region_files ocr_dir status_file else []).
Proof.
  destruct (marked_valid fs status_file) eqn:E.
  - pose proof (process_status_file_parse ocr_dir page_id records status_file w E) as H.
    cbv zeta in H.
    match type of H with context [parse_record fs ?i ?d ?w0] =>
      pose proof (parse_record_world i d w0) as Hw;
      destruct (parse_record fs i d w0) as [parsed w1] end.
    destruct (process_status_file fs ocr_dir page_id records status_file w) as [records' w'].
    cbn in Hw |- *. destruct Hw as (Hs & Hwr & Ho). destruct H as (Ho' & Hwr' & _ & H).
    assert (Hst : stats w' = incr_valid (stats w1) \/ stats w' = incr_invalid (stats w1))
      by (destruct parsed; tauto).
    rewrite Ho', Ho, Hwr', Hwr, <- app_assoc. unfold counted_once.
    destruct Hst as [-> | ->]; rewrite Hs; cbn;
      (split; [split; [reflexivity|]; auto 6 |]);
      (split; [lia|]); (split; [discriminate|]); auto.
  - rewrite (process_status_file_skip _ _ _ _ _ E). cbn. unfold counted_once. cbn.
    split; [split; [reflexivity|]; auto 6 |].
    split; [reflexivity|]. split; [auto|]. auto.
Qed.
Lemma counted_once_grew (s s' : statistics) : counted_once s s' -> grew s s'.
Proof. unfold counted_once, grew. lia. Qed.

Lemma counted_once_balanced (s s' : statistics) :
  counted_once s s' -> balanced s -> balanced s'.
Proof. unfold counted_once, balanced. lia. Qed.

Lemma grew_trans (s1 s2 s3 : statistics) : grew s1 s2 -> grew s2 s3 -> grew s1 s3.
Proof. unfold grew. lia. Qed.

(** The status files of a page that are not marked valid, and those that
    are. *)
Definition not_marked (files : list str) : list str :=
  List.filter (fun f => negb (marked_valid fs f)) files.
Definition marked (files : list str) : list str :=
  List.filter (marked_valid fs) files.

(** The files the loop opens for a list of status files. *)
Definition files_opened (ocr_dir : str) (files : list str) : list str :=
  flat_map (fun f => f :: (if marked_valid fs f then region_files ocr_dir f else []))
           files.

Lemma loop_world (ocr_dir page_id : str) (files : list str) :
  forall (records : list voter_record) (w : world),
    let w' := snd (for_each files (process_status_file fs ocr_dir page_id) records w) in
    opened w' = opened w ++ files_opened ocr_dir files /\
    written w' = written w /\
    total_tiles (stats w') = total_tiles (stats w) + Z.of_nat (length files) /\
    skipped_tiles (stats w') =
      skipped_tiles (stats w) + Z.of_nat (length (not_marked files)) /\
    valid_records (stats w') + invalid_records (stats w') =
      valid_records (stats w) + invalid_records (stats w)
      + Z.of_nat (length (marked files)) /\
    grew (stats w) (stats w') /\
    (balanced (stats w) -> balanced (stats w')).
Proof.
  induction files as [|f files IH]; intros records w.
  - cbn [for_each]. unfold ret. cbn [snd files_opened flat_map not_marked marked
                                      List.filter length].
    rewrite app_nil_r. unfold grew. repeat split; try lia; auto.
  - cbn [for_each]. rewrite run_bind.
    pose proof (process_status_file_counts ocr_dir page_id records f w) as Hstep.
    cbv zeta in Hstep.
    set (step := process_status_file fs ocr_dir page_id records f w) in *.
    destruct Hstep as (Honce & Hskip & _ & Hwr & Hop).
    specialize (IH (fst step) (snd step)). cbv zeta in IH.
    destruct IH as (IHop & IHwr & IHtot & IHskip & IHvi & IHgrew & IHbal).
    unfold files_opened, not_marked, marked in *.
    cbn [flat_map List.filter].
    rewrite IHop, IHwr, IHtot, IHskip, IHvi, Hop, Hwr, Hskip.
    pose proof (counted_once_grew _ _ Honce) as Hgrew.
    assert (Hlen : Z.of_nat (length (f :: files)) = 1 + Z.of_nat (length files))
      by (cbn [length]; lia).
    rewrite Hlen. unfold counted_once in Honce.
    destruct (marked_valid fs f); cbn [negb length app];
      (split; [now rewrite <- app_assoc|]); (split; [reflexivity|]);
      (split; [lia|]); (split; [lia|]); (split; [lia|]);
      (split; [eapply grew_trans; eassumption|]);
      intros Hb; apply IHbal; eapply counted_once_balanced; eauto;
      unfold counted_once; exact Honce.
Qed.

Lemma process_page_world (ocr_dir page_id : str) (w : world) :
  let files := status_files fs ocr_dir in
  let w' := snd (process_page fs ocr_dir page_id w) in
  opened w' = opened w ++ files_opened ocr_dir files /\
  written w' = written w /\
  total_tiles (stats w') = total_tiles (stats w) + Z.of_nat (length files) /\
  skipped_tiles (stats w') =
    skipped_tiles (stats w) + Z.of_nat (length (not_marked files)) /\
  valid_records (stats w') + invalid_records (stats w') =
    valid_records (stats w) + invalid_records (stats w)
    + Z.of_nat (length (marked files)) /\
  grew (stats w) (stats w') /\
  (balanced (stats w) -> balanced (stats w')).
Proof.
  intros files w'. unfold w', process_page. rewrite run_bind.
  fold files. cbv beta.
  set (line := ProcessingPage page_id (Z.of_nat (length files))).
  pose proof (loop_world ocr_dir page_id files [] (snd (print line w))) as H.
  cbv zeta in H.
  change (snd (print line w)) with
    {| stats := stats w; stdout := stdout w ++ [line];
       opened := opened w; written := written w |} in H.
  cbn [stats opened written] in H. exact H.
Qed.
End Parser.

(** Any sequence of [process_page] calls on one parser; the file system may
    differ from call to call. *)
Fixpoint process_pages (calls : list (filesystem * str * str)) : parse_ocr.M unit :=
  match calls with
  | [] => parse_ocr.ret tt
  | (fs, ocr_dir, page_id) :: calls' =>
      parse_ocr.bind (parse_ocr.process_page fs ocr_dir page_id)
                     (fun _ => process_pages calls')
  end.

Lemma process_pages_stats (calls : list (filesystem * str * str)) (w : parse_ocr.world) :
  let w' := snd (process_pages calls w) in
  grew (parse_ocr.stats w) (parse_ocr.stats w') /\
  (balanced (parse_ocr.stats w) -> balanced (parse_ocr.stats w')).
Proof.
  revert w. induction calls as [|[[fs ocr_dir] page_id] calls IH]; intros w.
  - cbn [process_pages]. unfold parse_ocr.ret. cbn [snd]. unfold grew. split; [lia|auto].
  - cbn [process_pages]. rewrite run_bind.
    destruct (process_page_world fs ocr_dir page_id w) as (_ & _ & _ & _ & _ & Hg & Hb).
    set (w1 := snd (parse_ocr.process_page fs ocr_dir page_id w)) in *.
    destruct (IH w1) as (IHg & IHb).
    split; [eapply grew_trans; eassumption | auto].
Qed.

(** C10. Starting from the counters of a new parser, after any sequence of
    [process_page] calls total_tiles = valid_records + invalid_records +
    skipped_tiles; every status file met raises total_tiles and exactly one of
    the three other counters by one, and no counter ever goes down. *)
Theorem C10_counters_add_up (calls : list (filesystem * str * str)) (w : parse_ocr.world) :
  parse_ocr.stats w = parse_ocr.init_stats ->
  let w' := snd (process_pages calls w) in
  balanced (parse_ocr.stats w') /\
  grew (parse_ocr.stats w) (parse_ocr.stats w') /\
  (forall fs ocr_dir page_id records status_file w0,
     counted_once (parse_ocr.stats w0)
       (parse_ocr.stats
          (snd (parse_ocr.process_status_file fs ocr_dir page_id records status_file w0)))) /\
  (forall fs ocr_dir page_id w0,
     grew (parse_ocr.stats w0)
          (parse_ocr.stats (snd (parse_ocr.process_page fs ocr_dir page_id w0)))).
Proof.
  intros Hinit w'. destruct (process_pages_stats calls w) as (Hg & Hb).
  split; [|split; [exact Hg|split]].
  - apply Hb. rewrite Hinit. reflexivity.
  - intros fs ocr_dir page_id records status_file w0.
    apply (process_status_file_counts fs ocr_dir page_id records status_file w0).
  - intros fs ocr_dir page_id w0.
    apply (process_page_world fs ocr_dir page_id w0).
Qed.

(** C6. In [process_page] of the decoupled parser a record is parsed (its
    three text files are opened) exactly when its status file can be read and
    holds the token VALID (surrounding whitespace aside); any other status, or
    an unreadable status file, adds one to skipped_tiles, leaves
    invalid_records and valid_records alone, adds no record and opens none
    of the record's text files. *)
Theorem C6_status_decides_parsing (fs : filesystem) (ocr_dir page_id : str)
    (w : parse_ocr.world) :
  let files := parse_ocr.status_files fs ocr_dir in
  let w' := snd (parse_ocr.process_page fs ocr_dir page_id w) in
  (forall f, marked_valid fs f = true <->
             exists content, fs_read fs f = Some content /\ strip content = utf8 "VALID") /\
  (forall records f w0,
     let step := parse_ocr.process_status_file fs ocr_dir page_id records f w0 in
     (marked_valid fs f = true ->
      parse_ocr.opened (snd step) = parse_ocr.opened w0 ++ f :: region_files ocr_dir f /\
      parse_ocr.skipped_tiles (parse_ocr.stats (snd step)) =
        parse_ocr.skipped_tiles (parse_ocr.stats w0)) /\
     (marked_valid fs f = false ->
      fst step = records /\
      parse_ocr.opened (snd step) = parse_ocr.opened w0 ++ [f] /\
      parse_ocr.skipped_tiles (parse_ocr.stats (snd step)) =
        parse_ocr.skipped_tiles (parse_ocr.stats w0) + 1 /\
      parse_ocr.invalid_records (parse_ocr.stats (snd step)) =
        parse_ocr.invalid_records (parse_ocr.stats w0) /\
      parse_ocr.valid_records (parse_ocr.stats (snd step)) =
        parse_ocr.valid_records (parse_ocr.stats w0))) /\
  parse_ocr.opened w' = parse_ocr.opened w ++ files_opened fs ocr_dir files /\
  parse_ocr.skipped_tiles (parse_ocr.stats w') =
    parse_ocr.skipped_tiles (parse_ocr.stats w)
    + Z.of_nat (length (not_marked fs files)) /\
  parse_ocr.valid_records (parse_ocr.stats w') + parse_ocr.invalid_records (parse_ocr.stats w') =
    parse_ocr.valid_records (parse_ocr.stats w) + parse_ocr.invalid_records (parse_ocr.stats w)
    + Z.of_nat (length (marked fs files)).
Proof.
  intros files w'. split; [|split].
  - intros f. unfold marked_valid, status_of, str_eqb. rewrite bool_decide_eq_true.
    destruct (fs_read fs f) as [content|]; cbn [from_option].
    + split; [intros H; exists content; auto | intros (c & Hc & H); congruence].
    + split; [intros H; vm_compute in H; discriminate H | intros (c & Hc & _); discriminate Hc].
  - intros records f w0 step.
    pose proof (process_status_file_counts fs ocr_dir page_id records f w0) as H.
    cbv zeta in H. fold step in H. destruct H as (_ & Hskip & Hsame & _ & Hop).
    split; intros Hm; rewrite Hm in *.
    + split; [exact Hop | lia].
    + split; [|split; [exact Hop | split; [exact Hskip | apply Hsame; reflexivity]]].
      unfold step. now rewrite (process_status_file_skip fs ocr_dir page_id records f w0 Hm).
  - destruct (process_page_world fs ocr_dir page_id w) as (Hop & _ & _ & Hskip & Hvi & _).
    auto.
Qed.

(** A page directory with three status files: VALID for records 00 and 02,
    something else for 01; only record 00 has its text files. *)
Definition scenario_dir : str := utf8 "out/ocr/page1".

Definition scenario_text : str :=
  utf8 "निर्वाचक का नाम: राम कुमार" ++ [10%N] ++ utf8 "पिता का नाम: श्याम" ++ [10%N]
  ++ utf8 "मकान संख्या: 12" ++ [10%N] ++ utf8 "उम्र: 45" ++ [10%N] ++ utf8 "लिंग: पुरुष".

Definition scenario_fs : filesystem :=
  {| fs_read := fun p =>
       if str_eqb p (utf8 "out/ocr/page1/record_00.status") then Some (utf8 "VALID" ++ [10%N])
       else if str_eqb p (utf8 "out/ocr/page1/record_01.status") then Some (utf8 "INVALID")
       else if str_eqb p (utf8 "out/ocr/page1/record_02.status") then Some (utf8 "VALID")
       else if str_eqb p (utf8 "out/ocr/page1/record_00_serial.txt") then Some (utf8 "12" ++ [10%N])
       else if str_eqb p (utf8 "out/ocr/page1/record_00_epic.txt") then Some (utf8 "ABC1234567")
       else if str_eqb p (utf8 "out/ocr/page1/record_00_text.txt") then Some scenario_text
       else None;
     fs_glob := fun pattern =>
       if str_eqb pattern (utf8 "out/ocr/page1/record_*.status")
       then [utf8 "out/ocr/page1/record_02.status"; utf8 "out/ocr/page1/record_00.status";
             utf8 "out/ocr/page1/record_01.status"]
       else [];
     fs_exists := fun p => str_eqb p (utf8 "out/ocr");
     fs_listdir := fun p => if str_eqb p (utf8 "out/ocr") then [utf8 "page1"] else [];
     fs_isdir := fun p => str_eqb p (utf8 "out/ocr/page1") |}.

(** A parser that has just been created. *)
Definition new_world : parse_ocr.world :=
  {| parse_ocr.stats := parse_ocr.init_stats; parse_ocr.stdout := [];
     parse_ocr.opened := []; parse_ocr.written := [] |}.

Example scenario_page :
  let '(records, w) := parse_ocr.process_page scenario_fs scenario_dir (utf8 "page1") new_world in
  List.map parse_ocr.record_id records = [utf8 "record_00"] /\
  parse_ocr.stats w =
    {| parse_ocr.total_tiles := 3; parse_ocr.valid_records := 1;
       parse_ocr.invalid_records := 1; parse_ocr.skipped_tiles := 1 |} /\
  parse_ocr.opened w =
    List.map utf8
      ["out/ocr/page1/record_00.status"; "out/ocr/page1/record_00_serial.txt";
       "out/ocr/page1/record_00_epic.txt"; "out/ocr/page1/record_00_text.txt";
       "out/ocr/page1/record_01.status";
       "out/ocr/page1/record_02.status"; "out/ocr/page1/record_02_serial.txt";
       "out/ocr/page1/record_02_epic.txt"; "out/ocr/page1/record_02_text.txt"]%string.
Proof. vm_compute. repeat split. Qed.

Lemma C6_status_decides_parsing_witness :
  let f := utf8 "out/ocr/page1/record_01.status" in
  let step := parse_ocr.process_status_file scenario_fs scenario_dir (utf8 "page1") [] f new_world in
  fst step = [] /\
  parse_ocr.opened (snd step) = parse_ocr.opened new_world ++ [f] /\
  parse_ocr.skipped_tiles (parse_ocr.stats (snd step)) =
    parse_ocr.skipped_tiles (parse_ocr.stats new_world) + 1 /\
  parse_ocr.invalid_records (parse_ocr.stats (snd step)) =
    parse_ocr.invalid_records (parse_ocr.stats new_world) /\
  parse_ocr.valid_records (parse_ocr.stats (snd step)) =
    parse_ocr.valid_records (parse_ocr.stats new_world).
Proof.
  intros f step.
  destruct (C6_status_decides_parsing scenario_fs scenario_dir (utf8 "page1") new_world)
    as (_ & H & _).
  destruct (H [] f new_world) as (_ & Hskip).
  apply Hskip. vm_compute. reflexivity.
Defined.

Lemma C10_counters_add_up_witness :
  balanced (parse_ocr.stats
              (snd (process_pages [(scenario_fs, scenario_dir, utf8 "page1");
                                   (scenario_fs, scenario_dir, utf8 "page1")] new_world))).
Proof.
  refine (proj1 (C10_counters_add_up _ new_world _)). reflexivity.
Defined.

(** ** Stripping *)

Section Strip.

Lemma lstrip_suffix (s : str) :
  exists p, s = p ++ lstrip s /\ forallb isspace p = true.
Proof.
  induction s as [|c s (p & Hp & Hsp)]; cbn [lstrip].
  - exists []. split; reflexivity.
  - destruct (isspace c) eqn:E.
    + exists (c :: p). cbn [forallb app]. rewrite E, Hsp. split; [congruence | reflexivity].
    + exists []. split; reflexivity.
Qed.

Lemma lstrip_head (s : str) (c : codepoint) :
  head (lstrip s) = Some c -> isspace c = false.
Proof.
  induction s as [|x s IH]; cbn [lstrip]; [discriminate|].
  destruct (isspace x) eqn:E; [exact IH|].
  cbn [head]. intros [= <-]. exact E.
Qed.

Lemma lstrip_id (s : str) :
  (forall c, head s = Some c -> isspace c = false) -> lstrip s = s.
Proof.
  destruct s as [|x s]; [reflexivity|]. intros H. cbn [lstrip].
  now rewrite (H x eq_refl).
Qed.

Lemma head_rev (s : str) : head (rev s) = last s.
Proof. rewrite rev_alt. apply head_reverse. Qed.

Lemma rstrip_prefix (s : str) :
  exists q, s = rstrip s ++ q /\ forallb isspace q = true.
Proof.
  unfold rstrip. destruct (lstrip_suffix (rev s)) as (p & Hp & Hsp).
  exists (rev p). split.
  - rewrite <- (rev_involutive s), Hp at 1. now rewrite rev_app_distr.
  - rewrite forallb_forall in *. intros x Hx. apply Hsp. now apply in_rev.
Qed.

Lemma rstrip_last (s : str) (c : codepoint) :
  last (rstrip s) = Some c -> isspace c = false.
Proof.
  unfold rstrip. rewrite <- head_rev, rev_involutive. apply lstrip_head.
Qed.

Lemma rstrip_id (s : str) :
  (forall c, last s = Some c -> isspace c = false) -> rstrip s = s.
Proof.
  intros H. unfold rstrip. rewrite lstrip_id; [apply rev_involutive|].
  intros c. rewrite head_rev. apply H.
Qed.

Lemma strip_head (s : str) (c : codepoint) :
  head (strip s) = Some c -> isspace c = false.
Proof.
  unfold strip. destruct (rstrip_prefix (lstrip s)) as (q & Hq & _).
  destruct (rstrip (lstrip s)) as [|x r] eqn:E; [discriminate|].
  cbn [head]. intros [= <-]. apply (lstrip_head s). rewrite Hq. reflexivity.
Qed.

Lemma strip_last (s : str) (c : codepoint) :
  last (strip s) = Some c -> isspace c = false.
Proof. apply rstrip_last. Qed.

Lemma strip_fixed (s : str) :
  (forall c, head s = Some c -> isspace c = false) ->
  (forall c, last s = Some c -> isspace c = false) ->
  strip s = s.
Proof. intros Hh Hl. unfold strip. rewrite (lstrip_id s Hh). apply rstrip_id, Hl. Qed.

(** [s.strip().strip() == s.strip()] *)
Lemma strip_idempotent (s : str) : strip (strip s) = strip s.
Proof. apply strip_fixed; [apply strip_head | apply strip_last]. Qed.

Lemma strip_nil : strip [] = [].
Proof. reflexivity. Qed.
End Strip.

(** ** Validation in the decoupled parser *)

Arguments int : simpl never.
Arguments strip : simpl never.
Arguments utf8 : simpl never.
Arguments re.match_ : simpl never.
Arguments re.search : simpl never.
Arguments parse_ocr.extract_field : simpl never.
Arguments parse_ocr.clean_text : simpl never.

Section TileValidation.
Import parse_ocr.

(** The required fields that are empty in a record. *)
Definition tile_missing (strict_mode : bool) (record : tile_record) : list field :=
  List.filter (fun f => negb (truthy (tile_get record f)))
              (if strict_mode then PATTERNS_keys else REQUIRED_FIELDS).

(** The age text parses as an integer between 18 and 120. *)
Definition age_in_range (a : str) : bool :=
  match int a with
  | Some n => (18 <=? n) && (n <=? 120)
  | None => false
  end.

(** The EPIC check of the script. *)
Definition conforms (e : str) : bool :=
  bool_decide (is_Some (re.match_ false EPIC_FORMAT e)).

(** Everything [validate_tile] checks before it looks at the EPIC. *)
Definition passes_fields_and_age (strict_mode : bool) (record : tile_record) : bool :=
  bool_decide (tile_missing strict_mode record = [])
  && (negb (truthy (t_age record)) || age_in_range (t_age record)).

Definition malformed_epic (record : tile_record) : bool :=
  truthy (t_epic record) && negb (conforms (t_epic record)).

Lemma validate_tile_spec (strict_mode : bool) (record : tile_record) (w : world) :
  fst (validate_tile strict_mode record w) =
    (if passes_fields_and_age strict_mode record
        && negb (strict_mode && malformed_epic record)
     then Some record else None) /\
  (passes_fields_and_age strict_mode record = true ->
   stdout (snd (validate_tile strict_mode record w)) =
     stdout w ++ (if malformed_epic record
                  then [TileInvalidEpic (tile_id record) (t_epic record)] else [])).
Proof.
  unfold validate_tile, passes_fields_and_age, malformed_epic, tile_missing, age_in_range,
    conforms.
  destruct (List.filter _ _) as [|f missing] eqn:Hmissing.
  2: { rewrite run_bind. unfold ret. cbn [fst snd]. rewrite (bool_decide_eq_false_2 (f :: missing = [])) by discriminate.
       split; [reflexivity | discriminate]. }
  rewrite (bool_decide_eq_true_2 (@nil field = [])) by reflexivity. cbn [andb].
  assert (Hepic : forall w0 : world,
    let m := (if truthy (t_epic record)
                 && negb (bool_decide (is_Some (re.match_ false EPIC_FORMAT (t_epic record))))
              then bind (print (TileInvalidEpic (tile_id record) (t_epic record)))
                        (fun _ => if strict_mode then ret None else ret (Some record))
              else ret (Some record)) w0 in
    fst m = (if negb (strict_mode
                      && (truthy (t_epic record)
                          && negb (bool_decide
                               (is_Some (re.match_ false EPIC_FORMAT (t_epic record))))))
             then Some record else None) /\
    stdout (snd m) =
      stdout w0 ++ (if truthy (t_epic record)
                       && negb (bool_decide
                            (is_Some (re.match_ false EPIC_FORMAT (t_epic record))))
                    then [TileInvalidEpic (tile_id record) (t_epic record)] else [])).
  { intros w0.
    destruct (truthy (t_epic record)
              && negb (bool_decide (is_Some (re.match_ false EPIC_FORMAT (t_epic record))))).
    - cbv zeta. rewrite run_bind. unfold print. cbn [fst snd].
      destruct strict_mode; unfold ret; cbn [fst snd stdout andb negb]; auto.
    - cbv zeta. unfold ret. cbn [fst snd]. rewrite andb_false_r, app_nil_r. auto. }
  destruct (truthy (t_age record)); cbn [negb orb].
  - destruct (int (t_age record)) as [a|].
    + replace ((a <? 18) || (a >? 120)) with (negb ((18 <=? a) && (a <=? 120)))
        by (rewrite negb_andb, Z.gtb_ltb, <- !Z.ltb_antisym; reflexivity).
      destruct ((18 <=? a) && (a <=? 120)); cbn [negb andb].
      * destruct (Hepic w) as [H1 H2]. split; [exact H1 | intros _; exact H2].
      * rewrite run_bind. unfold ret. cbn [fst snd]. split; [reflexivity | discriminate].
    + rewrite run_bind. unfold ret. cbn [fst snd andb]. split; [reflexivity | discriminate].
  - cbn [andb]. destruct (Hepic w) as [H1 H2]. split; [exact H1 | intros _; exact H2].
Qed.
End TileValidation.

(** ** Repetition in the matcher *)

Section Repetition.
Import re.
Context {R : Type}.
Variables (ignorecase greedy : bool) (lo : nat) (hi : option nat) (a : item).

(** The count [m] is allowed by the upper bound. *)
Definition within (m : nat) : Prop :=
  match hi with
  | Some h => (m <= h)%nat
  | None => True
  end.

(** The character before the position reached after reading [s1]. *)
Definition last_or (prev : option codepoint) (s1 : str) : option codepoint :=
  match last s1 with
  | Some c => Some c
  | None => prev
  end.

Lemma last_or_cons (prev : option codepoint) (c : codepoint) (s1 : str) :
  last_or prev (c :: s1) = last_or (Some c) s1.
Proof.
  unfold last_or. destruct s1 as [|x s1]; [reflexivity|].
  rewrite last_cons. destruct (last (x :: s1)) eqn:E; [reflexivity|].
  now apply last_None in E.
Qed.

Lemma is_Some_or_else {A} (x y : option A) :
  is_Some (or_else x y) <-> is_Some x \/ is_Some y.
Proof.
  destruct x as [v|]; cbn.
  - split; [left; eauto | eauto].
  - split; [right; assumption | intros [H|H]; [destruct H; discriminate | exact H]].
Qed.

Lemma is_Some_guard {A} (b : bool) (x : option A) :
  is_Some (if b then x else None) <-> b = true /\ is_Some x.
Proof.
  destruct b; split; auto.
  - intros [_ H]. exact H.
  - intros H. now apply is_Some_None in H.
  - intros [H _]. discriminate H.
Qed.

Lemma below_within (n : nat) : below hi n = true <-> within (S n).
Proof.
  unfold below, within. destruct hi as [h|]; [|tauto].
  rewrite Nat.ltb_lt. lia.
Qed.

(** A repetition succeeds exactly when the subject splits into a run of
    matching characters of an allowed length and a rest on which the
    continuation succeeds. *)
Lemma repeat_item_succeeds (k : option codepoint -> str -> option R) :
  forall (s : str) (n : nat) (prev : option codepoint),
    is_Some (repeat_item ignorecase greedy lo hi a n prev s k) <->
    exists s1 s2,
      s = s1 ++ s2 /\ forallb (item_matches ignorecase a) s1 = true /\
      (lo <= n + length s1)%nat /\ (s1 = [] \/ within (n + length s1)) /\
      is_Some (k (last_or prev s1) s2).
Proof.
  induction s as [|c s IH]; intros n prev.
  - cbn [repeat_item].
    assert (H : is_Some (if greedy
                         then or_else None (if (lo <=? n)%nat then k prev [] else None)
                         else or_else (if (lo <=? n)%nat then k prev [] else None) None)
                <-> (lo <= n)%nat /\ is_Some (k prev [])).
    { rewrite <- Nat.leb_le, <- is_Some_guard.
      destruct greedy; rewrite is_Some_or_else; split; auto;
        intros [H'|H']; auto; now apply is_Some_None in H'. }
    rewrite H. split.
    + intros [Hlo Hk]. exists [], []. cbn [app forallb length last_or last].
      split; [reflexivity|]. split; [reflexivity|]. split; [lia|]. split; [now left|].
      exact Hk.
    + intros (s1 & s2 & Hs & _ & Hlo & _ & Hk).
      symmetry in Hs. apply app_eq_nil in Hs. destruct Hs as [-> ->].
      cbn in Hlo. split; [lia | exact Hk].
  - cbn [repeat_item].
    set (stop := if (lo <=? n)%nat then k prev (c :: s) else None).
    set (more := if item_matches ignorecase a c && below hi n
                 then repeat_item ignorecase greedy lo hi a (S n) (Some c) s k
                 else None).
    assert (H : is_Some (if greedy then or_else more stop else or_else stop more)
                <-> is_Some more \/ is_Some stop)
      by (destruct greedy; rewrite is_Some_or_else; tauto).
    rewrite H. clear H. split.
    + intros [Hmore | Hstop].
      * unfold more in Hmore. apply is_Some_guard in Hmore.
        destruct Hmore as [Hc Hmore]. apply andb_true_iff in Hc. destruct Hc as [Em Eb].
        apply IH in Hmore.
        destruct Hmore as (s1 & s2 & Hs & Hall & Hlo & Hhi & Hk).
        exists (c :: s1), s2. cbn [forallb length app]. rewrite Em, Hall, last_or_cons.
        split; [congruence|]. split; [reflexivity|]. split; [lia|]. split; [|exact Hk].
        right. destruct Hhi as [-> | Hhi].
        -- cbn [length]. rewrite Nat.add_1_r. now apply below_within.
        -- now rewrite Nat.add_succ_r.
      * unfold stop in Hstop. apply is_Some_guard in Hstop.
        destruct Hstop as [Hlo Hk]. apply Nat.leb_le in Hlo.
        exists [], (c :: s). cbn [app forallb length last_or last].
        split; [reflexivity|]. split; [reflexivity|]. split; [lia|]. split; [now left|].
        exact Hk.
    + intros (s1 & s2 & Hs & Hall & Hlo & Hhi & Hk).
      destruct s1 as [|x s1].
      * right. unfold stop. cbn in Hs, Hlo, Hk. subst s2.
        apply is_Some_guard. split; [apply Nat.leb_le; lia | exact Hk].
      * left. cbn [app] in Hs. injection Hs as <- ->.
        cbn [forallb] in Hall. apply andb_true_iff in Hall. destruct Hall as [Em Hall].
        destruct Hhi as [Hhi | Hhi]; [discriminate|].
        cbn [length] in Hlo, Hhi. rewrite Nat.add_succ_r in Hlo, Hhi.
        unfold more. rewrite Em. cbn [andb].
        assert (Eb : below hi n = true).
        { apply below_within. unfold within in *. destruct hi; [lia | exact I]. }
        rewrite Eb. cbn match. apply IH. exists s1, s2. rewrite last_or_cons in Hk.
        split; [reflexivity|]. split; [exact Hall|]. split; [exact Hlo|].
        split; [|exact Hk]. right. exact Hhi.
Qed.
End Repetition.

(** ** The EPIC format *)

Definition is_upper (c : codepoint) : bool := ((65 <=? c) && (c <=? 90))%N.
Definition is_digit (c : codepoint) : bool := ((48 <=? c) && (c <=? 57))%N.

(** Exactly three uppercase ASCII letters followed by six or seven ASCII
    digits. *)
Definition canonical_epic (e : str) : Prop :=
  exists letters digits,
    e = letters ++ digits /\
    length letters = 3%nat /\ forallb is_upper letters = true /\
    (length digits = 6%nat \/ length digits = 7%nat) /\ forallb is_digit digits = true.

Lemma forallb_pointwise {A} (f g : A -> bool) (l : list A) :
  (forall x, f x = g x) -> forallb f l = forallb g l.
Proof.
  intros H. induction l as [|x l IH]; cbn [forallb]; [reflexivity|].
  now rewrite H, IH.
Qed.

Lemma epic_format_matches (e : str) :
  conforms e = true <->
  exists letters digits tail,
    e = letters ++ digits ++ tail /\
    length letters = 3%nat /\ forallb is_upper letters = true /\
    (length digits = 6%nat \/ length digits = 7%nat) /\ forallb is_digit digits = true /\
    (tail = [] \/ tail = [10%N]).
Proof.
  unfold conforms. rewrite bool_decide_eq_true.
  unfold re.match_, re.match_here, parse_ocr.EPIC_FORMAT, re.seq_, re.counted.
  cbn [foldr re.run re.lit].
  assert (Hup : forall l, forallb (re.item_matches false parse_ocr.ascii_upper) l
                          = forallb is_upper l).
  { intros l. apply forallb_pointwise. intros c. cbn. apply orb_false_r. }
  assert (Hdg : forall l, forallb (re.item_matches false parse_ocr.ascii_digit) l
                          = forallb is_digit l).
  { intros l. apply forallb_pointwise. intros c. cbn. apply orb_false_r. }
  rewrite repeat_item_succeeds. split.
  - intros (letters & s2 & He & Hl & Hlo & Hhi & Hk).
    apply repeat_item_succeeds in Hk.
    destruct Hk as (digits & tail & Hs2 & Hd & Hdlo & Hdhi & Hk).
    exists letters, digits, tail. rewrite Hup in Hl. rewrite Hdg in Hd.
    split; [congruence|]. cbn [plus] in Hlo, Hhi, Hdlo, Hdhi. unfold within in Hhi, Hdhi.
    assert (length letters = 3%nat).
    { destruct Hhi as [-> | Hhi]; [cbn in Hlo; lia | lia]. }
    split; [assumption|]. split; [assumption|].
    split; [destruct Hdhi as [-> | Hdhi]; [cbn in Hdlo; lia | lia]|].
    split; [assumption|].
    clear - Hk. destruct Hk as [m Hk].
    destruct tail as [|x tail]; [now left|]. right.
    destruct x as [|p]; [discriminate Hk|].
    do 4 (destruct p as [p|p|]; try discriminate Hk).
    destruct tail; [reflexivity | discriminate Hk].
  - intros (letters & digits & tail & He & Hl3 & Hl & Hd67 & Hd & Ht).
    exists letters, (digits ++ tail). rewrite Hup.
    split; [exact He|]. split; [exact Hl|]. cbn [plus]. split; [lia|].
    split; [right; unfold within; lia|].
    apply repeat_item_succeeds. exists digits, tail. rewrite Hdg.
    split; [reflexivity|]. split; [exact Hd|]. cbn [plus]. split; [lia|].
    split; [right; unfold within; lia|].
    destruct Ht as [-> | ->]; eexists; reflexivity.
Qed.

Lemma canonical_epic_no_newline (e : str) : canonical_epic e -> last e <> Some 10%N.
Proof.
  intros (letters & digits & -> & _ & _ & Hlen & Hd) Hlast.
  rewrite last_app in Hlast.
  destruct (last digits) as [c|] eqn:E.
  - injection Hlast as ->. apply last_Some in E. destruct E as (d' & ->).
    rewrite forallb_app in Hd. apply andb_true_iff in Hd. destruct Hd as [_ Hd].
    cbn in Hd. discriminate Hd.
  - apply last_None in E. subst digits. cbn in Hlen. lia.
Qed.

(** On a text that does not end in a line break, which includes every
    stripped text, the check of the script is the canonical format. *)
Lemma conforms_canonical (e : str) :
  last e <> Some 10%N -> (conforms e = true <-> canonical_epic e).
Proof.
  intros Hlast. rewrite epic_format_matches. split.
  - intros (letters & digits & tail & -> & Hl3 & Hl & Hd67 & Hd & [-> | ->]).
    + rewrite app_nil_r. exists letters, digits. auto.
    + exfalso. apply Hlast. rewrite app_assoc. apply last_snoc.
  - intros (letters & digits & -> & Hl3 & Hl & Hd67 & Hd).
    exists letters, digits, []. rewrite app_nil_r. auto 10.
Qed.

Lemma stripped_no_newline (s : str) : last (strip s) <> Some 10%N.
Proof. intros H. apply strip_last in H. discriminate H. Qed.

(** ** Age and EPIC checks of the decoupled parser *)

Section RecordValidation.
Import parse_ocr.

Definition record_missing (record : voter_record) : list field :=
  List.filter (fun f => negb (truthy (voter_get record f))) [name; age; serial].

Lemma validate_record_spec (record : voter_record) (w : world) :
  fst (validate_record record w) =
    if bool_decide (record_missing record = [])
       && (negb (truthy (v_age record)) || age_in_range (v_age record))
    then Some record else None.
Proof.
  unfold validate_record, record_missing, age_in_range.
  destruct (List.filter _ _) as [|f missing] eqn:Hmissing.
  2: { rewrite run_bind. unfold ret. cbn [fst snd].
       now rewrite (bool_decide_eq_false_2 (f :: missing = [])) by discriminate. }
  rewrite (bool_decide_eq_true_2 (@nil field = [])) by reflexivity. cbn [andb].
  destruct (truthy (v_age record)); cbn [negb orb]; [|reflexivity].
  destruct (int (v_age record)) as [a|]; [|now rewrite run_bind].
  replace ((a <? 18) || (a >? 120)) with (negb ((18 <=? a) && (a <=? 120)))
    by (rewrite negb_andb, Z.gtb_ltb, <- !Z.ltb_antisym; reflexivity).
  destruct ((18 <=? a) && (a <=? 120)); cbn [negb]; [reflexivity | now rewrite run_bind].
Qed.

Lemma age_in_range_spec (a : str) :
  age_in_range a = true <-> exists n, int a = Some n /\ 18 <= n <= 120.
Proof.
  unfold age_in_range. destruct (int a) as [n|].
  - rewrite andb_true_iff, !Z.leb_le. split.
    + intros H. exists n. split; [reflexivity | lia].
    + intros (m & [= <-] & H). lia.
  - split; [discriminate | intros (n & H & _); discriminate H].
Qed.

Lemma filter_nil_false {A} (f : A -> bool) (l : list A) (x : A) :
  List.filter f l = [] -> In x l -> f x = false.
Proof.
  intros Hnil Hin. destruct (f x) eqn:E; [|reflexivity].
  assert (H : In x (List.filter f l)) by (apply filter_In; auto).
  rewrite Hnil in H. destruct H.
Qed.

Lemma required_age_present (strict_mode : bool) (record : tile_record) :
  tile_missing strict_mode record = [] -> truthy (t_age record) = true.
Proof.
  intros H. apply (filter_nil_false _ _ age) in H.
  - now apply negb_false_iff in H.
  - destruct strict_mode; cbn; auto 10.
Qed.

Lemma parse_tile_accepts (strict_mode : bool) (ocr_text id : str) (w : world)
    (r : tile_record) :
  fst (parse_tile strict_mode ocr_text id w) = Some r ->
  passes_fields_and_age strict_mode r = true /\
  (strict_mode = true -> malformed_epic r = false) /\
  exists text, r =
    {| tile_id := id;
       t_serial := extract_field (PATTERNS serial) text;
       t_epic := extract_field (PATTERNS epic) text;
       t_name := extract_field (PATTERNS name) text;
       t_relation := extract_field (PATTERNS relation) text;
       t_house_no := extract_field (PATTERNS house_no) text;
       t_age := extract_field (PATTERNS age) text;
       t_gender := extract_field (PATTERNS gender) text;
       t_raw_text_length := len text |}.
Proof.
  unfold parse_tile. destruct (len (clean_text ocr_text) <? 20); [discriminate|].
  match goal with |- context [validate_tile _ ?rec _] => set (record := rec) end.
  rewrite (proj1 (validate_tile_spec strict_mode record w)).
  destruct (passes_fields_and_age strict_mode record) eqn:Ep; [|discriminate].
  destruct (strict_mode && malformed_epic record) eqn:Em; [discriminate|].
  cbn [andb negb]. intros [= <-]. split; [exact Ep|]. split.
  - intros ->. exact Em.
  - exists (clean_text ocr_text). reflexivity.
Qed.
End RecordValidation.

(** A record with every field present and a well-formed EPIC, for a given
    age text and EPIC. *)
Definition sample_tile (age_text epic_text : str) : parse_ocr.tile_record :=
  {| parse_ocr.tile_id := utf8 "tile_00";
     parse_ocr.t_serial := utf8 "12";
     parse_ocr.t_epic := epic_text;
     parse_ocr.t_name := utf8 "राम कुमार";
     parse_ocr.t_relation := utf8 "श्याम";
     parse_ocr.t_house_no := utf8 "12";
     parse_ocr.t_age := age_text;
     parse_ocr.t_gender := utf8 "पुरुष";
     parse_ocr.t_raw_text_length := 80 |}.

(** A tile text whose EPIC is in lower case: the case-insensitive search
    finds it, the case-sensitive check does not accept it. *)
Definition lower_case_epic_text : str :=
  utf8 "12 abc1234567" ++ [10%N] ++ utf8 "निर्वाचक का नाम: राम कुमार" ++ [10%N]
  ++ utf8 "पिता का नाम: श्याम" ++ [10%N] ++ utf8 "मकान संख्या: 12" ++ [10%N]
  ++ utf8 "उम्र: 45" ++ [10%N] ++ utf8 "लिंग: पुरुष".

Example lower_case_epic_lenient :
  parse_ocr.parse_tile false lower_case_epic_text (utf8 "tile_00") new_world =
  (Some {| parse_ocr.tile_id := utf8 "tile_00";
           parse_ocr.t_serial := utf8 "12";
           parse_ocr.t_epic := utf8 "abc1234567";
           parse_ocr.t_name := utf8 "राम कुमार";
           parse_ocr.t_relation := utf8 "श्याम";
           parse_ocr.t_house_no := utf8 "12";
           parse_ocr.t_age := utf8 "45";
           parse_ocr.t_gender := utf8 "पुरुष";
           parse_ocr.t_raw_text_length := 96 |},
   {| parse_ocr.stats := parse_ocr.init_stats;
      parse_ocr.stdout := [parse_ocr.TileInvalidEpic (utf8 "tile_00") (utf8 "abc1234567")];
      parse_ocr.opened := []; parse_ocr.written := [] |}).
Proof. vm_compute. reflexivity. Qed.

Example lower_case_epic_strict :
  fst (parse_ocr.parse_tile true lower_case_epic_text (utf8 "tile_00") new_world) = None.
Proof. vm_compute. reflexivity. Qed.

(** C5. A non-empty extracted EPIC is checked against the format of exactly
    three uppercase letters followed by six or seven digits: ABC1234567
    conforms, AB123456 does not. A record whose EPIC does not conform is
    rejected in strict mode; in lenient mode the mismatch is printed and the
    record is accepted or rejected exactly as its other checks decide. *)
Theorem C5_epic_format_check :
  (conforms (utf8 "ABC1234567") = true /\ conforms (utf8 "AB123456") = false) /\
  (forall text : str,
     let e := parse_ocr.extract_field (parse_ocr.PATTERNS parse_ocr.epic) text in
     conforms e = true <-> canonical_epic e) /\
  (forall (record : parse_ocr.tile_record) (w : parse_ocr.world),
     parse_ocr.truthy (parse_ocr.t_epic record) = true ->
     conforms (parse_ocr.t_epic record) = false ->
     fst (parse_ocr.validate_tile true record w) = None /\
     fst (parse_ocr.validate_tile false record w) =
       (if passes_fields_and_age false record then Some record else None) /\
     (passes_fields_and_age false record = true ->
      parse_ocr.stdout (snd (parse_ocr.validate_tile false record w)) =
        parse_ocr.stdout w
        ++ [parse_ocr.TileInvalidEpic (parse_ocr.tile_id record) (parse_ocr.t_epic record)])) /\
  (forall (record : parse_ocr.tile_record) (w : parse_ocr.world),
     fst (parse_ocr.validate_tile false record w) =
       (if passes_fields_and_age false record then Some record else None)) /\
  (forall (ocr_text id : str) (w : parse_ocr.world) (r : parse_ocr.tile_record),
     fst (parse_ocr.parse_tile true ocr_text id w) = Some r ->
     canonical_epic (parse_ocr.t_epic r)).
Proof.
  split; [split; vm_compute; reflexivity|].
  split.
  { intros text e. apply conforms_canonical. unfold e, parse_ocr.extract_field.
    destruct (re.search _ _ _); [apply stripped_no_newline | discriminate]. }
  split.
  { intros record w Ht Hc.
    destruct (validate_tile_spec true record w) as [Hs _].
    destruct (validate_tile_spec false record w) as [Hl Hout].
    unfold malformed_epic in *. rewrite Ht, Hc in *. cbn [andb negb] in *.
    rewrite andb_false_r in Hs. rewrite andb_true_r in Hl. auto. }
  split.
  { intros record w. rewrite (proj1 (validate_tile_spec false record w)).
    cbn [andb negb]. now rewrite andb_true_r. }
  intros ocr_text id w r H.
  destruct (parse_tile_accepts true ocr_text id w r H) as (Hp & Hm & text & Hr).
  specialize (Hm eq_refl). unfold malformed_epic in Hm.
  unfold passes_fields_and_age in Hp. apply andb_true_iff in Hp. destruct Hp as [Hmiss _].
  apply bool_decide_eq_true in Hmiss.
  assert (Ht : parse_ocr.truthy (parse_ocr.t_epic r) = true).
  { apply (filter_nil_false _ _ parse_ocr.epic) in Hmiss; [|cbn; auto 10].
    now apply negb_false_iff in Hmiss. }
  rewrite Ht in Hm. cbn [andb] in Hm. apply negb_false_iff in Hm.
  apply conforms_canonical; [|exact Hm].
  rewrite Hr. cbn [parse_ocr.t_epic]. unfold parse_ocr.extract_field.
  destruct (re.search _ _ _); [apply stripped_no_newline | discriminate].
Qed.

Lemma C5_epic_format_check_witness :
  let record := sample_tile (utf8 "45") (utf8 "abc1234567") in
  fst (parse_ocr.validate_tile true record new_world) = None /\
  fst (parse_ocr.validate_tile false record new_world) =
    (if passes_fields_and_age false record then Some record else None) /\
  (passes_fields_and_age false record = true ->
   parse_ocr.stdout (snd (parse_ocr.validate_tile false record new_world)) =
     parse_ocr.stdout new_world
     ++ [parse_ocr.TileInvalidEpic (parse_ocr.tile_id record) (parse_ocr.t_epic record)]).
Proof.
  intros record.
  destruct C5_epic_format_check as (_ & _ & H & _).
  apply (H record new_world); vm_compute; reflexivity.
Defined.

(** ** Age checks *)

(** A page on which only the first tile fits, read by an engine that
    returns the same text block for every text region and nothing for the
    other regions. *)
Definition small_page (path : str) : image := Opened path 400 200 true.

Definition constant_engine (text : str) : ocr_page_fast.environment :=
  {| ocr_page_fast.open_image := fun path => Some (small_page path);
     ocr_page_fast.engine_available := true;
     ocr_page_fast.recognize := fun p _ => if psm p =? 6 then Some text else Some [] |}.

Definition underage_text : str :=
  utf8 "नाम: राम कुमार" ++ [10%N] ++ utf8 "उम्र: 17" ++ [10%N] ++ utf8 "पता: ग्राम".

(** The records [process_page] of the persistent-engine script builds. *)
Definition fast_records (env : ocr_page_fast.environment) (img : image) (image_path : str)
    (debug : bool) : list csv_record :=
  fst (fst (ocr_page_fast.process_image env img image_path debug)).

(** The specification's age rule, read on the page script: a record with an age is valid only
    if the age is an integer from 18 to 120. *)
Definition page_script_checks_age : Prop :=
  forall env img image_path debug r,
    In r (fast_records env img image_path debug) ->
    age r <> [] -> valid r = true -> age_in_range (age r) = true.

Lemma C3_counterexample : ~ page_script_checks_age.
Proof.
  intros H.
  specialize (H (constant_engine underage_text) (small_page (utf8 "page.png"))
                (utf8 "page.png") false
                (make_csv_record (utf8 "page") (utf8 "00") 0 0 [] [] underage_text true)).
  assert (Hr : age_in_range
                 (age (make_csv_record (utf8 "page") (utf8 "00") 0 0 [] [] underage_text true))
               = true).
  { apply H.
    - vm_compute. left. reflexivity.
    - vm_compute. discriminate.
    - reflexivity. }
  vm_compute in Hr. discriminate Hr.
Qed.

(** C3 (as it holds). In the decoupled parser, in strict and in lenient mode
    alike, a record whose age field is not empty is rejected unless the age
    parses as an integer from 18 to 120: with age 45 the sample record is
    accepted, with 17, 121 or abc it is rejected; every record that
    [parse_tile] or [parse_record] returns has such an age. The validity flag
    of the page scripts does not look at the age. *)
Theorem C3_age_range_in_parser :
  (forall (strict_mode : bool) (record : parse_ocr.tile_record) (w : parse_ocr.world),
     parse_ocr.truthy (parse_ocr.t_age record) = true ->
     age_in_range (parse_ocr.t_age record) = false ->
     fst (parse_ocr.validate_tile strict_mode record w) = None) /\
  (forall (record : parse_ocr.voter_record) (w : parse_ocr.world),
     parse_ocr.truthy (parse_ocr.v_age record) = true ->
     age_in_range (parse_ocr.v_age record) = false ->
     fst (parse_ocr.validate_record record w) = None) /\
  (forall (strict_mode : bool) (ocr_text id : str) (w : parse_ocr.world)
          (r : parse_ocr.tile_record),
     fst (parse_ocr.parse_tile strict_mode ocr_text id w) = Some r ->
     exists n, int (parse_ocr.t_age r) = Some n /\ 18 <= n <= 120) /\
  (forall (fs : filesystem) (record_id ocr_dir : str) (w : parse_ocr.world)
          (r : parse_ocr.voter_record),
     fst (parse_ocr.parse_record fs record_id ocr_dir w) = Some r ->
     exists n, int (parse_ocr.v_age r) = Some n /\ 18 <= n <= 120) /\
  (forall (strict_mode : bool) (w : parse_ocr.world),
     let check a := fst (parse_ocr.validate_tile strict_mode
                           (sample_tile (utf8 a) (utf8 "ABC1234567")) w) in
     check "45"%string = Some (sample_tile (utf8 "45") (utf8 "ABC1234567")) /\
     check "17"%string = None /\ check "121"%string = None /\ check "abc"%string = None).
Proof.
  split; [|split; [|split; [|split]]].
  - intros strict_mode record w Ht Ha.
    rewrite (proj1 (validate_tile_spec strict_mode record w)).
    unfold passes_fields_and_age. rewrite Ht, Ha. cbn [negb orb].
    now rewrite andb_false_r.
  - intros record w Ht Ha. rewrite validate_record_spec, Ht, Ha. cbn [negb orb].
    now rewrite andb_false_r.
  - intros strict_mode ocr_text id w r H.
    destruct (parse_tile_accepts strict_mode ocr_text id w r H) as (Hp & _ & _).
    unfold passes_fields_and_age in Hp. apply andb_true_iff in Hp. destruct Hp as [Hm Ha].
    apply bool_decide_eq_true in Hm. apply required_age_present in Hm.
    rewrite Hm in Ha. cbn [negb orb] in Ha. now apply age_in_range_spec.
  - intros fs record_id ocr_dir w r. unfold parse_ocr.parse_record.
    rewrite !run_bind. cbv beta.
    match goal with |- context [parse_ocr.validate_record ?rec ?w0] =>
      set (record := rec); generalize w0 end.
    intros w0. rewrite validate_record_spec.
    destruct (bool_decide (record_missing record = [])) eqn:Em; [|discriminate].
    cbn [andb]. apply bool_decide_eq_true in Em.
    apply (filter_nil_false _ _ parse_ocr.age) in Em; [|cbn; auto].
    apply negb_false_iff in Em.
    change (parse_ocr.voter_get record parse_ocr.age) with (parse_ocr.v_age record) in Em.
    rewrite Em. cbn [negb orb].
    destruct (age_in_range (parse_ocr.v_age record)) eqn:Ea; [|discriminate].
    intros [= <-]. now apply age_in_range_spec.
  - intros strict_mode w check. unfold check.
    rewrite !(proj1 (validate_tile_spec strict_mode _ w)).
    destruct strict_mode; vm_compute; auto.
Qed.

Lemma C3_age_range_in_parser_witness :
  fst (parse_ocr.validate_tile false (sample_tile (utf8 "17") (utf8 "ABC1234567")) new_world)
  = None.
Proof.
  refine (proj1 C3_age_range_in_parser false _ new_world _ _); vm_compute; reflexivity.
Defined.

(** ** The persistent-engine script: one record per tile *)

Section FastPipeline.
Import ocr_page_fast.
Variables (env : environment) (img : image) (image_path : str) (debug : bool).

(** The record the loop body appends for a tile. *)
Definition fast_record (t : tile) : csv_record :=
  let '(serial, epic, text) := tile_texts env (Crop (record_box t) img) in
  make_csv_record (path_stem image_path) (tile_record_id t) (tile_row t) (tile_col t)
                  serial epic text (is_valid epic text).

Lemma process_tile_records (t : tile) (acc : loop_state) :
  fst (fst (process_tile env img image_path debug t acc)) =
  fst (fst acc) ++ [fast_record t].
Proof.
  destruct acc as [[records valid_count] out]. unfold process_tile, fast_record.
  destruct (tile_texts env (Crop (record_box t) img)) as [[serial epic] text].
  reflexivity.
Qed.

Lemma fast_loop_records (width height : Z) (l : list tile) (acc : loop_state) :
  fst (fst (fold_left
              (fun acc t => if out_of_bounds width height t then acc
                            else process_tile env img image_path debug t acc)
              l acc)) =
  fst (fst acc)
  ++ List.map fast_record (List.filter (fun t => negb (out_of_bounds width height t)) l).
Proof.
  revert acc. induction l as [|t l IH]; intros acc; cbn [fold_left List.filter List.map].
  - now rewrite app_nil_r.
  - rewrite IH. destruct (out_of_bounds width height t); cbn [negb List.map]; [reflexivity|].
    rewrite process_tile_records, <- app_assoc. reflexivity.
Qed.
End FastPipeline.

(** The image the loop of the persistent-engine script works on. *)
Definition grayscale (img0 : image) : image :=
  if mode_is_L img0 then img0 else Convert_L img0.

Lemma grayscale_size (img0 : image) :
  image_width (grayscale img0) = image_width img0 /\
  image_height (grayscale img0) = image_height img0.
Proof. unfold grayscale. destruct (mode_is_L img0); split; reflexivity. Qed.

(** The records of a page are those of the tiles the segmenter lets
    through, in the same order. *)
Lemma fast_records_segment (env : ocr_page_fast.environment) (img0 : image)
    (image_path : str) (debug : bool) :
  fast_records env img0 image_path debug =
  List.map (fast_record env (grayscale img0) image_path)
           (segment (image_width img0) (image_height img0)).
Proof.
  unfold fast_records, ocr_page_fast.process_image. fold (grayscale img0).
  destruct (grayscale_size img0) as [-> ->].
  rewrite grid_loop_fold, fast_loop_records, segment_filter. reflexivity.
Qed.

Lemma make_csv_record_fields (page_name id : str) (r c : Z) (s e t : str) (v : bool) :
  let rec := make_csv_record page_name id r c s e t v in
  page rec = page_name /\ record_id rec = id /\ row rec = r /\ col rec = c /\
  serial rec = s /\ epic rec = e /\ raw_text rec = t /\ valid rec = v.
Proof. cbv zeta. unfold make_csv_record. cbn. auto 10. Qed.

(** ** The worker-pool script: extraction and reassembly *)

Section PythonPipeline.
Import ocr_page_python.
Variables (env : environment) (img : image) (image_path : str).

Definition boxes_dir : Path :=
  Path_join (Path_join (Path_of (mkdtemp env)) (utf8 "boxes")) (path_stem image_path).

(** All four image files of a tile can be saved. *)
Definition saves_ok (t : tile) : bool :=
  save_ok env (box_path boxes_dir (tile_record_id t) "_serial")
  && save_ok env (box_path boxes_dir (tile_record_id t) "_epic")
  && save_ok env (box_path boxes_dir (tile_record_id t) "_text")
  && save_ok env (box_path boxes_dir (tile_record_id t) "").

(** The [record_data] of a tile. *)
Definition tile_data (t : tile) : record_data :=
  {| rd_record_id := tile_record_id t; rd_row := tile_row t; rd_col := tile_col t;
     rd_x := tile_x t; rd_y := tile_y t;
     serial_path := box_path boxes_dir (tile_record_id t) "_serial";
     epic_path := box_path boxes_dir (tile_record_id t) "_epic";
     text_path := box_path boxes_dir (tile_record_id t) "_text";
     full_path := box_path boxes_dir (tile_record_id t) "" |}.

Lemma extract_tile_records (t : tile) (acc : extraction) :
  fst (fst (extract_tile env img boxes_dir t acc)) =
  fst (fst acc) ++ (if saves_ok t then [tile_data t] else []).
Proof.
  destruct acc as [[records saved] out]. unfold extract_tile, saves_ok, tile_data.
  destruct (save_ok env (box_path boxes_dir (tile_record_id t) "_serial"));
    cbn [negb andb fst]; [|now rewrite app_nil_r].
  destruct (save_ok env (box_path boxes_dir (tile_record_id t) "_epic"));
    cbn [negb andb fst]; [|now rewrite app_nil_r].
  destruct (save_ok env (box_path boxes_dir (tile_record_id t) "_text"));
    cbn [negb andb fst]; [|now rewrite app_nil_r].
  destruct (save_ok env (box_path boxes_dir (tile_record_id t) ""));
    cbn [negb andb fst]; [reflexivity | now rewrite app_nil_r].
Qed.

Lemma extract_loop_records (width height : Z) (l : list tile) (acc : extraction) :
  fst (fst (fold_left
              (fun acc t =>
                 if out_of_bounds width height t
                 then (let '(records, saved, out) := acc in
                       (records, saved, out ++ [WarningOutOfBounds (tile_record_id t)]))
                 else extract_tile env img boxes_dir t acc)
              l acc)) =
  fst (fst acc)
  ++ List.map tile_data
       (List.filter saves_ok (List.filter (fun t => negb (out_of_bounds width height t)) l)).
Proof.
  revert acc. induction l as [|t l IH]; intros acc; cbn [fold_left List.filter List.map].
  - now rewrite app_nil_r.
  - rewrite IH. destruct (out_of_bounds width height t); cbn [negb].
    + destruct acc as [[records saved] out]. reflexivity.
    + rewrite extract_tile_records. cbn [List.filter].
      destruct (saves_ok t); cbn [List.map]; now rewrite <- app_assoc.
Qed.

(** The tiles the script keeps: in bounds and saved. *)
Definition extracted_tiles : list tile :=
  List.filter saves_ok (segment (image_width img) (image_height img)).

Definition extraction_result : extraction :=
  extract_record_regions env img image_path (mkdtemp env).

Lemma extracted_records :
  fst (fst extraction_result) = List.map tile_data extracted_tiles.
Proof.
  unfold extraction_result, extract_record_regions, extracted_tiles. fold boxes_dir.
  rewrite grid_loop_fold, extract_loop_records, segment_filter. reflexivity.
Qed.

(** The image files on disk when recognition starts, and the dictionary
    the loop over completed futures builds. *)
Definition saved_files : gmap str image := snd (fst extraction_result).

Definition ocr_results : gmap str (gmap region str) :=
  fold_left collect
    (as_completed env
       (List.map (ocr_region env saved_files)
                 (flat_map record_tasks (fst (fst extraction_result)))))
    ∅.

Lemma page_records_eq :
  page_records env img image_path =
  (fst (fst extraction_result),
   List.map (record_csv image_path ocr_results) (fst (fst extraction_result)),
   snd extraction_result).
Proof.
  unfold page_records, ocr_results, saved_files. fold extraction_result.
  destruct extraction_result as [[records saved] out]. reflexivity.
Qed.
End PythonPipeline.

(** The records [process_page] of the worker-pool script builds. *)
Definition python_records (env : ocr_page_python.environment) (img : image)
    (image_path : str) : list csv_record :=
  snd (fst (ocr_page_python.page_records env img image_path)).

Lemma python_records_eq (env : ocr_page_python.environment) (img : image) (image_path : str) :
  python_records env img image_path =
  List.map (fun t => ocr_page_python.record_csv image_path (ocr_results env img image_path)
                       (tile_data env image_path t))
           (extracted_tiles env img image_path).
Proof.
  unfold python_records. rewrite page_records_eq. cbn [fst snd].
  rewrite extracted_records, map_map. reflexivity.
Qed.

(** ** Reassembly of results by key *)

Section Reassembly.
Import ocr_page_python.

(** [ocr_results.get(record_id, {}).get(kind)] *)
Definition lookup2 (m : gmap str (gmap region str)) (id : str) (kind : region)
    : option str :=
  default ∅ (m !! id) !! kind.

Definition result_key (r : ocr_result) : str * region :=
  (result_record_id r, result_type r).

Lemma lookup2_collect (m : gmap str (gmap region str)) (r : ocr_result)
    (id : str) (kind : region) :
  lookup2 (collect m r) id kind =
  if decide (result_key r = (id, kind)) then Some (result_text r) else lookup2 m id kind.
Proof.
  unfold lookup2, collect, result_key. cbv zeta.
  destruct (decide (result_record_id r = id)) as [<- | Hid].
  - rewrite lookup_insert_eq. cbn [from_option id].
    destruct (decide (result_type r = kind)) as [<- | Hk].
    + rewrite lookup_insert_eq. rewrite decide_True by reflexivity. reflexivity.
    + rewrite lookup_insert_ne by exact Hk.
      rewrite decide_False by (intros [= ?]; contradiction). reflexivity.
  - rewrite lookup_insert_ne by exact Hid.
    rewrite decide_False by (intros [= ? ?]; contradiction). reflexivity.
Qed.

Lemma collect_all_other (l : list ocr_result) (m : gmap str (gmap region str))
    (id : str) (kind : region) :
  ~ In (id, kind) (List.map result_key l) ->
  lookup2 (fold_left collect l m) id kind = lookup2 m id kind.
Proof.
  revert m. induction l as [|x l IH]; intros m Hnot; cbn [fold_left]; [reflexivity|].
  cbn [List.map In] in Hnot. rewrite IH by tauto.
  rewrite lookup2_collect. rewrite decide_False by tauto. reflexivity.
Qed.

(** With one result per key, every result is found under its key, in
    whatever order the results arrive. *)
Lemma collect_all_found (l : list ocr_result) (m : gmap str (gmap region str))
    (r : ocr_result) :
  List.NoDup (List.map result_key l) -> In r l ->
  lookup2 (fold_left collect l m) (result_record_id r) (result_type r)
  = Some (result_text r).
Proof.
  revert m. induction l as [|x l IH]; intros m Hnd Hin; [destruct Hin|].
  cbn [List.map] in Hnd. apply List.NoDup_cons_iff in Hnd. destruct Hnd as [Hx Hnd].
  cbn [fold_left]. destruct Hin as [-> | Hin].
  - rewrite collect_all_other by exact Hx.
    rewrite lookup2_collect. rewrite decide_True by reflexivity. reflexivity.
  - apply IH; assumption.
Qed.

Lemma collect_permuted (l l' : list ocr_result) (r : ocr_result) :
  Permutation l' l -> List.NoDup (List.map result_key l) -> In r l ->
  lookup2 (fold_left collect l' ∅) (result_record_id r) (result_type r)
  = Some (result_text r).
Proof.
  intros Hp Hnd Hin. apply collect_all_found.
  - eapply Permutation_NoDup; [|exact Hnd]. apply Permutation_map. now symmetry.
  - eapply Permutation_in; [|exact Hin]. now symmetry.
Qed.
End Reassembly.

Lemma grid_ids_distinct : List.NoDup (List.map tile_record_id grid).
Proof. apply NoDup_ListNoDup. apply (bool_decide_unpack _). vm_compute. reflexivity. Qed.

Lemma NoDup_map_filter {A B} (f : A -> B) (p : A -> bool) (l : list A) :
  List.NoDup (List.map f l) -> List.NoDup (List.map f (List.filter p l)).
Proof.
  induction l as [|x l IH]; cbn [List.map List.filter]; [auto|].
  intros H. apply List.NoDup_cons_iff in H. destruct H as [Hx Hnd].
  destruct (p x); cbn [List.map]; [|auto].
  apply List.NoDup_cons; [|auto].
  intros Hin. apply Hx. apply in_map_iff in Hin. destruct Hin as (y & Hy & Hin).
  apply filter_In in Hin. apply in_map_iff. exists y. tauto.
Qed.

Section PythonReassembly.
Import ocr_page_python.
Variables (env : environment) (img : image) (image_path : str).

(** The task of one region of a tile. *)
Definition tile_task (t : tile) (kind : region) : task :=
  {| task_type := kind;
     task_path :=
       match kind with
       | Serial => serial_path (tile_data env image_path t)
       | Epic => epic_path (tile_data env image_path t)
       | Text => text_path (tile_data env image_path t)
       end;
     task_record_id := tile_record_id t |}.

(** What the worker returns for one region of a tile. *)
Definition region_result (t : tile) (kind : region) : ocr_result :=
  ocr_region env (saved_files env img image_path) (tile_task t kind).

Lemma ocr_region_key (saved : gmap str image) (d : task) :
  result_key (ocr_region env saved d) = (task_record_id d, task_type d).
Proof. unfold ocr_region, result_key. destruct (tesseract env _ _); reflexivity. Qed.

Definition tile_keys (l : list tile) : list (str * region) :=
  flat_map (fun t => [(tile_record_id t, Serial); (tile_record_id t, Epic);
                      (tile_record_id t, Text)]) l.

Lemma in_tile_keys (l : list tile) (id : str) (kind : region) :
  In (id, kind) (tile_keys l) -> In id (List.map tile_record_id l).
Proof.
  unfold tile_keys. rewrite in_flat_map. intros (t & Ht & Hin).
  apply in_map_iff. exists t. split; [|exact Ht].
  cbn [In] in Hin. destruct Hin as [H | [H | [H | []]]]; congruence.
Qed.

Lemma tile_keys_distinct (l : list tile) :
  List.NoDup (List.map tile_record_id l) -> List.NoDup (tile_keys l).
Proof.
  induction l as [|t l IH]; cbn [List.map]; intros H; [constructor|].
  apply List.NoDup_cons_iff in H. destruct H as [Ht Hnd].
  change (tile_keys (t :: l)) with
    ((tile_record_id t, Serial) :: (tile_record_id t, Epic)
     :: (tile_record_id t, Text) :: tile_keys l).
  repeat (apply List.NoDup_cons);
    try (cbn [In]; intros Hin;
         repeat (destruct Hin as [Hin | Hin]; [discriminate Hin|]);
         apply Ht; eapply in_tile_keys; exact Hin).
  apply IH, Hnd.
Qed.

Lemma result_keys (saved : gmap str image) (l : list tile) :
  List.map result_key
    (List.map (ocr_region env saved)
              (flat_map record_tasks (List.map (tile_data env image_path) l)))
  = tile_keys l.
Proof.
  induction l as [|t l IH]; [reflexivity|].
  cbn [List.map flat_map]. unfold record_tasks at 1. cbn [app List.map].
  rewrite !ocr_region_key, IH. reflexivity.
Qed.

Lemma extracted_ids_distinct :
  List.NoDup (List.map tile_record_id (extracted_tiles env img image_path)).
Proof.
  unfold extracted_tiles. apply NoDup_map_filter. rewrite segment_filter.
  apply NoDup_map_filter. apply grid_ids_distinct.
Qed.

Hypothesis as_completed_permutes : forall l, Permutation (as_completed env l) l.

(** Whatever the order of completion, the text the script uses for a
    region of a tile is the text its own worker returned. *)
Lemma python_lookup_text (t : tile) (kind : region) :
  In t (extracted_tiles env img image_path) ->
  lookup_text (ocr_results env img image_path) (tile_record_id t) kind =
  strip (result_text (region_result t kind)).
Proof.
  intros Hin.
  set (results := List.map (ocr_region env (saved_files env img image_path))
                    (flat_map record_tasks
                       (List.map (tile_data env image_path)
                                 (extracted_tiles env img image_path)))).
  assert (Hnd : List.NoDup (List.map result_key results)).
  { unfold results. rewrite result_keys.
    apply tile_keys_distinct, extracted_ids_distinct. }
  assert (Hr : In (region_result t kind) results).
  { unfold results, region_result. apply in_map. apply in_flat_map.
    exists (tile_data env image_path t). split; [now apply in_map|].
    unfold record_tasks, tile_task. destruct kind; cbn [In]; auto. }
  pose proof (collect_permuted results (as_completed env results) (region_result t kind)
                (as_completed_permutes results) Hnd Hr) as H.
  assert (Hkey : result_key (region_result t kind) = (tile_record_id t, kind))
    by apply ocr_region_key.
  injection Hkey as Hid Hty. rewrite Hid, Hty in H.
  unfold lookup_text. change (default ∅ (?m !! ?i) !! ?k) with (lookup2 m i k).
  unfold ocr_results. rewrite extracted_records. fold results. rewrite H. reflexivity.
Qed.
End PythonReassembly.

(** ** The records of the scripts and the tiles of the segmenter *)

Lemma fast_record_fields (env : ocr_page_fast.environment) (img : image) (image_path : str)
    (t : tile) :
  let r := fast_record env img image_path t in
  let texts := ocr_page_fast.tile_texts env (Crop (record_box t) img) in
  page r = path_stem image_path /\ record_id r = tile_record_id t /\
  row r = tile_row t /\ col r = tile_col t /\
  serial r = fst (fst texts) /\ epic r = snd (fst texts) /\ raw_text r = snd texts /\
  valid r = ocr_page_fast.is_valid (epic r) (raw_text r).
Proof.
  cbv zeta. unfold fast_record.
  destruct (ocr_page_fast.tile_texts env (Crop (record_box t) img)) as [[s e] x].
  cbn [fst snd]. unfold make_csv_record. cbn. auto 10.
Qed.

Lemma python_record_fields (image_path : str) (results : gmap str (gmap region str))
    (d : ocr_page_python.record_data) :
  let r := ocr_page_python.record_csv image_path results d in
  page r = path_stem image_path /\ record_id r = ocr_page_python.rd_record_id d /\
  row r = ocr_page_python.rd_row d /\ col r = ocr_page_python.rd_col d /\
  serial r = ocr_page_python.lookup_text results (ocr_page_python.rd_record_id d) Serial /\
  epic r = ocr_page_python.lookup_text results (ocr_page_python.rd_record_id d) Epic /\
  raw_text r = ocr_page_python.lookup_text results (ocr_page_python.rd_record_id d) Text /\
  valid r = ocr_page_python.is_valid (serial r) (epic r) (raw_text r).
Proof.
  cbv zeta. unfold ocr_page_python.record_csv, make_csv_record. cbn. auto 10.
Qed.

Lemma filter_all {A} (p : A -> bool) (l : list A) :
  (forall x, p x = true) -> List.filter p l = l.
Proof.
  intros H. induction l as [|x l IH]; cbn [List.filter]; [reflexivity|].
  now rewrite H, IH.
Qed.

(** C1. For every page size the segmenter visits the grid positions
    row in [0,10), col in [0,3) in row-major order; the tile at (row, col) has
    x = 22 + col*(298+5), y = 42 + row*(121+5) and the identifier row*3+col
    written with two digits; a tile is left out exactly when x+298 exceeds the
    page width or y+121 its height, the others keeping their identifiers; and
    on a page of at least the full footprint (926 by 1297) there are exactly
    30 tiles, with identifiers 00..29 and pairwise disjoint rectangles. The
    records of the persistent-engine script, and those of the worker-pool
    script when its image files can be saved, are the tiles of the segmenter
    in its order. *)
Theorem C1_grid_segmenter (width height : Z) :
  segment width height = List.filter (fun t => negb (out_of_bounds width height t)) grid /\
  grid = flat_map (fun r => List.map (fun c => tile_at (Z.of_nat r) (Z.of_nat c)) (seq 0 3))
                  (seq 0 10) /\
  (forall r c : nat, (r < 10)%nat -> (c < 3)%nat ->
     let t := tile_at (Z.of_nat r) (Z.of_nat c) in
     tile_x t = 22 + Z.of_nat c * (298 + 5) /\
     tile_y t = 42 + Z.of_nat r * (121 + 5) /\
     tile_record_id t = two_digits (r * 3 + c) /\
     (out_of_bounds width height t = true <->
      tile_x t + 298 > width \/ tile_y t + 121 > height) /\
     (In t (segment width height) <->
      ~ (tile_x t + 298 > width \/ tile_y t + 121 > height))) /\
  (926 <= width -> 1297 <= height ->
     length (segment width height) = 30%nat /\
     List.map tile_record_id (segment width height) = List.map two_digits (seq 0 30) /\
     forall (i j : nat) (a b : tile),
       segment width height !! i = Some a -> segment width height !! j = Some b ->
       i <> j -> rect_disjoint a b) /\
  (forall env img image_path debug,
     image_width img = width -> image_height img = height ->
     List.map (fun r => (record_id r, row r, col r))
              (fast_records env img image_path debug) =
     List.map (fun t => (tile_record_id t, tile_row t, tile_col t))
              (segment width height)) /\
  (forall env img image_path,
     image_width img = width -> image_height img = height ->
     (forall p, ocr_page_python.save_ok env p = true) ->
     List.map (fun d => (ocr_page_python.rd_record_id d, ocr_page_python.rd_row d,
                         ocr_page_python.rd_col d, ocr_page_python.rd_x d,
                         ocr_page_python.rd_y d))
              (fst (fst (extraction_result env img image_path))) =
     List.map (fun t => (tile_record_id t, tile_row t, tile_col t, tile_x t, tile_y t))
              (segment width height)).
Proof.
  split; [apply segment_filter|]. split; [reflexivity|].
  split; [|split; [|split]].
  - intros r c Hr Hc t.
    destruct (tile_at_spec r c Hr Hc) as (_ & _ & Hx & Hy & Hid).
    split; [exact Hx|]. split; [exact Hy|]. split; [exact Hid|].
    split; [apply out_of_bounds_spec|].
    rewrite segment_filter, filter_In, <- out_of_bounds_spec.
    assert (Hin : In t grid).
    { unfold grid. apply in_flat_map. exists (Z.of_nat r). split.
      - apply in_map. apply in_seq. unfold GRID_ROWS. lia.
      - apply in_map_iff. exists (Z.of_nat c). split; [reflexivity|].
        apply in_map. apply in_seq. unfold GRID_COLS. lia. }
    destruct (out_of_bounds width height t); cbn [negb].
    + split; [intros [_ H]; discriminate H | intros H; exfalso; apply H; reflexivity].
    + split; [intros _ H; discriminate H | intros _; split; [exact Hin | reflexivity]].
  - intros Hw Hh. rewrite (segment_full width height Hw Hh).
    split; [reflexivity|]. split; [vm_compute; reflexivity|].
    apply grid_disjoint.
  - intros env img image_path debug <- <-.
    rewrite fast_records_segment, map_map. apply map_ext. intros t.
    destruct (fast_record_fields env (grayscale img) image_path t)
      as (_ & -> & -> & -> & _). reflexivity.
  - intros env img image_path <- <- Hsave.
    rewrite extracted_records, map_map. unfold extracted_tiles.
    rewrite filter_all by (intros t; unfold saves_ok; now rewrite !Hsave).
    reflexivity.
Qed.

Lemma C1_grid_segmenter_witness :
  length (segment 926 1297) = 30%nat /\
  List.map tile_record_id (segment 926 1297) = List.map two_digits (seq 0 30).
Proof.
  destruct (C1_grid_segmenter 926 1297) as (_ & _ & _ & H & _).
  destruct (H ltac:(lia) ltac:(lia)) as (Hlen & Hids & _).
  split; [exact Hlen | exact Hids].
Defined.

(** ** Validity flags of the page scripts *)

(** A pool of workers that return the same text block for every text region
    and nothing for the other regions, its results arriving in reverse
    order. *)
Definition constant_pool (text : str) : ocr_page_python.environment :=
  {| ocr_page_python.open_image := fun path => Some (small_page path);
     ocr_page_python.mkdtemp := utf8 "/tmp/tmp0";
     ocr_page_python.save_ok := fun _ => true;
     ocr_page_python.tesseract := fun p _ =>
       if psm p =? 6 then ocr_page_python.Exits 0 (Some text)
       else ocr_page_python.Exits 0 (Some []);
     ocr_page_python.as_completed := fun l => rev l |}.

(** Twenty-five characters of free text. *)
Definition twenty_five : str := utf8 "abcdefghijklmnopqrstuvwxy".

(** The specification's lenient rule, read on both page scripts. *)
Definition lenient_rule_in_both_scripts : Prop :=
  (forall env img image_path debug r,
     In r (fast_records env img image_path debug) ->
     (valid r = true <-> 6 <= len (epic r) \/ 20 <= len (raw_text r))) /\
  (forall env img image_path r,
     In r (python_records env img image_path) ->
     (valid r = true <-> 6 <= len (epic r) \/ 20 <= len (raw_text r))).

Lemma C2_counterexample : ~ lenient_rule_in_both_scripts.
Proof.
  intros [_ H].
  specialize (H (constant_pool twenty_five) (small_page (utf8 "page.png")) (utf8 "page.png")
                (make_csv_record (utf8 "page") (utf8 "00") 0 0 [] [] twenty_five false)).
  assert (Hin : In (make_csv_record (utf8 "page") (utf8 "00") 0 0 [] [] twenty_five false)
                   (python_records (constant_pool twenty_five) (small_page (utf8 "page.png"))
                                   (utf8 "page.png")))
    by (vm_compute; left; reflexivity).
  destruct (H Hin) as [_ Hv].
  assert (Habs : false = true) by (apply Hv; right; vm_compute; discriminate).
  discriminate Habs.
Qed.

Lemma fast_is_valid_spec (e t : str) :
  ocr_page_fast.is_valid e t = true <-> 6 <= len e \/ 20 <= len t.
Proof.
  unfold ocr_page_fast.is_valid. rewrite orb_true_iff, !Z.geb_le. reflexivity.
Qed.

Lemma python_is_valid_spec (s e t : str) :
  ocr_page_python.is_valid s e t = true <-> 1 <= len s /\ 6 <= len e /\ 20 <= len t.
Proof.
  unfold ocr_page_python.is_valid. rewrite !andb_true_iff, !Z.geb_le. tauto.
Qed.

(** C2 (as it holds). For every in-bounds tile the persistent-engine script
    sets the validity flag exactly when the EPIC text has at least 6
    characters or the free text has at least 20, so an empty EPIC with 25
    characters of text is valid; the worker-pool script sets it exactly when
    the serial text is non-empty and the EPIC text has at least 6 characters
    and the free text has at least 20. *)
Theorem C2_validity_flags :
  (forall env img image_path debug r,
     In r (fast_records env img image_path debug) ->
     (valid r = true <-> 6 <= len (epic r) \/ 20 <= len (raw_text r))) /\
  (forall env img image_path r,
     In r (python_records env img image_path) ->
     (valid r = true <->
      1 <= len (serial r) /\ 6 <= len (epic r) /\ 20 <= len (raw_text r))) /\
  ocr_page_fast.is_valid [] twenty_five = true /\
  ocr_page_python.is_valid (utf8 "1") [] twenty_five = false.
Proof.
  split; [|split; [|split; vm_compute; reflexivity]].
  - intros env img image_path debug r Hin.
    rewrite fast_records_segment in Hin. apply in_map_iff in Hin.
    destruct Hin as (t & <- & _).
    destruct (fast_record_fields env (grayscale img) image_path t)
      as (_ & _ & _ & _ & _ & _ & _ & ->).
    apply fast_is_valid_spec.
  - intros env img image_path r Hin.
    rewrite python_records_eq in Hin. apply in_map_iff in Hin.
    destruct Hin as (t & <- & _).
    match goal with |- context [ocr_page_python.record_csv ?p ?m ?d] =>
      destruct (python_record_fields p m d) as (_ & _ & _ & _ & _ & _ & _ & ->) end.
    apply python_is_valid_spec.
Qed.

Lemma C2_validity_flags_witness :
  let r := make_csv_record (utf8 "page") (utf8 "00") 0 0 [] [] twenty_five true in
  valid r = true <-> 6 <= len (epic r) \/ 20 <= len (raw_text r).
Proof.
  intros r.
  apply (proj1 C2_validity_flags (constant_engine twenty_five) (small_page (utf8 "page.png"))
               (utf8 "page.png") false r).
  vm_compute. left. reflexivity.
Defined.

(** ** Recognition failures *)

(** The text the persistent engine returns for one region of a tile;
    [None] when the call raises. *)
Definition fast_region_text (env : ocr_page_fast.environment) (img : image) (t : tile)
    (kind : region) : option str :=
  let sub := Crop (region_box kind) (Crop (record_box t) img) in
  match kind with
  | Serial => ocr_page_fast.ocr_serial env sub
  | Epic => ocr_page_fast.ocr_epic env sub
  | Text => ocr_page_fast.ocr_text env sub
  end.

(** An engine that reads 12 in the serial and EPIC regions and raises on
    every text region. *)
Definition text_failing_engine : ocr_page_fast.environment :=
  {| ocr_page_fast.open_image := fun path => Some (small_page path);
     ocr_page_fast.engine_available := true;
     ocr_page_fast.recognize := fun p _ => if psm p =? 6 then None else Some (utf8 "12") |}.

(** The specification's failure rule, read on the persistent-engine script: what a region's own
    call recognized is what the record holds, whatever happens to the other
    regions of the tile. *)
Definition failure_stays_in_its_region : Prop :=
  forall env img image_path t s,
    fast_region_text env img t Serial = Some s ->
    serial (fast_record env img image_path t) = s.

Lemma C7_counterexample : ~ failure_stays_in_its_region.
Proof.
  intros H.
  specialize (H text_failing_engine (small_page (utf8 "page.png")) (utf8 "page.png")
                (tile_at 0 0) (utf8 "12")).
  assert (Habs : serial (fast_record text_failing_engine (small_page (utf8 "page.png"))
                                     (utf8 "page.png") (tile_at 0 0)) = utf8 "12")
    by (apply H; vm_compute; reflexivity).
  vm_compute in Habs. discriminate Habs.
Qed.

Lemma recognize_tile_spec (env : ocr_page_fast.environment) (img : image) (t : tile) :
  ocr_page_fast.recognize_tile env (Crop (record_box t) img) =
  match fast_region_text env img t Serial, fast_region_text env img t Epic,
        fast_region_text env img t Text with
  | Some s, Some e, Some x => Some (s, e, x)
  | _, _, _ => None
  end.
Proof.
  unfold ocr_page_fast.recognize_tile, fast_region_text.
  destruct (ocr_page_fast.ocr_serial env _); [|reflexivity].
  destruct (ocr_page_fast.ocr_epic env _); [|reflexivity].
  destruct (ocr_page_fast.ocr_text env _); reflexivity.
Qed.

Lemma result_text_stripped (env : ocr_page_python.environment) (saved : gmap str image)
    (d : ocr_page_python.task) :
  strip (ocr_page_python.result_text (ocr_page_python.ocr_region env saved d)) =
  ocr_page_python.result_text (ocr_page_python.ocr_region env saved d).
Proof.
  unfold ocr_page_python.ocr_region.
  destruct (ocr_page_python.tesseract env _ _) as [|rc [out|]];
    cbn [ocr_page_python.result_text from_option];
    [reflexivity | apply strip_idempotent | reflexivity].
Qed.

(** C7 (as it holds). No failed recognition call ends the processing of a
    page, and no record depends on the calls of another tile. In the
    worker-pool script a call that raises gives empty text with success false
    for its own region, and every region of every record gets the text of
    its own call whatever happens to the others. In the persistent-engine
    script a tile whose three calls all return keeps their texts, and a tile
    with a call that raises gets the empty text in all three regions. *)
Theorem C7_recognition_failures :
  (forall env image_path output_csv debug,
     ocr_page_fast.engine_available env = true ->
     is_Some (ocr_page_fast.open_image env image_path) ->
     is_Some (returned (ocr_page_fast.process_page env image_path output_csv debug))) /\
  (forall env img image_path debug,
     fast_records env img image_path debug =
     List.map (fast_record env (grayscale img) image_path)
              (segment (image_width img) (image_height img))) /\
  (forall env img image_path t,
     let r := fast_record env img image_path t in
     match fast_region_text env img t Serial, fast_region_text env img t Epic,
           fast_region_text env img t Text with
     | Some s, Some e, Some x => serial r = s /\ epic r = e /\ raw_text r = x
     | _, _, _ => serial r = [] /\ epic r = [] /\ raw_text r = [] /\ valid r = false
     end) /\
  (forall env saved d,
     ocr_page_python.tesseract env
       (ocr_page_python.region_profile (ocr_page_python.task_type d))
       (saved !! ocr_page_python.task_path d) = ocr_page_python.Raises ->
     ocr_page_python.ocr_region env saved d =
     {| ocr_page_python.result_record_id := ocr_page_python.task_record_id d;
        ocr_page_python.result_type := ocr_page_python.task_type d;
        ocr_page_python.result_text := [];
        ocr_page_python.success := false;
        ocr_page_python.error := true |}) /\
  (forall env img image_path,
     (forall l, Permutation (ocr_page_python.as_completed env l) l) ->
     forall t kind,
       In t (extracted_tiles env img image_path) ->
       ocr_page_python.lookup_text (ocr_results env img image_path) (tile_record_id t) kind =
       ocr_page_python.result_text (region_result env img image_path t kind)) /\
  (forall env image_path output_csv,
     is_Some (ocr_page_python.open_image env image_path) ->
     ocr_page_python.has_dirname output_csv = true ->
     is_Some (returned (ocr_page_python.process_page env image_path output_csv))).
Proof.
  split; [|split; [|split; [|split; [|split]]]].
  - intros env image_path output_csv debug He [img Hi].
    unfold ocr_page_fast.process_page. rewrite He, Hi. cbn [negb].
    destruct (ocr_page_fast.process_image env img image_path debug) as [[records n] out].
    cbn [returned]. eauto.
  - intros. apply fast_records_segment.
  - intros env img image_path t r.
    destruct (fast_record_fields env img image_path t)
      as (_ & _ & _ & _ & Hs & He & Hx & Hv).
    fold r in Hs, He, Hx, Hv. rewrite Hv, Hs, He, Hx.
    unfold ocr_page_fast.tile_texts. rewrite recognize_tile_spec.
    destruct (fast_region_text env img t Serial) as [s|];
      [destruct (fast_region_text env img t Epic) as [e|];
       [destruct (fast_region_text env img t Text) as [x|]|]|];
      cbn [from_option id fst snd]; auto.
  - intros env saved d H. unfold ocr_page_python.ocr_region. rewrite H. reflexivity.
  - intros env img image_path Hperm t kind Hin.
    rewrite (python_lookup_text env img image_path Hperm t kind Hin).
    apply result_text_stripped.
  - intros env image_path output_csv [img Hi] Hd.
    unfold ocr_page_python.process_page. rewrite Hi.
    destruct (ocr_page_python.page_records env img image_path) as [[records csv] out].
    destruct records; cbn [returned]; [eauto|].
    rewrite Hd. cbn [negb returned]. eauto.
Qed.

Lemma C7_recognition_failures_witness :
  is_Some (returned (ocr_page_fast.process_page text_failing_engine (utf8 "page.png")
                                               (utf8 "out.csv") false)).
Proof.
  refine (proj1 C7_recognition_failures text_failing_engine _ _ _ _ _).
  - reflexivity.
  - vm_compute. eauto.
Defined.

(** ** The output file *)

(** An engine on a machine where every page image is 100 by 100 pixels, too
    small for any tile. *)
Definition thumbnail_engine : ocr_page_fast.environment :=
  {| ocr_page_fast.open_image := fun path => Some (Opened path 100 100 true);
     ocr_page_fast.engine_available := true;
     ocr_page_fast.recognize := fun _ _ => Some [] |}.

(** The specification's header rule, read on the persistent-engine script: every run that ends
    normally leaves a file that starts with the header row. *)
Definition header_in_every_output : Prop :=
  forall env image_path output_csv debug,
    is_Some (returned (ocr_page_fast.process_page env image_path output_csv debug)) ->
    exists body,
      written (ocr_page_fast.process_page env image_path output_csv debug)
      = [(output_csv, csv_keys :: body)].

Lemma C8_counterexample : ~ header_in_every_output.
Proof.
  intros H.
  destruct (H thumbnail_engine (utf8 "page.png") (utf8 "out.csv") false) as [body Hbody].
  - vm_compute. eauto.
  - vm_compute in Hbody. discriminate Hbody.
Qed.

Section DirectoryOutput.
Import parse_ocr.
Variable fs : filesystem.

Lemma process_page_dirs_written (ocr_base : str) (dirs : list str) :
  forall (all_records : list voter_record) (w : world),
    written (snd (for_each dirs
      (fun all_records page_id =>
         bind (process_page fs (path_join ocr_base page_id) page_id)
           (fun page_records =>
              let all_records := all_records ++ page_records in
              bind (if Z.of_nat (length all_records) mod 100 =? 0
                    then print (ProcessedSoFar (Z.of_nat (length all_records)))
                    else ret tt)
                   (fun _ => ret all_records)))
      all_records w)) = written w.
Proof.
  induction dirs as [|d dirs IH]; intros all_records w; cbn [for_each]; [reflexivity|].
  rewrite run_bind, IH, run_bind. cbv beta zeta. rewrite run_bind.
  destruct (process_page_world fs (path_join ocr_base d) d w) as (_ & Hw & _).
  set (w1 := snd (process_page fs (path_join ocr_base d) d w)) in *.
  unfold ret at 1. cbn [snd]. rewrite <- Hw.
  destruct (Z.of_nat _ mod 100 =? 0); reflexivity.
Qed.

Lemma process_directory_written (input_dir output_csv : str) (w : world) :
  let ocr_base := path_join input_dir (utf8 "ocr") in
  let all_records :=
    fst (process_page_dirs fs ocr_base (page_dirs fs ocr_base)
           (snd (print (FoundPages (Z.of_nat (length (page_dirs fs ocr_base)))) w))) in
  written (snd (process_directory fs input_dir output_csv w)) =
  written w ++
    (if fs_exists fs ocr_base then
       match all_records with
       | [] => []
       | _ :: _ => [(output_csv, fieldnames :: List.map csv_row all_records)]
       end
     else []).
Proof.
  intros ocr_base all_records. unfold process_directory. fold ocr_base.
  destruct (fs_exists fs ocr_base); cbn [negb].
  2: { unfold print. cbn [snd written]. now rewrite app_nil_r. }
  rewrite run_bind. cbv beta. rewrite run_bind. cbv beta.
  set (w0 := snd (print (FoundPages (Z.of_nat (length (page_dirs fs ocr_base)))) w)) in *.
  assert (Hw0 : written w0 = written w) by reflexivity.
  pose proof (process_page_dirs_written ocr_base (page_dirs fs ocr_base) [] w0) as Hd.
  fold (process_page_dirs fs ocr_base (page_dirs fs ocr_base)) in Hd.
  fold all_records.
  set (w1 := snd (process_page_dirs fs ocr_base (page_dirs fs ocr_base) w0)) in *.
  rewrite run_bind. cbv beta. rewrite run_bind. cbv beta. rewrite run_bind. cbv beta.
  assert (Htail : forall w2 : world,
            written (snd ((if total_tiles (fst (get_stats w2)) >? 0
                           then print (SuccessRate (valid_records (fst (get_stats w2)))
                                                   (total_tiles (fst (get_stats w2))))
                           else ret tt)
                          (snd (print (Statistics (fst (get_stats w2)))
                                      (snd (get_stats w2))))))
            = written w2).
  { intros w2. destruct (total_tiles (fst (get_stats w2)) >? 0); reflexivity. }
  rewrite Htail. rewrite <- Hw0, <- Hd.
  destruct all_records as [|r rs].
  - unfold print. cbn [snd written]. now rewrite app_nil_r.
  - rewrite run_bind. reflexivity.
Qed.
End DirectoryOutput.

(** C8 (as it holds). Whenever a run emits at least one record, the output
    file starts with a header row naming the fixed columns, in the same order
    for every run, followed by one row of as many cells per record. A run
    without records leaves an empty file without header (persistent-engine
    script) or no file at all (worker-pool script and directory parser). *)
Theorem C8_header_row :
  (forall env image_path output_csv debug img,
     ocr_page_fast.engine_available env = true ->
     ocr_page_fast.open_image env image_path = Some img ->
     written (ocr_page_fast.process_page env image_path output_csv debug) =
     [(output_csv,
       match fast_records env img image_path debug with
       | [] => []
       | r :: rs => csv_keys :: List.map csv_cells (r :: rs)
       end)]) /\
  (forall env image_path output_csv img,
     ocr_page_python.open_image env image_path = Some img ->
     written (ocr_page_python.process_page env image_path output_csv) =
     match python_records env img image_path with
     | [] => []
     | r :: rs =>
         if ocr_page_python.has_dirname output_csv
         then [(output_csv, csv_keys :: List.map csv_cells (r :: rs))]
         else []
     end) /\
  (forall fs input_dir output_csv w,
     let ocr_base := path_join input_dir (utf8 "ocr") in
     let all_records :=
       fst (parse_ocr.process_page_dirs fs ocr_base (parse_ocr.page_dirs fs ocr_base)
              (snd (parse_ocr.print
                      (parse_ocr.FoundPages
                         (Z.of_nat (length (parse_ocr.page_dirs fs ocr_base)))) w))) in
     parse_ocr.written (snd (parse_ocr.process_directory fs input_dir output_csv w)) =
     parse_ocr.written w ++
       (if fs_exists fs ocr_base then
          match all_records with
          | [] => []
          | _ :: _ =>
              [(output_csv, parse_ocr.fieldnames :: List.map parse_ocr.csv_row all_records)]
          end
        else [])) /\
  (forall r, length (csv_cells r) = length csv_keys) /\
  (forall r, length (parse_ocr.csv_row r) = length parse_ocr.fieldnames).
Proof.
  split; [|split; [|split; [|split]]].
  - intros env image_path output_csv debug img He Hi.
    unfold ocr_page_fast.process_page, fast_records. rewrite He, Hi. cbn [negb].
    destruct (ocr_page_fast.process_image env img image_path debug) as [[records n] out].
    cbn [written fst]. destruct records; reflexivity.
  - intros env image_path output_csv img Hi.
    unfold ocr_page_python.process_page, python_records. rewrite Hi.
    rewrite page_records_eq. cbn [fst snd].
    destruct (fst (fst (extraction_result env img image_path))) as [|d ds];
      [reflexivity|].
    cbn [List.map]. destruct (ocr_page_python.has_dirname output_csv); reflexivity.
  - intros fs input_dir output_csv w. apply process_directory_written.
  - intros r. reflexivity.
  - intros r. reflexivity.
Qed.

Lemma C8_header_row_witness :
  written (ocr_page_fast.process_page (constant_engine twenty_five) (utf8 "page.png")
                                      (utf8 "out/page.csv") false) =
  [(utf8 "out/page.csv",
    [csv_keys;
     csv_cells (make_csv_record (utf8 "page") (utf8 "00") 0 0 [] [] twenty_five true)])].
Proof.
  rewrite (proj1 C8_header_row (constant_engine twenty_five) (utf8 "page.png")
                 (utf8 "out/page.csv") false (small_page (utf8 "page.png")))
    by reflexivity.
  vm_compute. reflexivity.
Defined.

(** ** The two scripts side by side *)

(** On every in-bounds tile, each call of the persistent engine returns, and
    returns the text the worker of the same region returns. *)
Definition same_recognition (envf : ocr_page_fast.environment)
    (envp : ocr_page_python.environment) (img : image) (image_path : str) : Prop :=
  forall t kind,
    In t (segment (image_width img) (image_height img)) ->
    fast_region_text envf (grayscale img) t kind =
    Some (ocr_page_python.result_text (region_result envp img image_path t kind)).

(** The completion order is a reordering, and every image file can be
    saved. *)
Definition pool_works (envp : ocr_page_python.environment) : Prop :=
  (forall l, Permutation (ocr_page_python.as_completed envp l) l) /\
  (forall p, ocr_page_python.save_ok envp p = true).

(** The specification's equivalence: with the same recognized texts the two scripts emit the
    same records, validity flags included. *)
Definition strategies_interchangeable : Prop :=
  forall envf envp img image_path debug,
    pool_works envp -> same_recognition envf envp img image_path ->
    fast_records envf img image_path debug = python_records envp img image_path.

Lemma constant_pool_works (text : str) : pool_works (constant_pool text).
Proof.
  split; [|reflexivity]. intros l. cbn. symmetry. apply Permutation_rev.
Qed.

Lemma constant_same_recognition :
  same_recognition (constant_engine twenty_five) (constant_pool twenty_five)
                   (small_page (utf8 "page.png")) (utf8 "page.png").
Proof.
  intros t kind Hin.
  assert (Hseg : segment (image_width (small_page (utf8 "page.png")))
                         (image_height (small_page (utf8 "page.png"))) = [tile_at 0 0])
    by (vm_compute; reflexivity).
  rewrite Hseg in Hin. destruct Hin as [<- | []].
  destruct kind; vm_compute; reflexivity.
Qed.

Lemma C4_counterexample : ~ strategies_interchangeable.
Proof.
  intros H.
  specialize (H (constant_engine twenty_five) (constant_pool twenty_five)
                (small_page (utf8 "page.png")) (utf8 "page.png") false
                (constant_pool_works twenty_five) constant_same_recognition).
  vm_compute in H. discriminate H.
Qed.

(** A record with its validity flag replaced. *)
Definition with_valid (v : bool) (r : csv_record) : csv_record :=
  {| page := page r; record_id := record_id r; row := row r; col := col r;
     serial := serial r; epic := epic r; name := name r; father := father r;
     age := age r; address := address r; raw_text := raw_text r; valid := v |}.

(** The flag of the worker-pool script computed on a record. *)
Definition python_flag (r : csv_record) : bool :=
  ocr_page_python.is_valid (serial r) (epic r) (raw_text r).

Lemma python_valid_implies_fast (s e t : str) :
  ocr_page_python.is_valid s e t = true -> ocr_page_fast.is_valid e t = true.
Proof. rewrite python_is_valid_spec, fast_is_valid_spec. tauto. Qed.

(** C4 (as it holds). When the recognition calls of the two scripts return
    the same text for every region of every in-bounds tile, none of them
    fails and every image file can be saved, the worker-pool script emits,
    whatever the completion order of its workers, the records of the
    persistent-engine script in the same order with the same fields, except
    for the validity flag: it is recomputed by the worker-pool rule, and a
    record valid there is valid in the persistent-engine script. *)
Theorem C4_same_records_but_flag
    (envf : ocr_page_fast.environment) (envp : ocr_page_python.environment)
    (img : image) (image_path : str) (debug : bool) :
  pool_works envp -> same_recognition envf envp img image_path ->
  python_records envp img image_path =
    List.map (fun r => with_valid (python_flag r) r) (fast_records envf img image_path debug) /\
  (forall r, In r (fast_records envf img image_path debug) ->
             python_flag r = true -> valid r = true).
Proof.
  intros [Hperm Hsave] Hsame. split.
  - rewrite python_records_eq, fast_records_segment, map_map.
    unfold extracted_tiles. rewrite filter_all by (intros t; unfold saves_ok; now rewrite !Hsave).
    apply map_ext_in. intros t Hin.
    assert (Hex : In t (extracted_tiles envp img image_path)).
    { unfold extracted_tiles.
      rewrite filter_all by (intros x; unfold saves_ok; now rewrite !Hsave). exact Hin. }
    unfold ocr_page_python.record_csv, fast_record, ocr_page_fast.tile_texts.
    rewrite recognize_tile_spec, !Hsame by exact Hin. cbn [from_option id].
    cbn [tile_data ocr_page_python.rd_record_id ocr_page_python.rd_row
         ocr_page_python.rd_col].
    rewrite !(python_lookup_text envp img image_path Hperm t _ Hex).
    unfold region_result. rewrite !result_text_stripped.
    unfold with_valid, python_flag, make_csv_record. cbn. reflexivity.
  - intros r Hin Hflag. rewrite fast_records_segment in Hin.
    apply in_map_iff in Hin. destruct Hin as (t & <- & _).
    destruct (fast_record_fields envf (grayscale img) image_path t)
      as (_ & _ & _ & _ & _ & _ & _ & ->).
    eapply python_valid_implies_fast. exact Hflag.
Qed.

Lemma C4_same_records_but_flag_witness :
  python_records (constant_pool twenty_five) (small_page (utf8 "page.png")) (utf8 "page.png") =
  List.map (fun r => with_valid (python_flag r) r)
           (fast_records (constant_engine twenty_five) (small_page (utf8 "page.png"))
                         (utf8 "page.png") false).
Proof.
  exact (proj1 (C4_same_records_but_flag _ _ _ _ false (constant_pool_works twenty_five)
                  constant_same_recognition)).
Defined.

(** ** Text cleaning *)

(** The number of leading characters of [s] that satisfy [p]. *)
Fixpoint run_length (p : codepoint -> bool) (s : str) : nat :=
  match s with
  | c :: s' => if p c then S (run_length p s') else 0%nat
  | [] => 0%nat
  end.

(** Replace every maximal run of at least [lo] characters satisfying [p] by
    [repl] and keep everything else; [inside] tells that the characters
    before the current one belong to a run that was replaced. *)
Fixpoint collapse (p : codepoint -> bool) (lo : nat) (repl : str) (inside : bool) (s : str)
    : str :=
  match s with
  | [] => []
  | c :: s' =>
      if p c then
        if inside then collapse p lo repl true s'
        else if (lo <=? run_length p s)%nat then repl ++ collapse p lo repl true s'
        else c :: collapse p lo repl false s'
      else c :: collapse p lo repl false s'
  end.

Section GreedySubstitution.
Import re.
Variables (a : item) (lo : nat) (repl : str).
Hypothesis lo_positive : (1 <= lo)%nat.

Let p : codepoint -> bool := item_matches false a.

Lemma run_length_le (s : str) : (run_length p s <= length s)%nat.
Proof. induction s as [|c s IH]; cbn; [lia|]. destruct (p c); cbn; lia. Qed.

(** With a continuation that always succeeds, a greedy repetition without
    upper bound takes the whole run. *)
Lemma repeat_item_greedy {R} (f : str -> R) :
  forall (s : str) (n : nat) (prev : option codepoint),
    repeat_item false true lo None a n prev s (fun _ s' => Some (f s')) =
    if (lo <=? n + run_length p s)%nat then Some (f (drop (run_length p s) s)) else None.
Proof.
  induction s as [|c s IH]; intros n prev; cbn [repeat_item run_length or_else below].
  - rewrite Nat.add_0_r. cbn [drop]. reflexivity.
  - fold p. rewrite andb_true_r. destruct (p c) eqn:Ec.
    + rewrite IH. cbn [drop].
      replace (S n + run_length p s)%nat with (n + S (run_length p s))%nat by lia.
      destruct (Nat.leb_spec lo (n + S (run_length p s))) as [H|H]; [reflexivity|].
      cbn [or_else]. destruct (Nat.leb_spec lo n); [lia | reflexivity].
    + rewrite Nat.add_0_r. cbn [or_else drop]. reflexivity.
Qed.

Lemma match_here_greedy (prev : option codepoint) (s : str) :
  match_here false (Repeat true lo None a) prev s =
  if (lo <=? run_length p s)%nat
  then Some {| rest := drop (run_length p s) s; group1 := None |}
  else None.
Proof.
  unfold match_here. cbn [run].
  apply (repeat_item_greedy (fun s' => {| rest := s'; group1 := None |}) s 0 prev).
Qed.

(** [re.sub] with such a pattern replaces whole runs. *)
Lemma sub_from_collapse (s : str) :
  forall prev : option codepoint,
    sub_from (Repeat true lo None a) repl prev s 0 = collapse p lo repl false s /\
    sub_from (Repeat true lo None a) repl prev s (run_length p s) = collapse p lo repl true s.
Proof.
  induction s as [|c s IH]; intros prev.
  - cbn [sub_from run_length collapse]. rewrite match_here_greedy.
    cbn [run_length]. destruct (Nat.leb_spec lo 0); [lia|]. auto.
  - assert (H0 : sub_from (Repeat true lo None a) repl prev (c :: s) 0
                 = collapse p lo repl false (c :: s)).
    { cbn [sub_from collapse]. rewrite match_here_greedy. cbn [run_length].
      destruct (p c) eqn:Ec.
      - destruct (Nat.leb_spec lo (S (run_length p s))) as [H|H].
        + cbn [rest drop]. rewrite length_drop.
          pose proof (run_length_le s) as Hle.
          replace (length (c :: s) - (length s - run_length p s))%nat
            with (S (run_length p s)) by (cbn [length]; lia).
          now rewrite (proj2 (IH (Some c))).
        + now rewrite (proj1 (IH (Some c))).
      - destruct (Nat.leb_spec lo 0); [lia|]. now rewrite (proj1 (IH (Some c))). }
    split; [exact H0|].
    cbn [run_length]. destruct (p c) eqn:Ec.
    + cbn [sub_from collapse]. rewrite Ec. apply (IH (Some c)).
    + rewrite H0. cbn [collapse]. now rewrite Ec.
Qed.

Lemma sub_collapse (s : str) :
  sub (Repeat true lo None a) repl s = collapse p lo repl false s.
Proof. apply sub_from_collapse. Qed.
End GreedySubstitution.

(** Horizontal whitespace and the line break, as the two patterns of
    [clean_text] see them. *)
Definition is_hspace (c : codepoint) : bool := ((c =? 32) || (c =? 9))%N.
Definition is_newline (c : codepoint) : bool := (c =? 10)%N.

Lemma collapse_ext (p q : codepoint -> bool) (lo : nat) (repl : str) :
  (forall c, p c = q c) ->
  forall (s : str) (inside : bool), collapse p lo repl inside s = collapse q lo repl inside s.
Proof.
  intros H. assert (Hr : forall s, run_length p s = run_length q s).
  { induction s as [|c s IH]; cbn; [reflexivity|]. now rewrite H, IH. }
  induction s as [|c s IH]; intros inside; cbn [collapse]; [reflexivity|].
  now rewrite H, Hr, !IH.
Qed.

(** [clean_text] collapses every run of spaces and tabs to one space, then
    every run of three or more line breaks to two, then strips. *)
Lemma clean_text_collapse (text : str) :
  parse_ocr.clean_text text =
  strip (collapse is_newline 3 [10%N; 10%N] false
           (collapse is_hspace 1 [32%N] false text)).
Proof.
  unfold parse_ocr.clean_text, re.plus, re.at_least.
  rewrite !sub_collapse by lia. f_equal.
  rewrite (collapse_ext _ is_hspace) with (s := text).
  - apply collapse_ext. intros c.
    unfold re.item_matches, re.char_matches, is_newline. cbn [andb]. apply orb_false_r.
  - intros c. unfold re.item_matches, is_hspace. cbn [existsb re.set_item_matches].
    unfold re.char_matches. cbn [andb]. now rewrite !orb_false_r.
Qed.

Section CleanText.

Abbreviation squeeze := (collapse is_hspace 1 [32%N]).
Abbreviation fold_breaks := (collapse is_newline 3 [10%N; 10%N]).

(** [s] starts with a space or tab. *)
Definition first_hspace (s : str) : bool :=
  match s with
  | c :: _ => is_hspace c
  | [] => false
  end.

(** Every space or tab of [s] is a space that is not followed by a space
    or tab. *)
Fixpoint squeezed (s : str) : bool :=
  match s with
  | [] => true
  | c :: s' =>
      (if is_hspace c then (c =? 32)%N && negb (first_hspace s') else true)
      && squeezed s'
  end.

(** No run of three or more line breaks starts anywhere in [s]. *)
Fixpoint no_long_break (s : str) : bool :=
  match s with
  | [] => true
  | _ :: s' => (run_length is_newline s <? 3)%nat && no_long_break s'
  end.

Lemma newline_not_hspace (c : codepoint) : is_newline c = true -> is_hspace c = false.
Proof.
  unfold is_newline, is_hspace. intros H. apply N.eqb_eq in H. subst c. reflexivity.
Qed.

Lemma squeeze_inside_first (s : str) : first_hspace (squeeze true s) = false.
Proof.
  induction s as [|c s IH]; cbn [collapse]; [reflexivity|].
  destruct (is_hspace c) eqn:E; [exact IH | cbn [first_hspace]; exact E].
Qed.

Lemma squeeze_squeezed (s : str) : forall inside, squeezed (squeeze inside s) = true.
Proof.
  induction s as [|c s IH]; intros inside; cbn [collapse]; [reflexivity|].
  destruct (is_hspace c) eqn:E.
  - destruct inside; [apply IH|]. cbn [run_length]. rewrite E. cbn [Nat.leb app squeezed].
    rewrite squeeze_inside_first, IH. reflexivity.
  - cbn [squeezed]. rewrite E, IH. reflexivity.
Qed.

Lemma squeeze_inside_same (s : str) :
  first_hspace s = false -> squeeze true s = squeeze false s.
Proof.
  destruct s as [|c s]; [reflexivity|]. cbn [first_hspace collapse]. now intros ->.
Qed.

Lemma squeeze_fixed (s : str) : squeezed s = true -> squeeze false s = s.
Proof.
  induction s as [|c s IH]; [reflexivity|]. cbn [squeezed collapse run_length].
  intros H. apply andb_true_iff in H. destruct H as [Hc Hs].
  destruct (is_hspace c) eqn:E.
  - apply andb_true_iff in Hc. destruct Hc as [Hc Hf].
    apply N.eqb_eq in Hc. apply negb_true_iff in Hf. subst c.
    cbn [Nat.leb app]. rewrite squeeze_inside_same by exact Hf. now rewrite IH.
  - now rewrite IH.
Qed.

Lemma fold_breaks_first (s : str) :
  first_hspace (fold_breaks false s) = first_hspace s.
Proof.
  destruct s as [|c s]; [reflexivity|]. cbn [collapse].
  destruct (is_newline c) eqn:E; [|reflexivity].
  cbn [first_hspace]. rewrite (newline_not_hspace c E).
  destruct (3 <=? run_length is_newline (c :: s))%nat; cbn [app first_hspace].
  - reflexivity.
  - apply (newline_not_hspace c E).
Qed.

Lemma fold_breaks_squeezed (s : str) :
  squeezed s = true -> forall inside, squeezed (fold_breaks inside s) = true.
Proof.
  induction s as [|c s IH]; [reflexivity|]. cbn [squeezed].
  intros H inside. apply andb_true_iff in H. destruct H as [Hc Hs].
  cbn [collapse]. destruct (is_newline c) eqn:E.
  - destruct inside; [now apply IH|].
    destruct (3 <=? run_length is_newline (c :: s))%nat.
    + cbn [app squeezed is_hspace N.eqb orb]. now apply IH.
    + cbn [squeezed]. rewrite (newline_not_hspace c E). now apply IH.
  - cbn [squeezed]. rewrite fold_breaks_first, Hc. now apply IH.
Qed.

Lemma fold_breaks_inside_run (s : str) : run_length is_newline (fold_breaks true s) = 0%nat.
Proof.
  induction s as [|c s IH]; cbn [collapse]; [reflexivity|].
  destruct (is_newline c) eqn:E; [exact IH | cbn [run_length]; now rewrite E].
Qed.

Lemma fold_breaks_run (s : str) :
  (run_length is_newline (fold_breaks false s) <= run_length is_newline s)%nat /\
  (run_length is_newline (fold_breaks false s) <= 2)%nat.
Proof.
  induction s as [|c s [IH1 IH2]]; cbn [collapse]; [cbn; lia|].
  destruct (is_newline c) eqn:E.
  - destruct (Nat.leb_spec 3 (run_length is_newline (c :: s))) as [H|H].
    + change (run_length is_newline ([10%N; 10%N] ++ fold_breaks true s))
        with (S (S (run_length is_newline (fold_breaks true s)))).
      rewrite fold_breaks_inside_run. lia.
    + cbn [run_length] in H |- *. rewrite E in H |- *. lia.
  - cbn [run_length]. rewrite E. lia.
Qed.

Lemma fold_breaks_quiet (s : str) : forall inside, no_long_break (fold_breaks inside s) = true.
Proof.
  induction s as [|c s IH]; intros inside; cbn [collapse]; [reflexivity|].
  destruct (is_newline c) eqn:E.
  - destruct inside; [apply IH|].
    destruct (Nat.leb_spec 3 (run_length is_newline (c :: s))) as [H|H].
    + change (no_long_break ([10%N; 10%N] ++ fold_breaks true s))
        with ((S (S (run_length is_newline (fold_breaks true s))) <? 3)%nat
              && ((S (run_length is_newline (fold_breaks true s)) <? 3)%nat
                  && no_long_break (fold_breaks true s))).
      rewrite fold_breaks_inside_run, IH. reflexivity.
    + cbn [no_long_break]. rewrite IH, andb_true_r. apply Nat.ltb_lt.
      cbn [run_length] in H |- *. rewrite E in H |- *.
      destruct (fold_breaks_run s) as [H1 _]. lia.
  - cbn [no_long_break run_length]. rewrite E, IH. reflexivity.
Qed.

Lemma fold_breaks_fixed (s : str) : no_long_break s = true -> fold_breaks false s = s.
Proof.
  induction s as [|c s IH]; [reflexivity|]. cbn [no_long_break collapse].
  intros H. apply andb_true_iff in H. destruct H as [Hc Hs]. apply Nat.ltb_lt in Hc.
  destruct (is_newline c); [|now rewrite IH].
  destruct (Nat.leb_spec 3 (run_length is_newline (c :: s))); [lia | now rewrite IH].
Qed.

(** Both properties pass to the parts of a text. *)
Lemma squeezed_app (a b : str) :
  squeezed (a ++ b) = true -> squeezed a = true /\ squeezed b = true.
Proof.
  induction a as [|c a IH]; cbn [app squeezed]; [auto|].
  intros H. apply andb_true_iff in H. destruct H as [Hc Hs].
  destruct (IH Hs) as [Ha Hb]. split; [|exact Hb]. rewrite Ha, andb_true_r.
  destruct (is_hspace c); [|reflexivity].
  apply andb_true_iff in Hc. destruct Hc as [Hc Hf]. rewrite Hc. cbn [andb].
  destruct a; [reflexivity | exact Hf].
Qed.

Lemma run_length_app (a b : str) :
  (run_length is_newline a <= run_length is_newline (a ++ b))%nat.
Proof.
  induction a as [|c a IH]; cbn [app run_length]; [lia|].
  destruct (is_newline c); lia.
Qed.

Lemma no_long_break_app (a b : str) :
  no_long_break (a ++ b) = true -> no_long_break a = true /\ no_long_break b = true.
Proof.
  induction a as [|c a IH]; [cbn [app no_long_break]; auto|].
  change ((c :: a) ++ b) with (c :: (a ++ b)). cbn [no_long_break].
  intros H. apply andb_true_iff in H. destruct H as [Hc Hs].
  destruct (IH Hs) as [Ha Hb]. split; [|exact Hb]. rewrite Ha, andb_true_r.
  apply Nat.ltb_lt in Hc. apply Nat.ltb_lt.
  pose proof (run_length_app (c :: a) b) as Hle.
  change ((c :: a) ++ b) with (c :: (a ++ b)) in Hle. lia.
Qed.

Lemma strip_infix (s : str) : exists a b, s = a ++ strip s ++ b.
Proof.
  destruct (lstrip_suffix s) as (a & Ha & _).
  destruct (rstrip_prefix (lstrip s)) as (b & Hb & _).
  exists a, b. unfold strip. now rewrite <- Hb.
Qed.

(** [clean_text(clean_text(t)) == clean_text(t)] *)
Lemma clean_text_idempotent (text : str) :
  parse_ocr.clean_text (parse_ocr.clean_text text) = parse_ocr.clean_text text.
Proof.
  rewrite (clean_text_collapse (parse_ocr.clean_text text)).
  rewrite (clean_text_collapse text).
  set (u := fold_breaks false (squeeze false text)).
  destruct (strip_infix u) as (a & b & Hu).
  assert (Hsq : squeezed (strip u) = true).
  { assert (H : squeezed u = true)
      by (apply fold_breaks_squeezed, squeeze_squeezed).
    rewrite Hu in H. apply squeezed_app in H. destruct H as [_ H].
    now apply squeezed_app in H. }
  assert (Hq : no_long_break (strip u) = true).
  { assert (H : no_long_break u = true) by apply fold_breaks_quiet.
    rewrite Hu in H. apply no_long_break_app in H. destruct H as [_ H].
    now apply no_long_break_app in H. }
  rewrite (squeeze_fixed _ Hsq), (fold_breaks_fixed _ Hq). apply strip_idempotent.
Qed.
End CleanText.

(** A recognized name with two spaces inside. *)
Definition double_space_text : str := utf8 "नाम: A  B".

(** The specification's cleaning rule, read on [parse_hindi_text]: its patterns see the cleaned
    text. *)
Definition cleaning_before_every_pattern : Prop :=
  forall text : str,
    hindi.parse_hindi_text text = hindi.parse_hindi_text (parse_ocr.clean_text text).

Lemma C9_counterexample : ~ cleaning_before_every_pattern.
Proof.
  intros H. specialize (H double_space_text). vm_compute in H. discriminate H.
Qed.

Lemma fast_record_parsed (env : ocr_page_fast.environment) (img : image) (image_path : str)
    (t : tile) :
  let r := fast_record env img image_path t in
  name r = default [] (hindi.find hindi.name_pattern (raw_text r)) /\
  father r = default [] (hindi.find hindi.father_pattern (raw_text r)) /\
  age r = default [] (hindi.find hindi.age_pattern (raw_text r)) /\
  address r = default [] (hindi.find hindi.address_pattern (raw_text r)).
Proof.
  cbv zeta. unfold fast_record.
  destruct (ocr_page_fast.tile_texts env (Crop (record_box t) img)) as [[s e] x].
  unfold make_csv_record, hindi.parse_hindi_text.
  cbn [name father age address raw_text parsed_name parsed_father parsed_age parsed_address].
  auto.
Qed.

(** C9 (as it holds). [clean_text] collapses every run of spaces and tabs to
    one space, then every run of three or more line breaks to two, then
    strips, and cleaning a cleaned text changes nothing. [parse_tile] cleans
    its text before it applies any pattern, so on an already cleaned text it
    gives the same result as on the original; [parse_record] applies its
    patterns to the text file as read, and [parse_hindi_text] to the text as
    recognized. *)
Theorem C9_cleaning_idempotent :
  (forall text : str,
     parse_ocr.clean_text text =
     strip (collapse is_newline 3 [10%N; 10%N] false
              (collapse is_hspace 1 [32%N] false text))) /\
  (forall text : str,
     parse_ocr.clean_text (parse_ocr.clean_text text) = parse_ocr.clean_text text) /\
  (forall (strict_mode : bool) (text id : str) (w : parse_ocr.world),
     parse_ocr.parse_tile strict_mode (parse_ocr.clean_text text) id w =
     parse_ocr.parse_tile strict_mode text id w) /\
  (forall (strict_mode : bool) (text id : str) (w : parse_ocr.world)
          (r : parse_ocr.tile_record),
     fst (parse_ocr.parse_tile strict_mode text id w) = Some r ->
     forall f : parse_ocr.field,
       parse_ocr.tile_get r f =
       parse_ocr.extract_field (parse_ocr.PATTERNS f) (parse_ocr.clean_text text)) /\
  (forall (fs : filesystem) (record_id ocr_dir : str) (w : parse_ocr.world)
          (r : parse_ocr.voter_record),
     fst (parse_ocr.parse_record fs record_id ocr_dir w) = Some r ->
     forall f : parse_ocr.field,
       f <> parse_ocr.serial -> f <> parse_ocr.epic ->
       parse_ocr.voter_get r f =
       parse_ocr.extract_field (parse_ocr.PATTERNS f)
         (default [] (fs_read fs (parse_ocr.region_file ocr_dir record_id "_text.txt")))) /\
  (forall env img image_path debug r,
     In r (fast_records env img image_path debug) ->
     name r = default [] (hindi.find hindi.name_pattern (raw_text r)) /\
     father r = default [] (hindi.find hindi.father_pattern (raw_text r)) /\
     age r = default [] (hindi.find hindi.age_pattern (raw_text r)) /\
     address r = default [] (hindi.find hindi.address_pattern (raw_text r))).
Proof.
  split; [exact clean_text_collapse|]. split; [exact clean_text_idempotent|].
  split; [|split; [|split]].
  - intros strict_mode text id w. unfold parse_ocr.parse_tile.
    now rewrite clean_text_idempotent.
  - intros strict_mode text id w r. unfold parse_ocr.parse_tile.
    destruct (len (parse_ocr.clean_text text) <? 20); [discriminate|].
    match goal with |- context [parse_ocr.validate_tile _ ?rec _] => set (record := rec) end.
    rewrite (proj1 (validate_tile_spec strict_mode record w)).
    destruct (_ && _); [|discriminate]. intros [= <-] f. destruct f; reflexivity.
  - intros fs record_id ocr_dir w r. unfold parse_ocr.parse_record.
    rewrite !run_bind. cbv beta.
    match goal with |- context [parse_ocr.validate_record ?rec ?w0] =>
      set (record := rec); generalize w0 end.
    intros w0. rewrite validate_record_spec.
    destruct (_ && _); [|discriminate]. intros [= <-] f Hs He.
    destruct f; try reflexivity; contradiction.
  - intros env img image_path debug r Hin.
    rewrite fast_records_segment in Hin. apply in_map_iff in Hin.
    destruct Hin as (t & <- & _). apply fast_record_parsed.
Qed.

Lemma C9_cleaning_idempotent_witness :
  parse_ocr.tile_get
    {| parse_ocr.tile_id := utf8 "tile_00";
       parse_ocr.t_serial := utf8 "12";
       parse_ocr.t_epic := utf8 "abc1234567";
       parse_ocr.t_name := utf8 "राम कुमार";
       parse_ocr.t_relation := utf8 "श्याम";
       parse_ocr.t_house_no := utf8 "12";
       parse_ocr.t_age := utf8 "45";
       parse_ocr.t_gender := utf8 "पुरुष";
       parse_ocr.t_raw_text_length := 96 |} parse_ocr.age =
  parse_ocr.extract_field (parse_ocr.PATTERNS parse_ocr.age)
                          (parse_ocr.clean_text lower_case_epic_text).
Proof.
  destruct C9_cleaning_idempotent as (_ & _ & _ & H & _).
  refine (H false lower_case_epic_text (utf8 "tile_00") new_world _ _ parse_ocr.age).
  vm_compute. reflexivity.
Defined.

(** * Further properties *)

(** ** What a match captures *)

Section MatcherSoundness.
Import re.
Context {R : Type}.
Variable ignorecase : bool.

Lemma or_else_Some {A} (x y : option A) (v : A) :
  or_else x y = Some v -> x = Some v \/ y = Some v.
Proof. destruct x; cbn; auto. Qed.

(** Whatever a repetition returns was returned by its continuation, after a
    run of matching characters of an allowed length. *)
Lemma repeat_item_sound (greedy : bool) (lo : nat) (hi : option nat) (a : item)
    (k : option codepoint -> str -> option R) (res : R) :
  forall (s : str) (n : nat) (prev : option codepoint),
    repeat_item ignorecase greedy lo hi a n prev s k = Some res ->
    exists s1 s2,
      s = s1 ++ s2 /\ forallb (item_matches ignorecase a) s1 = true /\
      (lo <= n + length s1)%nat /\ (s1 = [] \/ within hi (n + length s1)) /\
      k (last_or prev s1) s2 = Some res.
Proof.
  induction s as [|c s IH]; intros n prev H; cbn [repeat_item] in H.
  - assert (Hstop : (if (lo <=? n)%nat then k prev [] else None) = Some res)
      by (destruct greedy; apply or_else_Some in H; destruct H as [H|H];
          try discriminate H; exact H).
    destruct (Nat.leb_spec lo n); [|discriminate Hstop].
    exists [], []. cbn [app forallb length last_or last].
    split; [reflexivity|]. split; [reflexivity|]. split; [lia|]. split; [now left|].
    exact Hstop.
  - set (stop := if (lo <=? n)%nat then k prev (c :: s) else None) in H.
    set (more := if item_matches ignorecase a c && below hi n
                 then repeat_item ignorecase greedy lo hi a (S n) (Some c) s k
                 else None) in H.
    assert (Hcases : more = Some res \/ stop = Some res)
      by (destruct greedy; apply or_else_Some in H; tauto).
    destruct Hcases as [Hmore | Hstop].
    + unfold more in Hmore.
      destruct (item_matches ignorecase a c) eqn:Em; [|discriminate Hmore].
      destruct (below hi n) eqn:Eb; [|discriminate Hmore].
      cbn [andb] in Hmore. apply IH in Hmore.
      destruct Hmore as (s1 & s2 & Hs & Hall & Hlo & Hhi & Hk).
      exists (c :: s1), s2. cbn [forallb length app]. rewrite Em, Hall, last_or_cons.
      split; [congruence|]. split; [reflexivity|]. split; [lia|]. split; [|exact Hk].
      right. destruct Hhi as [-> | Hhi].
      * cbn [length]. rewrite Nat.add_1_r. now apply below_within.
      * now rewrite Nat.add_succ_r.
    + unfold stop in Hstop. destruct (Nat.leb_spec lo n); [|discriminate Hstop].
      exists [], (c :: s). cbn [app forallb length last_or last].
      split; [reflexivity|]. split; [reflexivity|]. split; [lia|]. split; [now left|].
      exact Hstop.
Qed.

(** The texts a pattern can consume, positions and captures left
    aside. *)
Fixpoint spans (r : regex) (s : str) : Prop :=
  match r with
  | Lit x => Forall2 (fun xc c => char_matches ignorecase xc c = true) x s
  | One a => exists c, s = [c] /\ item_matches ignorecase a c = true
  | Repeat _ lo hi a =>
      forallb (item_matches ignorecase a) s = true /\
      (lo <= length s)%nat /\ (s = [] \/ within hi (length s))
  | Cat r1 r2 => exists s1 s2, s = s1 ++ s2 /\ spans r1 s1 /\ spans r2 s2
  | Alt r1 r2 => spans r1 s \/ spans r2 s
  | Group r1 => spans r1 s
  | WordBoundary | Bol | Eol => s = []
  end.

Lemma lit_sound (x : str) (k : cont) (res : R) :
  forall (s : str) (prev : option codepoint) (cap : option str),
    lit ignorecase x prev s cap k = Some res ->
    exists s1 s2 prev',
      s = s1 ++ s2 /\ Forall2 (fun xc c => char_matches ignorecase xc c = true) x s1 /\
      k prev' s2 cap = Some res.
Proof.
  induction x as [|xc x IH]; intros s prev cap H; cbn [lit] in H.
  - exists [], s, prev. auto using Forall2_nil.
  - destruct s as [|c s]; [discriminate H|].
    destruct (char_matches ignorecase xc c) eqn:Ec; [|discriminate H].
    apply IH in H. destruct H as (s1 & s2 & prev' & -> & Hall & Hk).
    exists (c :: s1), s2, prev'. auto using Forall2_cons.
Qed.

(** A pattern without a group. *)
Fixpoint groupless (r : regex) : bool :=
  match r with
  | Group _ => false
  | Cat r1 r2 | Alt r1 r2 => groupless r1 && groupless r2
  | _ => true
  end.

(** A pattern without a group consumes a text it spans and hands the
    captured text on unchanged. *)
Lemma run_groupless_sound (r : regex) :
  groupless r = true ->
  forall (k : cont) (res : R) (s : str) (prev : option codepoint) (cap : option str),
    run ignorecase r prev s cap k = Some res ->
    exists s1 s2 prev', s = s1 ++ s2 /\ spans r s1 /\ k prev' s2 cap = Some res.
Proof.
  induction r as [x | a | greedy lo hi a | r1 IH1 r2 IH2 | r1 IH1 r2 IH2 | r1 IH1 | | |];
    intros Hg k res s prev cap H; cbn [run groupless spans] in *.
  - apply (lit_sound x k res s prev cap H).
  - destruct s as [|c s]; [discriminate H|].
    destruct (item_matches ignorecase a c) eqn:Ea; [|discriminate H].
    exists [c], s, (Some c). eauto 6.
  - apply repeat_item_sound in H. destruct H as (s1 & s2 & Hs & Hall & Hlo & Hhi & Hk).
    exists s1, s2, (last_or prev s1). cbn [plus] in Hlo, Hhi. auto 6.
  - apply andb_true_iff in Hg. destruct Hg as [Hg1 Hg2].
    apply (IH1 Hg1) in H. destruct H as (s1 & s2 & prev1 & -> & Hs1 & H).
    apply (IH2 Hg2) in H. destruct H as (s3 & s4 & prev2 & -> & Hs3 & H).
    exists (s1 ++ s3), s4, prev2. rewrite <- app_assoc. eauto 8.
  - apply andb_true_iff in Hg. destruct Hg as [Hg1 Hg2].
    apply or_else_Some in H.
    destruct H as [H|H]; [apply (IH1 Hg1) in H | apply (IH2 Hg2) in H];
      destruct H as (s1 & s2 & prev' & Hs & Hsp & Hk); exists s1, s2, prev'; auto.
  - discriminate Hg.
  - destruct (at_boundary prev s); [|discriminate H]. exists [], s, prev. auto.
  - destruct prev; [discriminate H|]. exists [], s, None. auto.
  - exists [], s, prev. split; [reflexivity|]. split; [reflexivity|].
    destruct s as [|c s']; [exact H|].
    destruct c as [|p]; [discriminate H|].
    do 4 (destruct p as [p|p|]; try discriminate H).
    destruct s'; [exact H | discriminate H].
Qed.

(** A group around such a pattern captures a text the pattern spans. *)
Lemma run_group_sound (r : regex) (k : cont) (res : R) (s : str)
    (prev : option codepoint) (cap : option str) :
  groupless r = true ->
  run ignorecase (Group r) prev s cap k = Some res ->
  exists s1 s2 prev', s = s1 ++ s2 /\ spans r s1 /\ k prev' s2 (Some s1) = Some res.
Proof.
  cbn [run]. intros Hg H. apply (run_groupless_sound r Hg) in H.
  destruct H as (s1 & s2 & prev' & -> & Hsp & Hk).
  exists s1, s2, prev'.
  rewrite length_app in Hk.
  replace (length s1 + length s2 - length s2)%nat with (length s1) in Hk by lia.
  rewrite take_app_length in Hk. auto.
Qed.
End MatcherSoundness.

(** A pattern written as a sequence with one group, nothing else in it
    capturing. *)
Definition grouped (before : list re.regex) (r : re.regex) (after : list re.regex)
    : re.regex :=
  re.seq_ (before ++ re.Group r :: after).

Section OneGroup.
Import re.
Variables (ignorecase : bool) (r : regex).
Variable after : list regex.
Hypothesis r_groupless : groupless r = true.
Hypothesis after_groupless : forallb groupless after = true.

Lemma seq_groupless (rs : list regex) :
  forallb groupless rs = true -> groupless (seq_ rs) = true.
Proof.
  induction rs as [|r0 rs IH]; cbn [forallb seq_ foldr groupless]; [reflexivity|].
  intros H. apply andb_true_iff in H. destruct H as [-> H]. now apply IH.
Qed.

Lemma grouped_match_here (before : list regex) :
  forallb groupless before = true ->
  forall (prev : option codepoint) (s : str) (m : match_object),
    match_here ignorecase (grouped before r after) prev s = Some m ->
    exists d, group1 m = Some d /\ spans ignorecase r d.
Proof.
  unfold match_here, grouped. generalize (@None str) as cap.
  induction before as [|r0 rs IH]; intros cap before_groupless prev s m H.
  - cbn [app seq_ foldr] in H.
    change (foldr Cat (Lit []) after) with (seq_ after) in H.
    change (run ignorecase (Cat (Group r) (seq_ after)) prev s cap
              (fun _ s' cap' => Some {| rest := s'; group1 := cap' |}))
      with (run ignorecase (Group r) prev s cap
              (fun prev' s' cap' =>
                 run ignorecase (seq_ after) prev' s' cap'
                     (fun _ s'' cap'' => Some {| rest := s''; group1 := cap'' |}))) in H.
    apply (run_group_sound ignorecase r _ _ _ _ _ r_groupless) in H.
    destruct H as (d & s2 & prev' & -> & Hd & H).
    apply (run_groupless_sound ignorecase (seq_ after) (seq_groupless after after_groupless))
      in H.
    destruct H as (s3 & s4 & prev'' & _ & _ & [= <-]).
    exists d. cbn [group1]. auto.
  - cbn [forallb] in before_groupless. apply andb_true_iff in before_groupless.
    destruct before_groupless as [Hr Hrs].
    cbn [app seq_ foldr run] in H.
    apply (run_groupless_sound ignorecase r0 Hr) in H.
    destruct H as (s1 & s2 & prev' & _ & _ & H).
    apply (IH cap Hrs prev' s2 m). exact H.
Qed.

Lemma search_from_sound (p : regex) (m : match_object) :
  forall (s : str) (prev : option codepoint),
    search_from ignorecase p prev s = Some m ->
    exists before_match from_match prev',
      s = before_match ++ from_match /\ match_here ignorecase p prev' from_match = Some m.
Proof.
  induction s as [|c s IH]; intros prev H; cbn [search_from] in H.
  - destruct (match_here ignorecase p prev []) eqn:E; [|discriminate H].
    exists [], [], prev. split; [reflexivity|]. congruence.
  - destruct (match_here ignorecase p prev (c :: s)) eqn:E.
    + exists [], (c :: s), prev. split; [reflexivity|]. congruence.
    + apply IH in H. destruct H as (b & f & prev' & -> & H).
      exists (c :: b), f, prev'. auto.
Qed.

(** What [re.search] captures with such a pattern. *)
Lemma grouped_search (before : list regex) (s : str) (m : match_object) :
  forallb groupless before = true ->
  search ignorecase (grouped before r after) s = Some m ->
  spans ignorecase r (group m).
Proof.
  unfold search. intros Hb H. apply search_from_sound in H.
  destruct H as (_ & f & prev' & _ & H). apply (grouped_match_here before Hb) in H.
  destruct H as (d & Hd & Hrun). unfold group. rewrite Hd. exact Hrun.
Qed.
End OneGroup.

(** ** Numbers captured by the parser's patterns *)

Lemma is_digit_cases (c : codepoint) :
  is_digit c = true ->
  In c [48; 49; 50; 51; 52; 53; 54; 55; 56; 57]%N.
Proof.
  unfold is_digit. intros H. apply andb_true_iff in H. destruct H as [Hlo Hhi].
  apply N.leb_le in Hlo. apply N.leb_le in Hhi. cbn [In].
  assert (Hc : (c = 48 \/ c = 49 \/ c = 50 \/ c = 51 \/ c = 52 \/ c = 53 \/ c = 54 \/
                c = 55 \/ c = 56 \/ c = 57)%N) by lia.
  intuition auto.
Qed.

(** [[0-9]] matches the ten ASCII digits and nothing else, with or without
    [re.IGNORECASE]. *)
Lemma ascii_digit_matches (ignorecase : bool) (c : codepoint) :
  re.item_matches ignorecase parse_ocr.ascii_digit c = is_digit c.
Proof.
  unfold parse_ocr.ascii_digit, is_digit.
  cbn [re.item_matches existsb re.set_item_matches]. rewrite orb_false_r.
  destruct ignorecase; [|reflexivity].
  assert (Hl : (re.lower c = c \/ (97 <= re.lower c /\ 65 <= c))%N).
  { unfold re.lower.
    destruct (N.leb_spec 65 c), (N.leb_spec c 90), (N.eqb_spec c 304), (N.eqb_spec c 8490);
      cbn [andb]; lia. }
  assert (Hu' : (48 <= re.upper (re.lower c) <= 57 -> re.upper (re.lower c) = re.lower c)%N).
  { unfold re.upper.
    destruct (N.leb_spec 97 (re.lower c)), (N.leb_spec (re.lower c) 122),
      (N.eqb_spec (re.lower c) 305), (N.eqb_spec (re.lower c) 383); cbn [andb]; lia. }
  destruct (N.leb_spec 48 c), (N.leb_spec c 57), (N.leb_spec 48 (re.lower c)),
    (N.leb_spec (re.lower c) 57), (N.leb_spec 48 (re.upper (re.lower c))),
    (N.leb_spec (re.upper (re.lower c)) 57); cbn [andb orb]; try reflexivity; lia.
Qed.

Lemma digit_not_space (c : codepoint) : is_digit c = true -> isspace c = false.
Proof.
  intros H. apply is_digit_cases in H. cbn [In] in H.
  repeat (destruct H as [<- | H]; [reflexivity|]). destruct H.
Qed.

Lemma digit_value_ascii (c : codepoint) :
  is_digit c = true -> isdecimal c = true /\ digit_value c = Some (c - 48)%N.
Proof.
  intros H. apply is_digit_cases in H. cbn [In] in H.
  repeat (destruct H as [<- | H]; [split; reflexivity|]). destruct H.
Qed.

Lemma forallb_head {A} (p : A -> bool) (l : list A) (x : A) :
  forallb p l = true -> head l = Some x -> p x = true.
Proof.
  destruct l as [|y l]; [discriminate|]. cbn [forallb head]. intros H [= <-].
  apply andb_true_iff in H. tauto.
Qed.

Lemma forallb_last {A} (p : A -> bool) (l : list A) (x : A) :
  forallb p l = true -> last l = Some x -> p x = true.
Proof.
  intros H Hl. rewrite forallb_forall in H. apply H.
  apply last_Some in Hl. destruct Hl as [l' ->]. apply in_or_app. right. now left.
Qed.

(** Stripping leaves a run of ASCII digits alone. *)
Lemma strip_digits (d : str) : forallb is_digit d = true -> strip d = d.
Proof.
  intros H. apply strip_fixed; intros c Hc; apply digit_not_space.
  - exact (forallb_head _ _ _ H Hc).
  - exact (forallb_last _ _ _ H Hc).
Qed.

Lemma int_digits_ascii (d : str) :
  forallb is_digit d = true ->
  forall acc : N,
    exists n : N,
      int_digits acc false d = Some n /\
      (acc * 10 ^ N.of_nat (length d) <= n < (acc + 1) * 10 ^ N.of_nat (length d))%N.
Proof.
  induction d as [|c d IH]; intros H acc; cbn [int_digits length].
  - exists acc. split; [reflexivity|]. cbn. lia.
  - cbn [forallb] in H. apply andb_true_iff in H. destruct H as [Hc Hd].
    destruct (digit_value_ascii c Hc) as [_ ->].
    assert (Hne : (c =? 95)%N = false).
    { apply N.eqb_neq. unfold is_digit in Hc. apply andb_true_iff in Hc.
      destruct Hc as [_ Hc]. apply N.leb_le in Hc. lia. }
    rewrite Hne. destruct (IH Hd (acc * 10 + (c - 48))%N) as (n & -> & Hlo & Hhi).
    exists n. split; [reflexivity|].
    rewrite Nat2N.inj_succ, N.pow_succ_r'.
    assert (Hrange : (48 <= c <= 57)%N).
    { unfold is_digit in Hc. apply andb_true_iff in Hc. destruct Hc as [H1 H2].
      apply N.leb_le in H1. apply N.leb_le in H2. lia. }
    set (P := (10 ^ N.of_nat (length d))%N) in *.
    assert (0 < P)%N by (apply N.neq_0_lt_0, N.pow_nonzero; lia).
    split; nia.
Qed.

(** [int] reads a non-empty run of ASCII digits as a number below the
    matching power of ten: it never raises on one. *)
Lemma int_ascii_digits (d : str) :
  d <> [] -> forallb is_digit d = true ->
  exists n : Z, int d = Some n /\ 0 <= n < 10 ^ Z.of_nat (length d).
Proof.
  intros Hne H. unfold int. rewrite (strip_digits d H).
  destruct d as [|c d']; [congruence|].
  assert (Hu : exists n : N, int_unsigned (c :: d') = Some n /\
                             (n < 10 ^ N.of_nat (length (c :: d')))%N).
  { unfold int_unsigned. pose proof H as H'. cbn [forallb] in H'.
    apply andb_true_iff in H'. destruct H' as [Hc _].
    destruct (digit_value_ascii c Hc) as [-> _].
    destruct (int_digits_ascii (c :: d') H 0%N) as (n & Hn & _ & Hhi).
    exists n. split; [exact Hn | lia]. }
  destruct Hu as (n & Hn & Hbound).
  assert (Hc : is_digit c = true)
    by (cbn [forallb] in H; apply andb_true_iff in H; tauto).
  exists (Z.of_N n). split.
  - apply is_digit_cases in Hc. cbn [In] in Hc.
    repeat (destruct Hc as [<- | Hc]; [rewrite Hn; reflexivity|]). destruct Hc.
  - split; [lia|].
    rewrite <- (N2Z.id (N.of_nat (length (c :: d')))) in Hbound.
    rewrite nat_N_Z in Hbound.
    apply N2Z.inj_lt in Hbound. rewrite N2Z.inj_pow in Hbound.
    rewrite Z2N.id in Hbound by lia. exact Hbound.
Qed.

(** A non-empty run of at most [n] ASCII digits. *)
Definition ascii_number (n : nat) (d : str) : Prop :=
  d <> [] /\ forallb is_digit d = true /\ (length d <= n)%nat.

(** What [extract_field] returns for a pattern whose group is
    [([0-9]{1,hi})]. *)
Lemma digits_field (before after : list re.regex) (hi : nat) (text : str) :
  forallb groupless before = true -> forallb groupless after = true ->
  let d := parse_ocr.extract_field
             (grouped before (re.counted 1 hi parse_ocr.ascii_digit) after) text in
  d = [] \/ ascii_number hi d.
Proof.
  intros Hb Ha. unfold parse_ocr.extract_field.
  destruct (re.search true _ text) as [m|] eqn:E; [|now left].
  apply (grouped_search true (re.counted 1 hi parse_ocr.ascii_digit) after eq_refl Ha
           before text m Hb) in E.
  destruct E as (Hall & Hlo & Hhi).
  rewrite (forallb_pointwise _ is_digit) in Hall by apply ascii_digit_matches.
  rewrite (strip_digits _ Hall). right. split; [|split].
  - intros Hnil. rewrite Hnil in Hlo. cbn in Hlo. lia.
  - exact Hall.
  - destruct Hhi as [Hnil | Hhi]; [rewrite Hnil; cbn; lia | exact Hhi].
Qed.

Lemma age_field_digits (text : str) :
  let a := parse_ocr.extract_field (parse_ocr.PATTERNS parse_ocr.age) text in
  a = [] \/ ascii_number 3 a.
Proof.
  apply (digits_field [re.Lit (utf8 "उम्र"); re.star parse_ocr.space_or_colon] [] 3 text);
    reflexivity.
Qed.

Lemma serial_field_digits (text : str) :
  let s := parse_ocr.extract_field (parse_ocr.PATTERNS parse_ocr.serial) text in
  s = [] \/ ascii_number 4 s.
Proof.
  apply (digits_field [re.WordBoundary] [re.WordBoundary] 4 text); reflexivity.
Qed.

Lemma record_serial_digits (text : str) :
  let s := parse_ocr.extract_field parse_ocr.RECORD_SERIAL text in
  s = [] \/ ascii_number 4 s.
Proof.
  apply (digits_field [re.WordBoundary] [re.WordBoundary] 4 text); reflexivity.
Qed.

Lemma ascii_number_int (n : nat) (d : str) :
  ascii_number n d -> exists v : Z, int d = Some v /\ 0 <= v < 10 ^ Z.of_nat n.
Proof.
  intros (Hne & Hall & Hlen). destruct (int_ascii_digits d Hne Hall) as (v & Hv & H0 & Hlt).
  exists v. split; [exact Hv|]. split; [exact H0|].
  apply Z.lt_le_trans with (1 := Hlt). apply Z.pow_le_mono_r; lia.
Qed.

(** X1. The serial and age fields the parser extracts are empty or plain
    numbers: the text the serial pattern [\b([0-9]{1,4})\b] yields is empty or
    one to four ASCII digits, the text the age pattern [उम्र[\s:]*([0-9]{1,3})]
    yields is empty or one to three ASCII digits, and [int] reads such a text
    as a number below 10000, respectively below 1000. This holds for the
    patterns of [parse_tile] and for those of [parse_record], although the
    search is case-insensitive and Unicode-aware. *)
Theorem X1_number_fields (text : str) :
  let tile_serial := parse_ocr.extract_field (parse_ocr.PATTERNS parse_ocr.serial) text in
  let record_serial := parse_ocr.extract_field parse_ocr.RECORD_SERIAL text in
  let age := parse_ocr.extract_field (parse_ocr.PATTERNS parse_ocr.age) text in
  (tile_serial = [] \/
   ascii_number 4 tile_serial /\ exists v, int tile_serial = Some v /\ 0 <= v <= 9999) /\
  (record_serial = [] \/
   ascii_number 4 record_serial /\ exists v, int record_serial = Some v /\ 0 <= v <= 9999) /\
  (age = [] \/ ascii_number 3 age /\ exists v, int age = Some v /\ 0 <= v <= 999).
Proof.
  cbv zeta. split; [|split].
  - destruct (serial_field_digits text) as [H|H]; [now left | right].
    split; [exact H|]. destruct (ascii_number_int 4 _ H) as (v & Hv & Hr).
    exists v. split; [exact Hv|]. change (10 ^ Z.of_nat 4) with 10000 in Hr. lia.
  - destruct (record_serial_digits text) as [H|H]; [now left | right].
    split; [exact H|]. destruct (ascii_number_int 4 _ H) as (v & Hv & Hr).
    exists v. split; [exact Hv|]. change (10 ^ Z.of_nat 4) with 10000 in Hr. lia.
  - destruct (age_field_digits text) as [H|H]; [now left | right].
    split; [exact H|]. destruct (ascii_number_int 3 _ H) as (v & Hv & Hr).
    exists v. split; [exact Hv|]. change (10 ^ Z.of_nat 3) with 1000 in Hr. lia.
Qed.

(** ** What the parser prints *)

Section Output.
Import parse_ocr.
Variable P : message -> Prop.

(** Whatever [m] prints satisfies [P]; the lines printed before stay. *)
Definition emits {A} (m : M A) : Prop :=
  forall w, exists l, stdout (snd (m w)) = stdout w ++ l /\ Forall P l.

Lemma emits_ret {A} (x : A) : emits (ret x).
Proof. intros w. exists []. cbn. rewrite app_nil_r. auto. Qed.

Lemma emits_bind {A B} (m : M A) (f : A -> M B) :
  emits m -> (forall x, emits (f x)) -> emits (bind m f).
Proof.
  intros Hm Hf w. rewrite run_bind.
  destruct (Hm w) as (l1 & E1 & H1).
  destruct (Hf (fst (m w)) (snd (m w))) as (l2 & E2 & H2).
  exists (l1 ++ l2). rewrite E2, E1, app_assoc. split; [reflexivity|].
  apply Forall_app. auto.
Qed.

Lemma emits_print (line : message) : P line -> emits (print line).
Proof. intros H w. exists [line]. cbn. auto. Qed.

Lemma emits_update_stats (f : statistics -> statistics) : emits (update_stats f).
Proof. intros w. exists []. cbn. rewrite app_nil_r. auto. Qed.

Lemma emits_get_stats : emits get_stats.
Proof. intros w. exists []. cbn. rewrite app_nil_r. auto. Qed.

Lemma emits_read_file (fs : filesystem) (path : str) : emits (read_file fs path).
Proof. intros w. exists []. cbn. rewrite app_nil_r. auto. Qed.

Lemma emits_write_csv (path : str) (rows : csv_file) : emits (write_csv path rows).
Proof. intros w. exists []. cbn. rewrite app_nil_r. auto. Qed.

Lemma emits_for_each {A B} (l : list A) (body : B -> A -> M B) :
  (forall acc x, emits (body acc x)) -> forall acc, emits (for_each l body acc).
Proof.
  intros Hbody. induction l as [|x l IH]; intros acc; cbn [for_each].
  - apply emits_ret.
  - apply emits_bind; auto.
Qed.

(** [parse_record] prints what [validate_record] prints. *)
Lemma emits_parse_record (fs : filesystem) (record_id ocr_dir : str) :
  (forall record,
     v_age record = extract_field (PATTERNS age)
                      (default [] (fs_read fs (region_file ocr_dir record_id "_text.txt"))) ->
     emits (validate_record record)) ->
  emits (parse_record fs record_id ocr_dir).
Proof.
  intros H w. unfold parse_record. rewrite !run_bind.
  match goal with |- context [validate_record ?r ?w'] =>
    destruct (H r eq_refl w') as (l & E & Hl) end.
  exists l. split; [|exact Hl]. rewrite E. reflexivity.
Qed.

Lemma emits_process_status_file (fs : filesystem) (ocr_dir page_id : str)
    (records : list voter_record) (status_file : str) :
  (forall record_id, emits (parse_record fs record_id ocr_dir)) ->
  emits (process_status_file fs ocr_dir page_id records status_file).
Proof.
  intros H. unfold process_status_file.
  apply emits_bind; [apply emits_update_stats|]. intros _.
  apply emits_bind.
  { unfold read_status. apply emits_bind; [apply emits_read_file|]. intros ?. apply emits_ret. }
  intros status. destruct (negb _).
  - apply emits_bind; [apply emits_update_stats|]. intros _. apply emits_ret.
  - apply emits_bind; [apply H|]. intros [record|];
      (apply emits_bind; [apply emits_update_stats|]); intros _; apply emits_ret.
Qed.

Lemma emits_process_page (fs : filesystem) (ocr_dir page_id : str) :
  (forall n, P (ProcessingPage page_id n)) ->
  (forall record_id, emits (parse_record fs record_id ocr_dir)) ->
  emits (process_page fs ocr_dir page_id).
Proof.
  intros Hp H. unfold process_page.
  apply emits_bind; [apply emits_print, Hp|]. intros _.
  apply emits_for_each. intros acc x. now apply emits_process_status_file.
Qed.

Lemma emits_process_directory (fs : filesystem) (input_dir output_csv : str) :
  (forall m, match m with
             | ProcessingPage _ _ | DirectoryNotFound _ | FoundPages _ | ProcessedSoFar _
             | WroteRecords _ _ | NoValidRecords | Statistics _ | SuccessRate _ _ => P m
             | _ => True
             end) ->
  (forall record_id ocr_dir, emits (parse_record fs record_id ocr_dir)) ->
  emits (process_directory fs input_dir output_csv).
Proof.
  intros Hp H. unfold process_directory. cbv zeta.
  destruct (negb _).
  { apply emits_print. apply (Hp (DirectoryNotFound _)). }
  apply emits_bind; [apply emits_print, (Hp (FoundPages _))|]. intros _.
  apply emits_bind.
  { unfold process_page_dirs. apply emits_for_each. intros acc page.
    apply emits_bind.
    - apply emits_process_page; [intros n; apply (Hp (ProcessingPage _ _)) | intros; apply H].
    - intros page_records. cbv zeta. apply emits_bind; [|intros _; apply emits_ret].
      destruct (_ =? _); [apply emits_print, (Hp (ProcessedSoFar _)) | apply emits_ret]. }
  intros all_records. apply emits_bind.
  { destruct all_records.
    - apply emits_print, (Hp NoValidRecords).
    - apply emits_bind; [apply emits_write_csv|]. intros _.
      apply emits_print, (Hp (WroteRecords _ _)). }
  intros _. apply emits_bind; [apply emits_get_stats|]. intros s.
  apply emits_bind; [apply emits_print, (Hp (Statistics _))|]. intros _.
  destruct (_ >? _); [apply emits_print, (Hp (SuccessRate _ _)) | apply emits_ret].
Qed.
End Output.

(** The lines of the two [except ValueError] branches. *)
Definition reports_non_numeric_age (m : parse_ocr.message) : bool :=
  match m with
  | parse_ocr.TileNonNumericAge _ _ | parse_ocr.RecordNonNumericAge _ _ => true
  | _ => false
  end.

Lemma age_field_numeric (text : str) :
  let a := parse_ocr.extract_field (parse_ocr.PATTERNS parse_ocr.age) text in
  a = [] \/ is_Some (int a).
Proof.
  destruct (age_field_digits text) as [H|H]; [now left | right].
  destruct (ascii_number_int 3 _ H) as (v & Hv & _). now exists v.
Qed.

Section NumericAge.
Import parse_ocr.

Lemma validate_tile_numeric (strict_mode : bool) (record : tile_record) :
  t_age record = [] \/ is_Some (int (t_age record)) ->
  emits (fun m => reports_non_numeric_age m = false) (validate_tile strict_mode record).
Proof.
  intros Hage. unfold validate_tile. cbv zeta.
  assert (Hepic : emits (fun m => reports_non_numeric_age m = false)
            (if truthy (t_epic record)
                && negb (bool_decide (is_Some (re.match_ false EPIC_FORMAT (t_epic record))))
             then bind (print (TileInvalidEpic (tile_id record) (t_epic record)))
                       (fun _ => if strict_mode then ret None else ret (Some record))
             else ret (Some record))).
  { destruct (_ && _); [|apply emits_ret].
    apply emits_bind; [apply emits_print; reflexivity|].
    intros _. destruct strict_mode; apply emits_ret. }
  destruct (List.filter _ _).
  - destruct (truthy (t_age record)) eqn:Et; [|exact Hepic].
    destruct (int (t_age record)) eqn:Ei.
    + destruct (_ || _); [|exact Hepic].
      apply emits_bind; [apply emits_print; reflexivity|]. intros _. apply emits_ret.
    + exfalso. destruct Hage as [H|[v H]]; [|discriminate H].
      rewrite H in Et. vm_compute in Et. discriminate Et.
  - apply emits_bind; [apply emits_print; reflexivity|]. intros _. apply emits_ret.
Qed.

Lemma validate_record_numeric (record : voter_record) :
  v_age record = [] \/ is_Some (int (v_age record)) ->
  emits (fun m => reports_non_numeric_age m = false) (validate_record record).
Proof.
  intros Hage. unfold validate_record. cbv zeta.
  destruct (List.filter _ _).
  - destruct (truthy (v_age record)) eqn:Et; [|apply emits_ret].
    destruct (int (v_age record)) eqn:Ei.
    + destruct (_ || _); [|apply emits_ret].
      apply emits_bind; [apply emits_print; reflexivity|]. intros _. apply emits_ret.
    + exfalso. destruct Hage as [H|[v H]]; [|discriminate H].
      rewrite H in Et. vm_compute in Et. discriminate Et.
  - apply emits_bind; [apply emits_print; reflexivity|]. intros _. apply emits_ret.
Qed.

Lemma parse_record_numeric (fs : filesystem) (record_id ocr_dir : str) :
  emits (fun m => reports_non_numeric_age m = false) (parse_record fs record_id ocr_dir).
Proof.
  apply emits_parse_record. intros record Hrecord.
  apply validate_record_numeric. rewrite Hrecord. apply age_field_numeric.
Qed.
End NumericAge.

(** X2. The "Non-numeric age" branches are dead code. The age the parser
    hands to [int] always comes from the group [([0-9]{1,3})], so [int] never
    raises [ValueError]: whatever the OCR text and the files on disk,
    [parse_tile], [parse_record] and a whole run of [process_directory] only
    add lines to the output, and none of the added lines is a "Non-numeric
    age" line. *)
Theorem X2_age_is_always_numeric :
  (forall (strict_mode : bool) (ocr_text tile_id : str) (w : parse_ocr.world),
     exists lines,
       parse_ocr.stdout (snd (parse_ocr.parse_tile strict_mode ocr_text tile_id w)) =
         parse_ocr.stdout w ++ lines /\
       Forall (fun m => reports_non_numeric_age m = false) lines) /\
  (forall (fs : filesystem) (record_id ocr_dir : str) (w : parse_ocr.world),
     exists lines,
       parse_ocr.stdout (snd (parse_ocr.parse_record fs record_id ocr_dir w)) =
         parse_ocr.stdout w ++ lines /\
       Forall (fun m => reports_non_numeric_age m = false) lines) /\
  (forall (fs : filesystem) (input_dir output_csv : str) (w : parse_ocr.world),
     exists lines,
       parse_ocr.stdout (snd (parse_ocr.process_directory fs input_dir output_csv w)) =
         parse_ocr.stdout w ++ lines /\
       Forall (fun m => reports_non_numeric_age m = false) lines).
Proof.
  split; [|split].
  - intros strict_mode ocr_text tile_id.
    change (emits (fun m => reports_non_numeric_age m = false)
                  (parse_ocr.parse_tile strict_mode ocr_text tile_id)).
    unfold parse_ocr.parse_tile. cbv zeta.
    destruct (_ <? _); [apply emits_ret|].
    apply validate_tile_numeric. cbn [parse_ocr.t_age]. apply age_field_numeric.
  - intros fs record_id ocr_dir. apply parse_record_numeric.
  - intros fs input_dir output_csv. apply emits_process_directory.
    + intros []; reflexivity.
    + intros. apply parse_record_numeric.
Qed.

(** ** Pages of other sizes *)

Lemma filter_filter_implied {A} (p q : A -> bool) (l : list A) :
  (forall x, p x = true -> q x = true) ->
  List.filter p (List.filter q l) = List.filter p l.
Proof.
  intros H. induction l as [|x l IH]; cbn [List.filter]; [reflexivity|].
  destruct (q x) eqn:Eq; cbn [List.filter]; [now rewrite IH|].
  destruct (p x) eqn:Ep; [|exact IH]. rewrite (H x Ep) in Eq. discriminate Eq.
Qed.

(** X3. Cutting a page down only drops tiles: the tiles of a page are those
    tiles of any page at least as wide and as high that still fit, in the same
    order and with the same identifiers and coordinates. *)
Theorem X3_smaller_page_keeps_fitting_tiles (width height width' height' : Z) :
  width <= width' -> height <= height' ->
  segment width height =
  List.filter (fun t => negb (out_of_bounds width height t)) (segment width' height').
Proof.
  intros Hw Hh. rewrite (segment_filter width' height'), (segment_filter width height).
  symmetry. apply filter_filter_implied. intros t Ht.
  apply negb_true_iff in Ht. apply negb_true_iff.
  apply not_true_is_false. intros Hout. apply not_true_iff_false in Ht. apply Ht.
  apply out_of_bounds_spec. apply out_of_bounds_spec in Hout. lia.
Qed.

Lemma X3_smaller_page_keeps_fitting_tiles_witness :
  segment 640 480 =
  List.filter (fun t => negb (out_of_bounds 640 480 t)) (segment 926 1297).
Proof. apply X3_smaller_page_keeps_fitting_tiles; lia. Defined.

Lemma grid_origin :
  Forall (fun t => 22 <= tile_x t /\ 42 <= tile_y t) grid.
Proof.
  apply List.Forall_forall. intros t Ht.
  assert (H : forallb (fun t => (22 <=? tile_x t) && (42 <=? tile_y t)) grid = true)
    by (vm_compute; reflexivity).
  rewrite forallb_forall in H. specialize (H t Ht).
  apply andb_true_iff in H. destruct H as [H1 H2]. split; now apply Z.leb_le.
Qed.

Lemma filter_none {A} (p : A -> bool) (l : list A) :
  (forall x, In x l -> p x = false) -> List.filter p l = [].
Proof.
  induction l as [|x l IH]; intros H; cbn [List.filter]; [reflexivity|].
  rewrite (H x (or_introl eq_refl)). apply IH. intros y Hy. apply H. now right.
Qed.

(** A page has no tile exactly when the first tile does not fit. *)
Lemma segment_empty (width height : Z) :
  segment width height = [] <-> width < 320 \/ height < 163.
Proof.
  rewrite segment_filter. split.
  - intros H. destruct (Z.lt_ge_cases width 320) as [|Hw]; [now left|].
    destruct (Z.lt_ge_cases height 163) as [|Hh]; [now right|]. exfalso.
    assert (Hin : In (tile_at 0 0) grid) by (vm_compute; now left).
    assert (Hfit : negb (out_of_bounds width height (tile_at 0 0)) = true).
    { apply negb_true_iff, not_true_is_false. rewrite out_of_bounds_spec.
      change (tile_x (tile_at 0 0)) with 22. change (tile_y (tile_at 0 0)) with 42. lia. }
    assert (Hmem : In (tile_at 0 0)
                      (List.filter (fun t => negb (out_of_bounds width height t)) grid))
      by (apply filter_In; auto).
    rewrite H in Hmem. destruct Hmem.
  - intros H. apply filter_none. intros t Ht.
    pose proof grid_origin as Ho. rewrite List.Forall_forall in Ho.
    destruct (Ho t Ht) as [Hx Hy].
    apply negb_false_iff. apply out_of_bounds_spec. lia.
Qed.

Section SmallPage.
Import ocr_page_python.
Variables (env : environment) (img : image) (boxes : Path).

(** A run of the extraction loop over tiles none of which fits: one warning
    per tile, nothing extracted, nothing saved. *)
Lemma extract_loop_outside (width height : Z) (l : list tile) :
  (forall t, In t l -> out_of_bounds width height t = true) ->
  forall (records : list record_data) (saved : gmap str image) (out : list message),
    fold_left
      (fun acc t =>
         if out_of_bounds width height t
         then (let '(records, saved, out) := acc in
               (records, saved, out ++ [WarningOutOfBounds (tile_record_id t)]))
         else extract_tile env img boxes t acc)
      l (records, saved, out) =
    (records, saved, out ++ List.map (fun t => WarningOutOfBounds (tile_record_id t)) l).
Proof.
  induction l as [|t l IH]; intros H records saved out; cbn [fold_left List.map].
  - now rewrite app_nil_r.
  - rewrite (H t (or_introl eq_refl)). rewrite IH by (intros t' Ht'; apply H; now right).
    now rewrite <- app_assoc.
Qed.
End SmallPage.

(** X4. A page too small for the first tile. The grid has no tile on a page
    exactly when the page is narrower than 320 or lower than 163 pixels. On
    such a page the worker-pool script warns about each of the thirty
    positions, prints that no records were extracted and returns [None]
    without creating the output file, whatever the output path is. *)
Theorem X4_page_without_tiles :
  (forall width height : Z, segment width height = [] <-> width < 320 \/ height < 163) /\
  (forall (env : ocr_page_python.environment) (image_path output_csv : str) (img : image),
     ocr_page_python.open_image env image_path = Some img ->
     image_width img < 320 \/ image_height img < 163 ->
     ocr_page_python.process_page env image_path output_csv =
     {| returned := Some None;
        printed :=
          [ocr_page_python.ProcessingPage image_path]
          ++ List.map (fun n => ocr_page_python.WarningOutOfBounds (two_digits n)) (seq 0 30)
          ++ [ocr_page_python.NoRecordsExtracted];
        written := [] |}).
Proof.
  split; [exact segment_empty|].
  intros env image_path output_csv img Hopen Hsmall.
  assert (Hout : forall t, In t grid ->
                           out_of_bounds (image_width img) (image_height img) t = true).
  { intros t Ht. apply segment_empty in Hsmall. rewrite segment_filter in Hsmall.
    apply negb_false_iff. apply (filter_nil_false _ _ _ Hsmall Ht). }
  unfold ocr_page_python.process_page. rewrite Hopen.
  unfold ocr_page_python.page_records, ocr_page_python.extract_record_regions.
  rewrite grid_loop_fold, (extract_loop_outside env img _ _ _ grid Hout).
  cbn [flat_map List.map]. rewrite <- app_assoc. cbn [app].
  repeat f_equal.
Qed.

(** A page image of 100 by 100 pixels and a pool that would recognise
    nothing. *)
Definition thumbnail_pool : ocr_page_python.environment :=
  {| ocr_page_python.open_image := fun path => Some (Opened path 100 100 true);
     ocr_page_python.mkdtemp := utf8 "/tmp/tmp0";
     ocr_page_python.save_ok := fun _ => true;
     ocr_page_python.tesseract := fun _ _ => ocr_page_python.Exits 0 (Some []);
     ocr_page_python.as_completed := fun l => l |}.

Lemma X4_page_without_tiles_witness :
  ocr_page_python.process_page thumbnail_pool (utf8 "page.png") (utf8 "out.csv") =
  {| returned := Some None;
     printed :=
       [ocr_page_python.ProcessingPage (utf8 "page.png")]
       ++ List.map (fun n => ocr_page_python.WarningOutOfBounds (two_digits n)) (seq 0 30)
       ++ [ocr_page_python.NoRecordsExtracted];
     written := [] |}.
Proof.
  destruct X4_page_without_tiles as [_ H].
  apply (H thumbnail_pool (utf8 "page.png") (utf8 "out.csv")
           (Opened (utf8 "page.png") 100 100 true)); [reflexivity | left; cbn; lia].
Defined.

(** ** The rows of one page *)

Lemma segment_length (width height : Z) : (length (segment width height) <= 30)%nat.
Proof.
  rewrite segment_filter.
  apply Nat.le_trans with (1 := List.filter_length_le _ grid). vm_compute. lia.
Qed.

Lemma fast_record_ids (env : ocr_page_fast.environment) (img : image) (image_path : str)
    (debug : bool) :
  List.map record_id (fast_records env img image_path debug) =
  List.map tile_record_id (segment (image_width img) (image_height img)).
Proof.
  rewrite fast_records_segment, List.map_map. apply List.map_ext. intros t.
  apply (fast_record_fields env (grayscale img) image_path t).
Qed.

Lemma python_record_ids (env : ocr_page_python.environment) (img : image)
    (image_path : str) :
  List.map record_id (python_records env img image_path) =
  List.map tile_record_id (extracted_tiles env img image_path).
Proof.
  rewrite python_records_eq, List.map_map. apply List.map_ext. intros t.
  apply (python_record_fields image_path (ocr_results env img image_path)
           (tile_data env image_path t)).
Qed.

(** X5. Within one page no two rows carry the same [record_id], and a page
    gives at most thirty rows, in both page scripts: whatever the image, the
    recognition results, the failures while saving and the order in which the
    worker pool delivers. *)
Theorem X5_record_ids_unique :
  (forall (env : ocr_page_fast.environment) (img : image) (image_path : str) (debug : bool),
     let rows := fast_records env img image_path debug in
     List.NoDup (List.map record_id rows) /\ (length rows <= 30)%nat) /\
  (forall (env : ocr_page_python.environment) (img : image) (image_path : str),
     let rows := python_records env img image_path in
     List.NoDup (List.map record_id rows) /\ (length rows <= 30)%nat).
Proof.
  split.
  - intros env img image_path debug rows. split.
    + unfold rows. rewrite fast_record_ids, segment_filter.
      apply NoDup_map_filter, grid_ids_distinct.
    + rewrite <- (List.length_map record_id). unfold rows.
      rewrite fast_record_ids, List.length_map. apply segment_length.
  - intros env img image_path rows. split.
    + unfold rows. rewrite python_record_ids. apply extracted_ids_distinct.
    + rewrite <- (List.length_map record_id). unfold rows.
      rewrite python_record_ids, List.length_map. unfold extracted_tiles.
      apply Nat.le_trans with (1 := List.filter_length_le _ _). apply segment_length.
Qed.

Section FastCounts.
Import ocr_page_fast.
Variables (env : environment) (img : image) (image_path : str) (debug : bool).

Definition count_valid (rows : list csv_record) : Z :=
  Z.of_nat (length (List.filter valid rows)).

Lemma process_tile_valid_count (t : tile) (acc : loop_state) :
  snd (fst (process_tile env img image_path debug t acc)) =
  snd (fst acc) + count_valid [fast_record env img image_path t].
Proof.
  destruct acc as [[records valid_count] out]. unfold process_tile, fast_record, count_valid.
  destruct (tile_texts env (Crop (record_box t) img)) as [[serial epic] text].
  cbn [fst snd List.filter]. destruct (make_csv_record_fields (path_stem image_path)
    (tile_record_id t) (tile_row t) (tile_col t) serial epic text (is_valid epic text))
    as (_ & _ & _ & _ & _ & _ & _ & ->).
  destruct (is_valid epic text); cbn [length]; lia.
Qed.

Lemma count_valid_app (a b : list csv_record) :
  count_valid (a ++ b) = count_valid a + count_valid b.
Proof. unfold count_valid. rewrite List.filter_app, length_app. lia. Qed.

(** The counter [valid_count] keeps step with the rows collected. *)
Lemma fast_loop_valid_count (width height : Z) (l : list tile) (acc : loop_state) :
  snd (fst (fold_left
              (fun acc t => if out_of_bounds width height t then acc
                            else process_tile env img image_path debug t acc)
              l acc)) =
  snd (fst acc)
  + count_valid (List.map (fast_record env img image_path)
                   (List.filter (fun t => negb (out_of_bounds width height t)) l)).
Proof.
  revert acc. induction l as [|t l IH]; intros acc; cbn [fold_left List.filter List.map].
  - unfold count_valid. cbn. lia.
  - rewrite IH. destruct (out_of_bounds width height t); cbn [negb List.map]; [reflexivity|].
    rewrite process_tile_valid_count.
    change (fast_record env img image_path t
              :: List.map (fast_record env img image_path)
                   (List.filter (fun t => negb (out_of_bounds width height t)) l))
      with ([fast_record env img image_path t]
              ++ List.map (fast_record env img image_path)
                   (List.filter (fun t => negb (out_of_bounds width height t)) l)).
    rewrite (count_valid_app [fast_record env img image_path t]). lia.
Qed.
End FastCounts.

Lemma fast_valid_count (env : ocr_page_fast.environment) (img0 : image)
    (image_path : str) (debug : bool) :
  snd (fst (ocr_page_fast.process_image env img0 image_path debug)) =
  count_valid (fast_records env img0 image_path debug).
Proof.
  rewrite fast_records_segment.
  unfold ocr_page_fast.process_image. fold (grayscale img0).
  destruct (grayscale_size img0) as [-> ->].
  rewrite grid_loop_fold, fast_loop_valid_count, segment_filter. cbn [fst snd]. lia.
Qed.

(** X6. The summary the persistent-engine script returns counts what it
    wrote: [total_records] is the number of rows of the page and
    [valid_records], which the loop counts up tile by tile, is the number of
    rows whose [valid] flag is set; so 0 <= valid_records <= total_records
    <= 30. The "Completed" line, the last one printed, shows the same two
    numbers. *)
Theorem X6_fast_summary_counts (env : ocr_page_fast.environment)
    (image_path output_csv : str) (debug : bool) (img : image) :
  ocr_page_fast.engine_available env = true ->
  ocr_page_fast.open_image env image_path = Some img ->
  let rows := fast_records env img image_path debug in
  let result := ocr_page_fast.process_page env image_path output_csv debug in
  returned result =
    Some {| summary_page := path_stem image_path;
            total_records := Z.of_nat (length rows);
            summary_valid_records := count_valid rows;
            csv_file := output_csv |} /\
  last (printed result) =
    Some (ocr_page_fast.Completed (count_valid rows) (Z.of_nat (length rows)) output_csv) /\
  0 <= count_valid rows <= Z.of_nat (length rows) /\ Z.of_nat (length rows) <= 30.
Proof.
  intros Hengine Hopen rows result. unfold result, ocr_page_fast.process_page.
  rewrite Hengine, Hopen. cbn [negb].
  pose proof (fast_valid_count env img image_path debug) as Hvalid.
  fold rows in Hvalid. unfold rows at 1 2 3 4, fast_records.
  destruct (ocr_page_fast.process_image env img image_path debug)
    as [[csv_records valid_count] lines] eqn:E.
  unfold rows, fast_records in Hvalid. rewrite E in Hvalid. cbn [fst snd] in Hvalid.
  cbn [returned printed fst snd]. rewrite Hvalid.
  split; [reflexivity|]. split.
  - rewrite !app_assoc. apply last_snoc.
  - unfold count_valid. pose proof (List.filter_length_le valid csv_records).
    assert (Hlen : (length rows <= 30)%nat).
    { unfold rows. rewrite <- (List.length_map record_id), fast_record_ids, List.length_map.
      apply segment_length. }
    unfold rows, fast_records in Hlen. rewrite E in Hlen. cbn [fst] in Hlen.
    unfold rows, fast_records. rewrite E. cbn [fst]. lia.
Qed.

Lemma X6_fast_summary_counts_witness :
  returned (ocr_page_fast.process_page (constant_engine twenty_five) (utf8 "page.png")
                                       (utf8 "out/page.csv") false) =
  Some {| summary_page := utf8 "page";
          total_records := 1;
          summary_valid_records := 1;
          csv_file := utf8 "out/page.csv" |}.
Proof.
  apply (X6_fast_summary_counts (constant_engine twenty_five) (utf8 "page.png")
           (utf8 "out/page.csv") false (small_page (utf8 "page.png")));
    reflexivity.
Defined.

(** ** The order in which the pool delivers *)

(** The same machine with another delivery order. *)
Definition with_order (env : ocr_page_python.environment)
    (order : list ocr_page_python.ocr_result -> list ocr_page_python.ocr_result)
    : ocr_page_python.environment :=
  {| ocr_page_python.open_image := ocr_page_python.open_image env;
     ocr_page_python.mkdtemp := ocr_page_python.mkdtemp env;
     ocr_page_python.save_ok := ocr_page_python.save_ok env;
     ocr_page_python.tesseract := ocr_page_python.tesseract env;
     ocr_page_python.as_completed := order |}.

(** The row of a tile, from the results of its own three tasks. *)
Definition row_of_tile (env : ocr_page_python.environment) (img : image) (image_path : str)
    (t : tile) : csv_record :=
  let text_of kind := ocr_page_python.result_text (region_result env img image_path t kind) in
  make_csv_record (path_stem image_path) (tile_record_id t) (tile_row t) (tile_col t)
    (text_of Serial) (text_of Epic) (text_of Text)
    (ocr_page_python.is_valid (text_of Serial) (text_of Epic) (text_of Text)).

Lemma python_records_by_tile (env : ocr_page_python.environment) (img : image)
    (image_path : str) :
  (forall l, Permutation (ocr_page_python.as_completed env l) l) ->
  python_records env img image_path =
  List.map (row_of_tile env img image_path) (extracted_tiles env img image_path).
Proof.
  intros Hperm. rewrite python_records_eq. apply List.map_ext_in. intros t Ht.
  unfold ocr_page_python.record_csv, row_of_tile.
  cbn [ocr_page_python.rd_record_id ocr_page_python.rd_row ocr_page_python.rd_col tile_data].
  rewrite !(python_lookup_text env img image_path Hperm t _ Ht).
  unfold region_result. rewrite !result_text_stripped. reflexivity.
Qed.

Lemma page_records_parts (env : ocr_page_python.environment) (img : image)
    (image_path : str) :
  ocr_page_python.page_records env img image_path =
  (fst (fst (extraction_result env img image_path)),
   python_records env img image_path,
   snd (extraction_result env img image_path)).
Proof. unfold python_records. rewrite page_records_eq. reflexivity. Qed.

(** X7. The order in which the worker pool delivers its results does not
    matter. As long as every submitted task is delivered exactly once, two
    runs that differ only in the delivery order print the same lines, write
    the same file and return the same summary. *)
Theorem X7_delivery_order_irrelevant (env : ocr_page_python.environment)
    (order1 order2 : list ocr_page_python.ocr_result -> list ocr_page_python.ocr_result)
    (image_path output_csv : str) :
  (forall l, Permutation (order1 l) l) -> (forall l, Permutation (order2 l) l) ->
  ocr_page_python.process_page (with_order env order1) image_path output_csv =
  ocr_page_python.process_page (with_order env order2) image_path output_csv.
Proof.
  intros H1 H2. unfold ocr_page_python.process_page.
  cbn [ocr_page_python.open_image with_order].
  destruct (ocr_page_python.open_image env image_path) as [img|]; [|reflexivity].
  assert (E : ocr_page_python.page_records (with_order env order1) img image_path =
              ocr_page_python.page_records (with_order env order2) img image_path).
  { rewrite !page_records_parts.
    rewrite (python_records_by_tile (with_order env order1) img image_path H1).
    rewrite (python_records_by_tile (with_order env order2) img image_path H2).
    reflexivity. }
  rewrite E. reflexivity.
Qed.

Lemma X7_delivery_order_irrelevant_witness :
  ocr_page_python.process_page (with_order (constant_pool twenty_five) (@rev _))
                               (utf8 "page.png") (utf8 "out/page.csv") =
  ocr_page_python.process_page (with_order (constant_pool twenty_five) (fun l => l))
                               (utf8 "page.png") (utf8 "out/page.csv").
Proof.
  apply X7_delivery_order_irrelevant; intros l;
    [symmetry; apply Permutation_rev | reflexivity].
Defined.

(** ** The shape of cleaned text *)

Lemma squeezed_no_tab (s : str) : squeezed s = true -> ~ In 9%N s.
Proof.
  induction s as [|c s IH]; cbn [squeezed In]; [tauto|].
  intros H. apply andb_true_iff in H. destruct H as [Hc Hs].
  intros [-> | Hin]; [|exact (IH Hs Hin)].
  change (is_hspace 9%N) with true in Hc. cbn in Hc. discriminate Hc.
Qed.

Lemma squeezed_no_double_space (s a b : str) :
  squeezed s = true -> s <> a ++ [32%N; 32%N] ++ b.
Proof.
  intros H ->. apply squeezed_app in H. destruct H as [_ H].
  cbn in H. discriminate H.
Qed.

Lemma no_long_break_no_triple (s a b : str) :
  no_long_break s = true -> s <> a ++ [10%N; 10%N; 10%N] ++ b.
Proof.
  intros H ->. apply no_long_break_app in H. destruct H as [_ H].
  cbn [app no_long_break] in H. apply andb_true_iff in H. destruct H as [H _].
  apply Nat.ltb_lt in H.
  change (run_length is_newline (10%N :: 10%N :: 10%N :: b))
    with (S (S (S (run_length is_newline b)))) in H. lia.
Qed.

(** Replacing runs by a text no longer than the shortest run replaced never
    lengthens. *)
Lemma collapse_length (p : codepoint -> bool) (lo : nat) (repl : str) (s : str) :
  (length repl <= lo)%nat ->
  (length (collapse p lo repl true s) + run_length p s <= length s)%nat /\
  (length (collapse p lo repl false s) <= length s)%nat.
Proof.
  intros Hrepl. induction s as [|c s [IHin IHout]]; [cbn; lia|].
  cbn [collapse]. cbn [run_length]. destruct (p c) eqn:Ep.
  - split; [cbn [length]; lia|].
    destruct (Nat.leb_spec lo (S (run_length p s))).
    + rewrite length_app. cbn [length]. lia.
    + cbn [length]. lia.
  - cbn [length]. lia.
Qed.

Lemma strip_length (s : str) : (length (strip s) <= length s)%nat.
Proof.
  destruct (strip_infix s) as (a & b & H).
  rewrite H at 2. rewrite !length_app. lia.
Qed.

Lemma clean_text_length (text : str) : len (parse_ocr.clean_text text) <= len text.
Proof.
  unfold len. rewrite clean_text_collapse. apply inj_le.
  apply Nat.le_trans with (1 := strip_length _).
  apply Nat.le_trans
    with (1 := proj2 (collapse_length is_newline 3 [10%N; 10%N] _ ltac:(cbn; lia))).
  apply (collapse_length is_hspace 1 [32%N] text). cbn. lia.
Qed.

Lemma clean_text_squeezed (text : str) :
  squeezed (parse_ocr.clean_text text) = true /\
  no_long_break (parse_ocr.clean_text text) = true.
Proof.
  rewrite clean_text_collapse.
  set (u := collapse is_newline 3 [10%N; 10%N] false (collapse is_hspace 1 [32%N] false text)).
  destruct (strip_infix u) as (a & b & Hu). split.
  - assert (H : squeezed u = true) by (apply fold_breaks_squeezed, squeeze_squeezed).
    rewrite Hu in H. apply squeezed_app in H. destruct H as [_ H].
    now apply squeezed_app in H.
  - assert (H : no_long_break u = true) by apply fold_breaks_quiet.
    rewrite Hu in H. apply no_long_break_app in H. destruct H as [_ H].
    now apply no_long_break_app in H.
Qed.

(** X8. What [clean_text] guarantees about its result: it contains no tab,
    no two spaces in a row and no three newlines in a row, it neither starts
    nor ends with a whitespace character, and it is never longer than the
    text it was made from. *)
Theorem X8_cleaned_text_shape (text : str) :
  let cleaned := parse_ocr.clean_text text in
  ~ In 9%N cleaned /\
  (forall a b, cleaned <> a ++ [32%N; 32%N] ++ b) /\
  (forall a b, cleaned <> a ++ [10%N; 10%N; 10%N] ++ b) /\
  (forall c, head cleaned = Some c -> isspace c = false) /\
  (forall c, last cleaned = Some c -> isspace c = false) /\
  len cleaned <= len text.
Proof.
  cbv zeta. destruct (clean_text_squeezed text) as [Hsq Hq].
  split; [exact (squeezed_no_tab _ Hsq)|].
  split; [intros a b; exact (squeezed_no_double_space _ a b Hsq)|].
  split; [intros a b; exact (no_long_break_no_triple _ a b Hq)|].
  split; [|split; [|apply clean_text_length]].
  - intros c. unfold parse_ocr.clean_text. apply strip_head.
  - intros c. unfold parse_ocr.clean_text. apply strip_last.
Qed.

Lemma X8_cleaned_text_shape_witness :
  head (parse_ocr.clean_text (utf8 "  a   b ")) = Some 97%N /\ isspace 97%N = false.
Proof.
  split; [vm_compute; reflexivity|].
  pose proof (X8_cleaned_text_shape (utf8 "  a   b ")) as H. cbv zeta in H.
  destruct H as (_ & _ & _ & H & _). apply H. vm_compute. reflexivity.
Defined.

(** X9. A tile whose OCR text has fewer than twenty characters is dropped
    without a trace: [parse_tile] returns [None], prints nothing and changes no
    counter, in both modes. Cleaning cannot make the text long enough. *)
Theorem X9_short_tile_dropped_silently (strict_mode : bool) (ocr_text tile_id : str)
    (w : parse_ocr.world) :
  len ocr_text < 20 ->
  parse_ocr.parse_tile strict_mode ocr_text tile_id w = (None, w).
Proof.
  intros Hshort. unfold parse_ocr.parse_tile. cbv zeta.
  pose proof (clean_text_length ocr_text) as Hlen.
  destruct (Z.ltb_spec (len (parse_ocr.clean_text ocr_text)) 20); [reflexivity | lia].
Qed.

Lemma X9_short_tile_dropped_silently_witness :
  parse_ocr.parse_tile true (utf8 "उम्र: 45 ABC1234567") (utf8 "tile_00") new_world =
  (None, new_world).
Proof.
  apply X9_short_tile_dropped_silently. vm_compute. reflexivity.
Defined.

(** ** Accepted records *)

Lemma truthy_spec (s : str) : parse_ocr.truthy s = true <-> s <> [].
Proof.
  unfold parse_ocr.truthy, str_eqb. rewrite negb_true_iff, bool_decide_eq_false. tauto.
Qed.

Section RecordFromFiles.
Import parse_ocr.
Variables (fs : filesystem) (record_id ocr_dir : str).

(** The dictionary [parse_record] builds from the three files of a
    record. *)
Definition record_from_files : voter_record :=
  let serial_text :=
    from_option strip [] (fs_read fs (region_file ocr_dir record_id "_serial.txt")) in
  let epic_text :=
    from_option strip [] (fs_read fs (region_file ocr_dir record_id "_epic.txt")) in
  let hindi_text := default [] (fs_read fs (region_file ocr_dir record_id "_text.txt")) in
  {| parse_ocr.record_id := record_id;
     v_serial := extract_field RECORD_SERIAL serial_text;
     v_epic := extract_field RECORD_EPIC epic_text;
     v_name := extract_field (PATTERNS name) hindi_text;
     v_relation := extract_field (PATTERNS relation) hindi_text;
     v_house_no := extract_field (PATTERNS house_no) hindi_text;
     v_age := extract_field (PATTERNS age) hindi_text;
     v_gender := extract_field (PATTERNS gender) hindi_text;
     v_raw_text_length := len hindi_text;
     page_id := None |}.

Lemma parse_record_validates (w : world) :
  exists w0,
    parse_record fs record_id ocr_dir w = validate_record record_from_files w0 /\
    stdout w0 = stdout w.
Proof.
  unfold parse_record. rewrite !run_bind. eexists. split; [reflexivity|]. reflexivity.
Qed.

Lemma parse_record_value (w : world) :
  fst (parse_record fs record_id ocr_dir w) =
  if bool_decide (record_missing record_from_files = [])
     && (negb (truthy (v_age record_from_files)) || age_in_range (v_age record_from_files))
  then Some record_from_files else None.
Proof.
  destruct (parse_record_validates w) as (w0 & -> & _). apply validate_record_spec.
Qed.

Lemma parse_record_accepts (w : world) (r : voter_record) :
  fst (parse_record fs record_id ocr_dir w) = Some r ->
  r = record_from_files /\ record_missing r = [] /\ age_in_range (v_age r) = true.
Proof.
  rewrite parse_record_value.
  destruct (bool_decide (record_missing record_from_files = [])) eqn:Em; [|discriminate].
  cbn [andb]. apply bool_decide_eq_true in Em. intros H.
  assert (Hage : truthy (v_age record_from_files) = true).
  { apply (filter_nil_false _ _ age) in Em; [|cbn; auto].
    now apply negb_false_iff in Em. }
  rewrite Hage in H. cbn [negb orb] in H.
  destruct (age_in_range (v_age record_from_files)) eqn:Ea; [|discriminate H].
  injection H as <-. auto.
Qed.
End RecordFromFiles.

(** A record with a readable serial and text but no EPIC file. *)
Definition no_epic_fs : filesystem :=
  {| fs_read := fun p =>
       if str_eqb p (utf8 "out/ocr/page1/record_00_serial.txt") then Some (utf8 "12" ++ [10%N])
       else if str_eqb p (utf8 "out/ocr/page1/record_00_text.txt") then Some scenario_text
       else None;
     fs_glob := fun _ => [];
     fs_exists := fun _ => false;
     fs_listdir := fun _ => [];
     fs_isdir := fun _ => false |}.

(** X10. An accepted record has its required fields. A tile [parse_tile]
    returns has a non-empty name, age and EPIC, and in strict mode a
    non-empty serial, relation, house number and gender as well. A record
    [parse_record] returns has a non-empty name, age and serial; its EPIC is
    not required and can be empty, as for a record whose EPIC file is
    missing. *)
Theorem X10_accepted_records_have_required_fields :
  (forall (strict_mode : bool) (ocr_text tile_id : str) (w : parse_ocr.world)
          (r : parse_ocr.tile_record),
     fst (parse_ocr.parse_tile strict_mode ocr_text tile_id w) = Some r ->
     parse_ocr.t_name r <> [] /\ parse_ocr.t_age r <> [] /\ parse_ocr.t_epic r <> [] /\
     (strict_mode = true ->
      parse_ocr.t_serial r <> [] /\ parse_ocr.t_relation r <> [] /\
      parse_ocr.t_house_no r <> [] /\ parse_ocr.t_gender r <> [])) /\
  (forall (fs : filesystem) (record_id ocr_dir : str) (w : parse_ocr.world)
          (r : parse_ocr.voter_record),
     fst (parse_ocr.parse_record fs record_id ocr_dir w) = Some r ->
     parse_ocr.v_name r <> [] /\ parse_ocr.v_age r <> [] /\ parse_ocr.v_serial r <> []) /\
  (exists r : parse_ocr.voter_record,
     fst (parse_ocr.parse_record no_epic_fs (utf8 "record_00") scenario_dir new_world) = Some r /\
     parse_ocr.v_epic r = []).
Proof.
  split; [|split].
  - intros strict_mode ocr_text tile_id w r H.
    destruct (parse_tile_accepts strict_mode ocr_text tile_id w r H) as (Hp & _ & _).
    unfold passes_fields_and_age in Hp. apply andb_true_iff in Hp. destruct Hp as [Hm _].
    apply bool_decide_eq_true in Hm.
    assert (Hfield : forall f,
              In f (if strict_mode then parse_ocr.PATTERNS_keys else parse_ocr.REQUIRED_FIELDS) ->
              parse_ocr.tile_get r f <> []).
    { intros f Hf. apply truthy_spec. apply (filter_nil_false _ _ f) in Hm; [|exact Hf].
      now apply negb_false_iff in Hm. }
    split; [|split; [|split]].
    + apply (Hfield parse_ocr.name). destruct strict_mode; cbn; auto 10.
    + apply (Hfield parse_ocr.age). destruct strict_mode; cbn; auto 10.
    + apply (Hfield parse_ocr.epic). destruct strict_mode; cbn; auto 10.
    + intros ->. repeat split.
      * apply (Hfield parse_ocr.serial). cbn; auto 10.
      * apply (Hfield parse_ocr.relation). cbn; auto 10.
      * apply (Hfield parse_ocr.house_no). cbn; auto 10.
      * apply (Hfield parse_ocr.gender). cbn; auto 10.
  - intros fs record_id ocr_dir w r H.
    destruct (parse_record_accepts fs record_id ocr_dir w r H) as (_ & Hm & _).
    assert (Hfield : forall f, In f [parse_ocr.name; parse_ocr.age; parse_ocr.serial] ->
                               parse_ocr.voter_get r f <> []).
    { intros f Hf. apply truthy_spec. apply (filter_nil_false _ _ f) in Hm; [|exact Hf].
      now apply negb_false_iff in Hm. }
    split; [|split].
    + apply (Hfield parse_ocr.name). cbn; auto.
    + apply (Hfield parse_ocr.age). cbn; auto.
    + apply (Hfield parse_ocr.serial). cbn; auto.
  - eexists. split; [vm_compute; reflexivity | reflexivity].
Qed.

Lemma X10_accepted_records_have_required_fields_witness :
  let r := record_from_files no_epic_fs (utf8 "record_00") scenario_dir in
  parse_ocr.v_name r <> [] /\ parse_ocr.v_age r <> [] /\ parse_ocr.v_serial r <> [].
Proof.
  destruct X10_accepted_records_have_required_fields as (_ & H & _).
  apply (H no_epic_fs (utf8 "record_00") scenario_dir new_world).
  vm_compute. reflexivity.
Defined.

(** ** The records of a page and of a directory *)

Section PageRecords.
Import parse_ocr.
Variable fs : filesystem.

(** The checks of [parse_record] on the dictionary it built. *)
Definition accepts (record : voter_record) : bool :=
  bool_decide (record_missing record = [])
  && (negb (truthy (v_age record)) || age_in_range (v_age record)).

(** What a status file contributes to the records of its page. *)
Definition accepted_record (ocr_dir page : str) (status_file : str) : option voter_record :=
  let record := record_from_files fs (record_of status_file) ocr_dir in
  if marked_valid fs status_file && accepts record
  then Some (set_page_id page record) else None.

Definition accepted_records (ocr_dir page : str) : list voter_record :=
  omap (accepted_record ocr_dir page) (status_files fs ocr_dir).

Lemma process_status_file_result (ocr_dir page : str) (records : list voter_record)
    (status_file : str) (w : world) :
  let result := process_status_file fs ocr_dir page records status_file w in
  fst result = records ++ from_option (fun r => [r]) [] (accepted_record ocr_dir page status_file) /\
  valid_records (stats (snd result)) =
    valid_records (stats w)
    + (if accepted_record ocr_dir page status_file is Some _ then 1 else 0) /\
  invalid_records (stats (snd result)) =
    invalid_records (stats w)
    + (if marked_valid fs status_file
       then (if accepted_record ocr_dir page status_file is Some _ then 0 else 1) else 0).
Proof.
  cbv zeta. unfold accepted_record. destruct (marked_valid fs status_file) eqn:E.
  - pose proof (process_status_file_parse fs ocr_dir page records status_file w E) as H.
    cbv zeta in H.
    match type of H with context [parse_record fs ?i ?d ?w0] =>
      pose proof (parse_record_world fs i d w0) as Hw;
      pose proof (parse_record_value fs i d w0) as Hv;
      destruct (parse_record fs i d w0) as [parsed w1] end.
    destruct (process_status_file fs ocr_dir page records status_file w) as [records' w'].
    cbn [fst snd] in Hw, Hv |- *. destruct Hw as (Hs & _ & _). destruct H as (_ & _ & _ & H).
    fold (accepts (record_from_files fs (record_of status_file) ocr_dir)) in Hv.
    cbn [andb]. rewrite Hv in H.
    destruct (accepts (record_from_files fs (record_of status_file) ocr_dir));
      destruct H as [-> ->]; rewrite Hs; cbn; rewrite ?app_nil_r; repeat split; lia.
  - rewrite (process_status_file_skip fs _ _ _ _ _ E). cbn. rewrite app_nil_r.
    repeat split; lia.
Qed.

Lemma omap_cons_app {A B} (f : A -> option B) (x : A) (l : list A) :
  omap f (x :: l) = from_option (fun r => [r]) [] (f x) ++ omap f l.
Proof. cbn. destruct (f x); reflexivity. Qed.

Lemma status_loop_result (ocr_dir page : str) (files : list str) :
  forall (records : list voter_record) (w : world),
    let result := for_each files (process_status_file fs ocr_dir page) records w in
    fst result = records ++ omap (accepted_record ocr_dir page) files /\
    valid_records (stats (snd result)) =
      valid_records (stats w) + Z.of_nat (length (omap (accepted_record ocr_dir page) files)).
Proof.
  induction files as [|f files IH]; intros records w; cbv zeta.
  - cbn. rewrite app_nil_r. split; [reflexivity | lia].
  - cbn [for_each]. rewrite run_bind.
    destruct (process_status_file_result ocr_dir page records f w) as (Hr & Hv & _).
    destruct (IH (fst (process_status_file fs ocr_dir page records f w))
                 (snd (process_status_file fs ocr_dir page records f w))) as (IHr & IHv).
    rewrite IHr, IHv, Hr, Hv, omap_cons_app, <- app_assoc, length_app.
    split; [reflexivity|].
    destruct (accepted_record ocr_dir page f); cbn [from_option length]; lia.
Qed.

Lemma process_page_result (ocr_dir page : str) (w : world) :
  fst (process_page fs ocr_dir page w) = accepted_records ocr_dir page /\
  valid_records (stats (snd (process_page fs ocr_dir page w))) =
    valid_records (stats w) + Z.of_nat (length (accepted_records ocr_dir page)).
Proof.
  unfold process_page, accepted_records. rewrite run_bind.
  match goal with |- context [for_each ?l ?b ?a ?w0] =>
    destruct (status_loop_result ocr_dir page l a w0) as (Hr & Hv) end.
  rewrite Hr, Hv. split; reflexivity.
Qed.
End PageRecords.

(** X11. What [process_page] returns is a function of the files alone: the
    records are those of the status files the directory listing matches, taken
    in sorted order, that read VALID after stripping and whose three text
    files give a dictionary passing the checks of [parse_record], each with
    [page_id] set. The counter [valid_records] grows by their number.
    Counters, earlier output and files read before have no influence. *)
Theorem X11_page_records (fs : filesystem) (ocr_dir page : str) (w : parse_ocr.world) :
  let result := parse_ocr.process_page fs ocr_dir page w in
  fst result = omap (accepted_record fs ocr_dir page) (parse_ocr.status_files fs ocr_dir) /\
  parse_ocr.valid_records (parse_ocr.stats (snd result)) =
    parse_ocr.valid_records (parse_ocr.stats w) + Z.of_nat (length (fst result)) /\
  Forall (fun r => parse_ocr.page_id r = Some page) (fst result) /\
  (forall status_file r,
     accepted_record fs ocr_dir page status_file = Some r ->
     marked_valid fs status_file = true /\
     r = parse_ocr.set_page_id page (record_from_files fs (record_of status_file) ocr_dir) /\
     parse_ocr.record_id r = record_of status_file).
Proof.
  cbv zeta. destruct (process_page_result fs ocr_dir page w) as (Hr & Hv).
  rewrite Hr. unfold accepted_records in *.
  assert (Hacc : forall status_file r,
            accepted_record fs ocr_dir page status_file = Some r ->
            marked_valid fs status_file = true /\
            r = parse_ocr.set_page_id page (record_from_files fs (record_of status_file) ocr_dir) /\
            parse_ocr.record_id r = record_of status_file).
  { intros f r. unfold accepted_record.
    destruct (marked_valid fs f); [|discriminate]. cbn [andb].
    destruct (accepts _); [|discriminate]. intros [= <-]. auto. }
  split; [reflexivity|]. split; [exact Hv|]. split; [|exact Hacc].
  apply List.Forall_forall. intros r Hr'.
  apply list_elem_of_In, list_elem_of_omap in Hr'. destruct Hr' as (f & _ & Hf).
  destruct (Hacc f r Hf) as (_ & -> & _). reflexivity.
Qed.

Lemma X11_page_records_witness :
  marked_valid scenario_fs (utf8 "out/ocr/page1/record_00.status") = true.
Proof.
  eapply (X11_page_records scenario_fs scenario_dir (utf8 "page1") new_world).
  vm_compute. reflexivity.
Defined.

Section DirectoryRecords.
Import parse_ocr.
Variable fs : filesystem.

(** The accepted records of all pages under [ocr_base], page by page. *)
Definition directory_records (ocr_base : str) (pages : list str) : list voter_record :=
  flat_map (fun page => accepted_records fs (path_join ocr_base page) page) pages.

(** The body of the loop of [process_directory]. *)
Definition page_dirs_step (ocr_base : str) (all_records : list voter_record) (page_id : str)
    : M (list voter_record) :=
  bind (process_page fs (path_join ocr_base page_id) page_id)
    (fun page_records =>
       let all_records := all_records ++ page_records in
       bind (if Z.of_nat (length all_records) mod 100 =? 0
             then print (ProcessedSoFar (Z.of_nat (length all_records)))
             else ret tt)
            (fun _ => ret all_records)).

Lemma page_dirs_step_result (ocr_base : str) (all_records : list voter_record) (d : str)
    (w : world) :
  fst (page_dirs_step ocr_base all_records d w) =
    all_records ++ accepted_records fs (path_join ocr_base d) d /\
  valid_records (stats (snd (page_dirs_step ocr_base all_records d w))) =
    valid_records (stats w)
    + Z.of_nat (length (accepted_records fs (path_join ocr_base d) d)).
Proof.
  unfold page_dirs_step. rewrite run_bind. cbv beta zeta. rewrite run_bind.
  destruct (process_page_result fs (path_join ocr_base d) d w) as (Hr & Hv).
  rewrite Hr. unfold ret at 1 3. cbn [fst snd]. split; [reflexivity|].
  rewrite <- Hv. destruct (Z.of_nat _ mod 100 =? 0); reflexivity.
Qed.

Lemma process_page_dirs_result (ocr_base : str) (dirs : list str) :
  forall (all_records : list voter_record) (w : world),
    fst (for_each dirs (page_dirs_step ocr_base) all_records w) =
      all_records ++ directory_records ocr_base dirs /\
    valid_records (stats (snd (for_each dirs (page_dirs_step ocr_base) all_records w))) =
      valid_records (stats w) + Z.of_nat (length (directory_records ocr_base dirs)).
Proof.
  induction dirs as [|d dirs IH]; intros all_records w; cbn [for_each].
  - cbn. rewrite app_nil_r. split; [reflexivity | lia].
  - rewrite run_bind.
    destruct (page_dirs_step_result ocr_base all_records d w) as (Hr & Hv).
    destruct (IH (fst (page_dirs_step ocr_base all_records d w))
                 (snd (page_dirs_step ocr_base all_records d w))) as (IHr & IHv).
    rewrite IHr, IHv, Hr, Hv.
    unfold directory_records. cbn [flat_map]. rewrite <- app_assoc, length_app.
    split; [reflexivity | lia].
Qed.

Lemma process_directory_stats (input_dir output_csv : str) (w : world) :
  let ocr_base := path_join input_dir (utf8 "ocr") in
  stats (snd (process_directory fs input_dir output_csv w)) =
  if fs_exists fs ocr_base
  then stats (snd (process_page_dirs fs ocr_base (page_dirs fs ocr_base)
                     (snd (print (FoundPages (Z.of_nat (length (page_dirs fs ocr_base)))) w))))
  else stats w.
Proof.
  intros ocr_base. unfold process_directory. fold ocr_base.
  destruct (fs_exists fs ocr_base); cbn [negb]; [|reflexivity].
  rewrite run_bind. cbv beta. rewrite run_bind. cbv beta.
  set (w0 := snd (print (FoundPages (Z.of_nat (length (page_dirs fs ocr_base)))) w)).
  destruct (process_page_dirs fs ocr_base (page_dirs fs ocr_base) w0) as [all_records w1].
  cbn [fst snd]. rewrite run_bind. cbv beta. rewrite run_bind. cbv beta.
  rewrite run_bind. cbv beta.
  assert (Htail : forall w2 : world,
            stats (snd ((if total_tiles (fst (get_stats w2)) >? 0
                         then print (SuccessRate (valid_records (fst (get_stats w2)))
                                                 (total_tiles (fst (get_stats w2))))
                         else ret tt)
                        (snd (print (Statistics (fst (get_stats w2)))
                                    (snd (get_stats w2))))))
            = stats w2).
  { intros w2. destruct (total_tiles (fst (get_stats w2)) >? 0); reflexivity. }
  rewrite Htail. destruct all_records as [|r rs]; [reflexivity|].
  rewrite run_bind. reflexivity.
Qed.
End DirectoryRecords.

(** What a run of [process_directory] writes and counts when the [ocr]
    directory is there. *)
Lemma process_directory_result (fs : filesystem) (input_dir output_csv : str)
    (w : parse_ocr.world) :
  let ocr_base := path_join input_dir (utf8 "ocr") in
  let records := directory_records fs ocr_base (parse_ocr.page_dirs fs ocr_base) in
  let w' := snd (parse_ocr.process_directory fs input_dir output_csv w) in
  fs_exists fs ocr_base = true ->
  parse_ocr.written w' =
    parse_ocr.written w ++
      match records with
      | [] => []
      | _ :: _ => [(output_csv, parse_ocr.fieldnames :: List.map parse_ocr.csv_row records)]
      end /\
  parse_ocr.valid_records (parse_ocr.stats w') =
    parse_ocr.valid_records (parse_ocr.stats w) + Z.of_nat (length records).
Proof.
  intros ocr_base records w' Hexists.
  pose proof (process_directory_written fs input_dir output_csv w) as Hw.
  pose proof (process_directory_stats fs input_dir output_csv w) as Hs.
  cbv zeta in Hw, Hs. fold ocr_base in Hw, Hs. rewrite Hexists in Hw, Hs.
  fold w' in Hw, Hs. rewrite Hw, Hs.
  change (parse_ocr.process_page_dirs fs ocr_base (parse_ocr.page_dirs fs ocr_base))
    with (parse_ocr.for_each (parse_ocr.page_dirs fs ocr_base) (page_dirs_step fs ocr_base) []).
  match goal with |- context [parse_ocr.for_each ?l ?b ?a ?w0] =>
    destruct (process_page_dirs_result fs ocr_base l a w0) as (Hr & Hv) end.
  rewrite Hr, Hv. cbn [app]. fold records. split; reflexivity.
Qed.

(** X12. The file [process_directory] writes holds exactly the accepted
    records of all pages. With the [ocr] directory present, the records are
    those of its sub-directories in sorted order, each page giving its
    accepted records in the order of its status files; if there is any, one
    CSV file with the header and one row per record is written, otherwise
    none. [valid_records] grows by the number of rows. Without the [ocr]
    directory nothing is written and no counter changes. *)
Theorem X12_directory_output (fs : filesystem) (input_dir output_csv : str)
    (w : parse_ocr.world) :
  let ocr_base := path_join input_dir (utf8 "ocr") in
  let records := directory_records fs ocr_base (parse_ocr.page_dirs fs ocr_base) in
  let w' := snd (parse_ocr.process_directory fs input_dir output_csv w) in
  (fs_exists fs ocr_base = true ->
   parse_ocr.written w' =
     parse_ocr.written w ++
       match records with
       | [] => []
       | _ :: _ => [(output_csv, parse_ocr.fieldnames :: List.map parse_ocr.csv_row records)]
       end /\
   parse_ocr.valid_records (parse_ocr.stats w') =
     parse_ocr.valid_records (parse_ocr.stats w) + Z.of_nat (length records)) /\
  (fs_exists fs ocr_base = false ->
   parse_ocr.written w' = parse_ocr.written w /\ parse_ocr.stats w' = parse_ocr.stats w /\
   parse_ocr.stdout w' = parse_ocr.stdout w ++ [parse_ocr.DirectoryNotFound ocr_base]).
Proof.
  intros ocr_base records w'. split; intros Hexists.
  - exact (process_directory_result fs input_dir output_csv w Hexists).
  - unfold w', parse_ocr.process_directory. fold ocr_base. rewrite Hexists. cbn [negb].
    repeat split; reflexivity.
Qed.

Lemma X12_directory_output_witness :
  parse_ocr.valid_records
    (parse_ocr.stats (snd (parse_ocr.process_directory scenario_fs (utf8 "out")
                             (utf8 "voters.csv") new_world))) =
  parse_ocr.valid_records (parse_ocr.stats new_world)
  + Z.of_nat (length (directory_records scenario_fs (utf8 "out/ocr")
                        (parse_ocr.page_dirs scenario_fs (utf8 "out/ocr")))).
Proof.
  apply (X12_directory_output scenario_fs (utf8 "out") (utf8 "voters.csv") new_world).
  reflexivity.
Defined.

(** ** The debug flag of the persistent-engine script *)

Definition is_debug_line (m : ocr_page_fast.message) : bool :=
  match m with
  | ocr_page_fast.DebugRecord _ _ _ _ => true
  | _ => false
  end.

(** A state of the loop with the debug lines taken out of its output. *)
Definition without_debug (st : ocr_page_fast.loop_state) : ocr_page_fast.loop_state :=
  (fst (fst st), snd (fst st), List.filter (fun m => negb (is_debug_line m)) (snd st)).

Section DebugFlag.
Import ocr_page_fast.
Variables (env : environment) (img : image) (image_path : str).

Lemma process_tile_without_debug (debug : bool) (t : tile) (acc : loop_state) :
  without_debug (process_tile env img image_path debug t acc) =
  process_tile env img image_path false t (without_debug acc).
Proof.
  destruct acc as [[records valid_count] out]. unfold process_tile, without_debug.
  cbn [fst snd].
  destruct (tile_texts env (Crop (record_box t) img)) as [[serial epic] text].
  cbn [fst snd andb].
  destruct (recognize_tile env (Crop (record_box t) img));
    destruct (debug && _); rewrite ?List.filter_app; cbn [List.filter is_debug_line negb];
    rewrite ?app_nil_r; reflexivity.
Qed.

Lemma fast_loop_without_debug (debug : bool) (width height : Z) (l : list tile) :
  forall acc : loop_state,
    without_debug
      (fold_left (fun acc t => if out_of_bounds width height t then acc
                               else process_tile env img image_path debug t acc) l acc) =
    fold_left (fun acc t => if out_of_bounds width height t then acc
                            else process_tile env img image_path false t acc)
              l (without_debug acc).
Proof.
  induction l as [|t l IH]; intros acc; cbn [fold_left]; [reflexivity|].
  rewrite IH. destruct (out_of_bounds width height t); [reflexivity|].
  now rewrite process_tile_without_debug.
Qed.

(** A debug line is printed for the first three positions of the grid
    only. *)
Definition early (t : tile) : bool := tile_row t * Z.of_nat GRID_COLS + tile_col t <? 3.

Definition debug_lines (st : loop_state) : nat :=
  length (List.filter is_debug_line (snd st)).

Lemma process_tile_debug_count (debug : bool) (t : tile) (acc : loop_state) :
  debug_lines (process_tile env img image_path debug t acc) =
  (debug_lines acc + (if debug && early t then 1 else 0))%nat.
Proof.
  destruct acc as [[records valid_count] out]. unfold process_tile, debug_lines, early.
  cbn [fst snd].
  destruct (tile_texts env (Crop (record_box t) img)) as [[serial epic] text].
  cbn [snd].
  destruct (recognize_tile env (Crop (record_box t) img));
    destruct (debug && _); rewrite ?List.filter_app, ?length_app;
    cbn [List.filter is_debug_line length]; lia.
Qed.

Lemma fast_loop_debug_count (debug : bool) (width height : Z) (l : list tile) :
  forall acc : loop_state,
    (debug_lines
       (fold_left (fun acc t => if out_of_bounds width height t then acc
                                else process_tile env img image_path debug t acc) l acc)
     <= debug_lines acc + length (List.filter early l))%nat.
Proof.
  induction l as [|t l IH]; intros acc; cbn [fold_left List.filter]; [lia|].
  apply Nat.le_trans with (1 := IH _).
  destruct (out_of_bounds width height t).
  - destruct (early t); cbn [length]; lia.
  - rewrite process_tile_debug_count.
    destruct debug, (early t); cbn [andb length]; lia.
Qed.
End DebugFlag.

Lemma process_image_without_debug (env : ocr_page_fast.environment) (img0 : image)
    (image_path : str) (debug : bool) :
  without_debug (ocr_page_fast.process_image env img0 image_path debug) =
  ocr_page_fast.process_image env img0 image_path false.
Proof.
  unfold ocr_page_fast.process_image. rewrite !grid_loop_fold.
  rewrite fast_loop_without_debug. reflexivity.
Qed.

(** X13. The [--debug] flag of the persistent-engine script only adds
    lines to the output: with and without it the script returns the same
    summary and writes the same file, and the lines printed without it are
    the lines printed with it minus the debug lines ("Record ..: S=.., E=..,
    T=.."), of which there are at most three. *)
Theorem X13_debug_only_prints (env : ocr_page_fast.environment)
    (image_path output_csv : str) (debug : bool) :
  let quiet := ocr_page_fast.process_page env image_path output_csv false in
  let loud := ocr_page_fast.process_page env image_path output_csv debug in
  returned loud = returned quiet /\
  written loud = written quiet /\
  List.filter (fun m => negb (is_debug_line m)) (printed loud) = printed quiet /\
  (length (List.filter is_debug_line (printed loud)) <= 3)%nat /\
  List.filter is_debug_line (printed quiet) = [].
Proof.
  cbv zeta. unfold ocr_page_fast.process_page.
  destruct (negb (ocr_page_fast.engine_available env)); [cbn; repeat split; lia|].
  destruct (ocr_page_fast.open_image env image_path) as [img0|]; [|cbn; repeat split; lia].
  rewrite <- (process_image_without_debug env img0 image_path debug).
  assert (Hcount : (debug_lines (ocr_page_fast.process_image env img0 image_path debug) <= 3)%nat).
  { unfold ocr_page_fast.process_image. rewrite grid_loop_fold.
    apply Nat.le_trans with (1 := fast_loop_debug_count env _ image_path debug _ _ grid _).
    vm_compute. lia. }
  unfold debug_lines in Hcount.
  destruct (ocr_page_fast.process_image env img0 image_path debug)
    as [[csv_records valid_count] lines].
  unfold without_debug. cbn [fst snd returned written printed] in Hcount |- *.
  rewrite !List.filter_app. cbn [List.filter is_debug_line negb].
  rewrite !length_app. cbn [length].
  split; [reflexivity|]. split; [reflexivity|]. split; [reflexivity|]. split; [lia|].
  rewrite app_nil_r.
  induction lines as [|m lines IH]; cbn [List.filter]; [reflexivity|].
  destruct (is_debug_line m) eqn:E; cbn [negb List.filter]; [|rewrite E]; apply IH;
    cbn [List.filter length] in Hcount; rewrite ?E in Hcount; cbn [length] in Hcount; lia.
Qed.

(** ** The shape of the extracted fields *)

Lemma in_strip (c : codepoint) (s : str) : In c (strip s) -> In c s.
Proof.
  intros H. destruct (strip_infix s) as (a & b & Hs). rewrite Hs.
  apply in_or_app. right. apply in_or_app. now left.
Qed.

(** [[^\n]] matches everything but the newline, also when case is
    ignored. *)
Lemma not_newline_matches (ignorecase : bool) (c : codepoint) :
  re.item_matches ignorecase parse_ocr.not_newline c = negb (c =? 10)%N.
Proof.
  unfold parse_ocr.not_newline.
  cbn [re.item_matches existsb re.set_item_matches]. rewrite orb_false_r.
  unfold re.char_matches. destruct ignorecase; cbn [andb]; [|now rewrite orb_false_r].
  change (re.lower 10%N) with 10%N. f_equal.
  destruct (N.eqb_spec c 10) as [->|Hc]; [reflexivity|]. cbn [orb].
  apply N.eqb_neq. unfold re.lower.
  destruct (N.leb_spec 65 c), (N.leb_spec c 90), (N.eqb_spec c 304), (N.eqb_spec c 8490);
    cbn [andb]; lia.
Qed.

Lemma forallb_not_in (s : str) :
  forallb (fun c => negb (c =? 10)%N) s = true -> ~ In 10%N s.
Proof.
  intros H Hin. rewrite forallb_forall in H. specialize (H _ Hin).
  cbn in H. discriminate H.
Qed.

(** What [extract_field] returns for a pattern whose group is [([^\n]+)]:
    a text without a line break. *)
Lemma line_field (before after : list re.regex) (text : str) :
  forallb groupless before = true -> forallb groupless after = true ->
  ~ In 10%N (parse_ocr.extract_field
               (grouped before (re.plus parse_ocr.not_newline) after) text).
Proof.
  intros Hb Ha. unfold parse_ocr.extract_field.
  destruct (re.search true _ text) as [m|] eqn:E; [|intros []].
  apply (grouped_search true (re.plus parse_ocr.not_newline) after eq_refl Ha
           before text m Hb) in E.
  destruct E as (Hall & _ & _).
  rewrite (forallb_pointwise _ (fun c => negb (c =? 10)%N)) in Hall
    by apply not_newline_matches.
  intros Hin. apply in_strip in Hin. exact (forallb_not_in _ Hall Hin).
Qed.

Lemma ascii_number_no_newline (n : nat) (d : str) :
  d = [] \/ ascii_number n d -> ~ In 10%N d.
Proof.
  intros [-> | (_ & Hall & _)]; [intros []|].
  intros Hin. rewrite forallb_forall in Hall. specialize (Hall _ Hin).
  cbn in Hall. discriminate Hall.
Qed.

(** A letter as [[A-Z]] accepts it when case is ignored: an ASCII letter of
    either case, or one of the four characters whose case mapping is an ASCII
    letter (U+0130, U+0131, U+017F, U+212A). *)
Definition is_letter_ignoring_case (c : codepoint) : bool :=
  (((65 <=? c) && (c <=? 90)) || ((97 <=? c) && (c <=? 122))
   || (c =? 304) || (c =? 305) || (c =? 383) || (c =? 8490))%N.

Lemma ascii_upper_matches (c : codepoint) :
  re.item_matches true parse_ocr.ascii_upper c = is_letter_ignoring_case c.
Proof.
  unfold parse_ocr.ascii_upper, is_letter_ignoring_case.
  cbn [re.item_matches existsb re.set_item_matches]. rewrite orb_false_r.
  assert (Hl : (re.lower c = c /\ (c < 65 \/ 90 < c) /\ c <> 304 /\ c <> 8490 \/
                re.lower c = c + 32 /\ 65 <= c <= 90 \/
                re.lower c = 105 /\ c = 304 \/ re.lower c = 107 /\ c = 8490)%N).
  { unfold re.lower.
    destruct (N.leb_spec 65 c), (N.leb_spec c 90), (N.eqb_spec c 304), (N.eqb_spec c 8490);
      cbn [andb]; lia. }
  assert (Hu : forall l : codepoint,
            (re.upper l = l /\ (l < 97 \/ 122 < l) /\ l <> 305 /\ l <> 383 \/
             re.upper l = l - 32 /\ 97 <= l <= 122 \/
             re.upper l = 73 /\ l = 305 \/ re.upper l = 83 /\ l = 383)%N).
  { intros l. unfold re.upper.
    destruct (N.leb_spec 97 l), (N.leb_spec l 122), (N.eqb_spec l 305), (N.eqb_spec l 383);
      cbn [andb]; lia. }
  specialize (Hu (re.lower c)).
  apply eq_true_iff_eq.
  rewrite !orb_true_iff, !andb_true_iff, !N.leb_le, !N.eqb_eq.
  set (l := re.lower c) in *. set (u := re.upper l) in *. clearbody l u. lia.
Qed.

Lemma letter_not_space (c : codepoint) : is_letter_ignoring_case c = true -> isspace c = false.
Proof.
  intros H. apply not_true_is_false. revert H.
  unfold is_letter_ignoring_case, isspace, in_ranges, whitespace_ranges.
  cbn [existsb fst snd].
  rewrite !orb_true_iff, !andb_true_iff, !N.leb_le, !N.eqb_eq. lia.
Qed.

(** Three letters, then six or seven ASCII digits. *)
Definition epic_shaped (e : str) : Prop :=
  exists letters digits,
    e = letters ++ digits /\
    length letters = 3%nat /\ forallb is_letter_ignoring_case letters = true /\
    (length digits = 6%nat \/ length digits = 7%nat) /\ forallb is_digit digits = true.

Lemma epic_field_shape (text : str) :
  let e := parse_ocr.extract_field (parse_ocr.PATTERNS parse_ocr.epic) text in
  e = [] \/ epic_shaped e.
Proof.
  cbv zeta. unfold parse_ocr.extract_field.
  destruct (re.search true _ text) as [m|] eqn:E; [|now left].
  apply (grouped_search true
           (re.Cat (re.counted 3 3 parse_ocr.ascii_upper) (re.counted 6 7 parse_ocr.ascii_digit))
           [re.WordBoundary] eq_refl eq_refl [re.WordBoundary] text m eq_refl) in E.
  destruct E as (letters & digits & -> & (Hl & Hl3 & Hl3') & (Hd & Hd6 & Hd7)).
  rewrite (forallb_pointwise _ is_letter_ignoring_case) in Hl by apply ascii_upper_matches.
  rewrite (forallb_pointwise _ is_digit) in Hd by apply ascii_digit_matches.
  assert (Hlen : length letters = 3%nat).
  { destruct Hl3' as [-> | Hle]; [cbn in Hl3; lia | cbn in Hle; lia]. }
  assert (Hdlen : length digits = 6%nat \/ length digits = 7%nat).
  { destruct Hd7 as [-> | Hle]; [cbn in Hd6; lia | cbn in Hle; lia]. }
  right. rewrite strip_fixed.
  - exists letters, digits. auto.
  - intros c Hc. destruct letters as [|l ls]; [discriminate Hlen|].
    injection Hc as <-. apply letter_not_space.
    cbn [forallb] in Hl. apply andb_true_iff in Hl. tauto.
  - intros c Hc. apply digit_not_space.
    destruct digits as [|d ds] using rev_ind; [cbn in Hdlen; lia|].
    rewrite app_assoc, last_snoc in Hc. injection Hc as <-.
    rewrite forallb_app in Hd. apply andb_true_iff in Hd. destruct Hd as [_ Hd].
    cbn [forallb] in Hd. apply andb_true_iff in Hd. tauto.
Qed.

Definition is_epic_character (c : codepoint) : bool :=
  is_letter_ignoring_case c || is_digit c.

Lemma record_epic_shape (text : str) :
  let e := parse_ocr.extract_field parse_ocr.RECORD_EPIC text in
  e = [] \/ ((6 <= length e <= 12)%nat /\ forallb is_epic_character e = true).
Proof.
  cbv zeta. unfold parse_ocr.extract_field.
  destruct (re.search true _ text) as [m|] eqn:E; [|now left].
  apply (grouped_search true (re.counted 6 12 (re.In [re.Rg 65 90; re.Rg 48 57]))
           [re.WordBoundary] eq_refl eq_refl [re.WordBoundary] text m eq_refl) in E.
  destruct E as (Hall & Hlo & Hhi).
  rewrite (forallb_pointwise _ is_epic_character) in Hall.
  2: { intros c. unfold is_epic_character.
       rewrite <- ascii_upper_matches, <- (ascii_digit_matches true).
       unfold parse_ocr.ascii_upper, parse_ocr.ascii_digit.
       cbn [re.item_matches existsb]. now rewrite !orb_false_r. }
  assert (Hspace : forall c, is_epic_character c = true -> isspace c = false).
  { intros c Hc. apply orb_true_iff in Hc.
    destruct Hc; [now apply letter_not_space | now apply digit_not_space]. }
  right. rewrite strip_fixed.
  - split; [|exact Hall]. split; [exact Hlo|].
    destruct Hhi as [Hnil | Hle]; [rewrite Hnil in Hlo; cbn in Hlo; lia | exact Hle].
  - intros c Hc. apply Hspace. exact (forallb_head _ _ _ Hall Hc).
  - intros c Hc. apply Hspace. exact (forallb_last _ _ _ Hall Hc).
Qed.

(** X14. The EPIC the parser extracts from free text is not always of the
    form the format check expects, because the search ignores case. From a
    tile it is empty or three letters followed by six or seven ASCII digits,
    where a letter is A-Z, a-z or one of the four characters whose case
    mapping is an ASCII letter (U+0130, U+0131, U+017F, U+212A); it then has
    the canonical form exactly when its three letters are capitals A-Z. From
    the EPIC file of a record it is empty or 6 to 12 such letters or ASCII
    digits. *)
Theorem X14_epic_field_shape (text : str) :
  let tile_epic := parse_ocr.extract_field (parse_ocr.PATTERNS parse_ocr.epic) text in
  let record_epic := parse_ocr.extract_field parse_ocr.RECORD_EPIC text in
  (tile_epic = [] \/
   epic_shaped tile_epic /\
   (canonical_epic tile_epic <-> forallb is_upper (take 3 tile_epic) = true)) /\
  (record_epic = [] \/
   (6 <= length record_epic <= 12)%nat /\ forallb is_epic_character record_epic = true).
Proof.
  cbv zeta. split; [|apply record_epic_shape].
  destruct (epic_field_shape text) as [H|H]; [now left | right].
  split; [exact H|].
  destruct H as (letters & digits & -> & Hlen & Hl & Hdlen & Hd).
  rewrite <- Hlen, take_app_length. split.
  - intros (letters' & digits' & Heq & Hlen' & Hl' & _ & _).
    assert (letters = letters') as ->; [|exact Hl'].
    apply (f_equal (take 3)) in Heq.
    rewrite <- Hlen in Heq at 1. rewrite <- Hlen' in Heq.
    now rewrite !take_app_length in Heq.
  - intros Hup. exists letters, digits. auto.
Qed.

Lemma decimal_not_space (c : codepoint) : isdecimal c = true -> isspace c = false.
Proof.
  intros H. apply not_true_is_false. intros Hs. revert H.
  unfold isspace, in_ranges, whitespace_ranges in Hs. cbn [existsb fst snd] in Hs.
  rewrite !orb_true_iff, !andb_true_iff, !N.leb_le in Hs.
  assert (Hc : In c [9; 10; 11; 12; 13; 28; 29; 30; 31; 32; 133; 160; 5760; 8192; 8193;
                     8194; 8195; 8196; 8197; 8198; 8199; 8200; 8201; 8202; 8232; 8233;
                     8239; 8287; 12288]%N).
  { cbn [In]. lia. }
  cbn [In] in Hc.
  repeat (destruct Hc as [<- | Hc]; [vm_compute; discriminate|]). destruct Hc.
Qed.

Section HindiFields.
Import hindi.

(** What precedes the group in the patterns of [parse_hindi_text]. *)
Definition label_part (a b : string) : list re.regex :=
  [re.Alt (re.Lit (utf8 a)) (re.Lit (utf8 b)); re.lazy_star re.Dot; re.One colon;
   re.star (re.In [re.Space])].

Lemma labelled_grouped (a b : string) (value : re.regex) :
  labelled a b value = grouped (label_part a b) value [].
Proof. reflexivity. Qed.

Lemma hindi_line_field (a b : string) (text : str) :
  ~ In 10%N (default [] (find (labelled a b (re.plus (re.NotIn [re.Ch 10]))) text)).
Proof.
  unfold find. rewrite labelled_grouped.
  destruct (re.search true _ text) as [m|] eqn:E; [|intros []].
  apply (grouped_search true (re.plus parse_ocr.not_newline) [] eq_refl eq_refl
           (label_part a b) text m eq_refl) in E.
  destruct E as (Hall & _ & _).
  rewrite (forallb_pointwise _ (fun c => negb (c =? 10)%N)) in Hall
    by apply not_newline_matches.
  cbn [fmap option_fmap option_map default from_option id].
  intros Hin. apply in_strip in Hin. exact (forallb_not_in _ Hall Hin).
Qed.

Lemma hindi_age_field (text : str) (d : str) :
  find age_pattern text = Some d -> d <> [] /\ forallb isdecimal d = true.
Proof.
  unfold find, age_pattern. rewrite labelled_grouped.
  destruct (re.search true _ text) as [m|] eqn:E; [|discriminate].
  apply (grouped_search true (re.plus (re.In [re.Digit])) [] eq_refl eq_refl
           (label_part "उम्र" "आयु") text m eq_refl) in E.
  destruct E as (Hall & Hlo & _).
  rewrite (forallb_pointwise _ isdecimal) in Hall
    by (intros c; cbn [re.item_matches existsb re.set_item_matches]; apply orb_false_r).
  cbn [fmap option_fmap option_map]. intros [= <-].
  rewrite strip_fixed.
  - split; [|exact Hall]. intros Hnil. rewrite Hnil in Hlo. cbn in Hlo. lia.
  - intros c Hc. apply decimal_not_space. exact (forallb_head _ _ _ Hall Hc).
  - intros c Hc. apply decimal_not_space. exact (forallb_last _ _ _ Hall Hc).
Qed.
End HindiFields.

(** X15. Every field the scripts extract with a pattern fits on one line: no
    field of [parse_tile] or [parse_record] and no name, father, age or
    address of [parse_hindi_text] contains a newline, whatever the OCR text
    is. *)
Theorem X15_fields_are_single_line (text : str) :
  (forall f : parse_ocr.field,
     ~ In 10%N (parse_ocr.extract_field (parse_ocr.PATTERNS f) text)) /\
  ~ In 10%N (parse_ocr.extract_field parse_ocr.RECORD_SERIAL text) /\
  ~ In 10%N (parse_ocr.extract_field parse_ocr.RECORD_EPIC text) /\
  (let parsed := hindi.parse_hindi_text text in
   ~ In 10%N (default [] (parsed_name parsed)) /\
   ~ In 10%N (default [] (parsed_father parsed)) /\
   ~ In 10%N (default [] (parsed_age parsed)) /\
   ~ In 10%N (default [] (parsed_address parsed))).
Proof.
  assert (Hepic : forall e, forallb is_epic_character e = true -> ~ In 10%N e).
  { intros e He Hin. rewrite forallb_forall in He. specialize (He _ Hin).
    vm_compute in He. discriminate He. }
  split; [|split; [|split]].
  - intros [].
    + apply (ascii_number_no_newline 4), serial_field_digits.
    + apply (line_field
               [re.Lit (utf8 "निर्वाचक"); re.star (re.In [re.Space]); re.Lit (utf8 "का");
                re.star (re.In [re.Space]); re.Lit (utf8 "नाम");
                re.star parse_ocr.space_or_colon] [] text); reflexivity.
    + apply (line_field
               [re.Alt (re.Lit (utf8 "पति")) (re.Alt (re.Lit (utf8 "पिता")) (re.Lit (utf8 "माता")));
                re.star (re.In [re.Space]); re.Lit (utf8 "का");
                re.star (re.In [re.Space]); re.Lit (utf8 "नाम");
                re.star parse_ocr.space_or_colon] [] text); reflexivity.
    + apply (line_field
               [re.Lit (utf8 "मकान"); re.star (re.In [re.Space]); re.Lit (utf8 "संख्या");
                re.star parse_ocr.space_or_colon] [] text); reflexivity.
    + apply (ascii_number_no_newline 3), age_field_digits.
    + apply (line_field [re.Lit (utf8 "लिंग"); re.star parse_ocr.space_or_colon] [] text);
        reflexivity.
    + destruct (epic_field_shape text) as [-> | (letters & digits & -> & _ & Hl & _ & Hd)];
        [intros []|].
      apply Hepic. rewrite forallb_app. apply andb_true_iff. split.
      * rewrite forallb_forall in Hl |- *. intros c Hc. unfold is_epic_character.
        now rewrite (Hl c Hc).
      * rewrite forallb_forall in Hd |- *. intros c Hc. unfold is_epic_character.
        rewrite (Hd c Hc). apply orb_true_r.
  - apply (ascii_number_no_newline 4), record_serial_digits.
  - destruct (record_epic_shape text) as [-> | [_ H]]; [intros [] | now apply Hepic].
  - cbv zeta. unfold hindi.parse_hindi_text.
    cbn [parsed_name parsed_father parsed_age parsed_address].
    split; [apply hindi_line_field|]. split; [apply hindi_line_field|].
    split; [|apply hindi_line_field].
    destruct (hindi.find hindi.age_pattern text) as [d|] eqn:E; [|intros []].
    destruct (hindi_age_field text d E) as [_ Hall]. cbn [default from_option id].
    intros Hin. rewrite forallb_forall in Hall. specialize (Hall _ Hin).
    vm_compute in Hall. discriminate Hall.
Qed.

(** X16. The age the page scripts put into the CSV is, when the pattern
    matched, a non-empty run of Unicode decimal digits without surrounding
    whitespace. Digits of any script count: Devanagari digits are taken by the
    page scripts, while the pattern of the decoupled parser, which asks for
    [[0-9]], finds no age in the same text. *)
Theorem X16_page_script_age :
  (forall text d : str,
     parsed_age (hindi.parse_hindi_text text) = Some d ->
     d <> [] /\ forallb isdecimal d = true /\ strip d = d) /\
  parsed_age (hindi.parse_hindi_text (utf8 "उम्र: ४५")) = Some (utf8 "४५") /\
  parse_ocr.extract_field (parse_ocr.PATTERNS parse_ocr.age) (utf8 "उम्र: ४५") = [].
Proof.
  split; [|split; vm_compute; reflexivity].
  intros text d H. unfold hindi.parse_hindi_text in H. cbn [parsed_age] in H.
  destruct (hindi_age_field text d H) as [Hne Hall]. split; [exact Hne|].
  split; [exact Hall|].
  apply strip_fixed; intros c Hc; apply decimal_not_space.
  - exact (forallb_head _ _ _ Hall Hc).
  - exact (forallb_last _ _ _ Hall Hc).
Qed.

Lemma X16_page_script_age_witness :
  utf8 "45" <> [] /\ forallb isdecimal (utf8 "45") = true /\ strip (utf8 "45") = utf8 "45".
Proof.
  destruct X16_page_script_age as [H _].
  apply (H (utf8 "उम्र: 45") (utf8 "45")). vm_compute. reflexivity.
Defined.

(** ** The region images on disk *)

Lemma split_slash_plain (s : str) :
  ~ In 47%N s -> forall cur, split_slash s cur = [cur ++ s].
Proof.
  induction s as [|c s IH]; intros Hs cur; cbn [split_slash].
  - now rewrite app_nil_r.
  - destruct (N.eqb_spec c 47) as [->|Hc]; [exfalso; apply Hs; now left|].
    rewrite IH by (intros Hin; apply Hs; now right).
    now rewrite <- app_assoc.
Qed.

Lemma join_slash_snoc (parts : list str) (x : str) :
  join_slash (parts ++ [x]) =
  match parts with
  | [] => x
  | _ :: _ => join_slash parts ++ 47%N :: x
  end.
Proof.
  induction parts as [|p parts IH]; [reflexivity|].
  destruct parts as [|q parts]; [reflexivity|].
  change (join_slash ((p :: q :: parts) ++ [x]))
    with (p ++ 47%N :: join_slash ((q :: parts) ++ [x])).
  rewrite IH.
  change (join_slash (p :: q :: parts)) with (p ++ 47%N :: join_slash (q :: parts)).
  now rewrite <- app_assoc.
Qed.

Lemma Path_str_snoc (root : str) (parts : list str) (x : str) :
  Path_str {| path_root := root; path_parts := parts ++ [x] |} =
  root ++ join_slash (parts ++ [x]).
Proof. unfold Path_str. cbn [path_root path_parts]. destruct root, parts; reflexivity. Qed.

(** What [str(directory / name)] puts before a plain file name. *)
Definition directory_prefix (directory : Path) : str :=
  path_root directory ++
  match path_parts directory with
  | [] => []
  | _ :: _ => join_slash (path_parts directory) ++ [47%N]
  end.

(** The path of a region image is the directory followed by the file
    name, when the record identifier holds no slash. *)
Lemma box_path_plain (directory : Path) (id : str) (suffix : string) :
  ~ In 47%N id -> ~ In 47%N (utf8 suffix) ->
  ocr_page_python.box_path directory id suffix =
  directory_prefix directory ++ utf8 "record_" ++ id ++ utf8 suffix ++ utf8 ".png".
Proof.
  intros Hid Hsuffix. unfold ocr_page_python.box_path.
  change (utf8 "record_") with ([114; 101; 99; 111; 114; 100; 95]%N).
  change (utf8 ".png") with ([46; 112; 110; 103]%N).
  set (rest := [101; 99; 111; 114; 100; 95]%N ++ id ++ utf8 suffix ++ [46; 112; 110; 103]%N).
  change ([114; 101; 99; 111; 114; 100; 95]%N ++ id ++ utf8 suffix ++ [46; 112; 110; 103]%N)
    with (114%N :: rest).
  assert (Hplain : ~ In 47%N (114%N :: rest)).
  { unfold rest. cbn [In app]. rewrite !in_app_iff. cbn [In]. intuition lia. }
  unfold Path_join, Path_of. cbn [path_parts].
  rewrite (split_slash_plain _ Hplain []). cbn [app List.filter].
  replace (str_eqb (114%N :: rest) []) with false
    by (symmetry; apply bool_decide_eq_false; discriminate).
  replace (str_eqb (114%N :: rest) [46%N]) with false
    by (symmetry; apply bool_decide_eq_false; discriminate).
  cbn [orb negb]. rewrite Path_str_snoc, join_slash_snoc. unfold directory_prefix.
  destruct (path_parts directory); rewrite <- ?app_assoc; reflexivity.
Qed.

Lemma box_path_inj (directory : Path) (id1 id2 : str) (suffix1 suffix2 : string) :
  ~ In 47%N id1 -> ~ In 47%N id2 -> length id1 = length id2 ->
  ~ In 47%N (utf8 suffix1) -> ~ In 47%N (utf8 suffix2) ->
  ocr_page_python.box_path directory id1 suffix1 =
  ocr_page_python.box_path directory id2 suffix2 ->
  id1 = id2 /\ utf8 suffix1 = utf8 suffix2.
Proof.
  intros H1 H2 Hlen Hs1 Hs2 H.
  rewrite (box_path_plain _ _ _ H1 Hs1), (box_path_plain _ _ _ H2 Hs2) in H.
  apply app_inv_head in H. apply app_inv_head in H.
  apply app_inj_1 in H; [|exact Hlen]. destruct H as [Hid H].
  apply app_inv_tail in H. auto.
Qed.

Lemma grid_id_plain (t : tile) :
  In t grid -> ~ In 47%N (tile_record_id t) /\ length (tile_record_id t) = 2%nat.
Proof.
  intros Ht.
  assert (H : forallb (fun t => negb (existsb (fun c => c =? 47)%N (tile_record_id t))
                                && (length (tile_record_id t) =? 2)%nat) grid = true)
    by (vm_compute; reflexivity).
  rewrite forallb_forall in H. specialize (H t Ht). apply andb_true_iff in H.
  destruct H as [Hs Hl]. split; [|now apply Nat.eqb_eq].
  intros Hin. apply negb_true_iff in Hs.
  assert (Hex : existsb (fun c => (c =? 47)%N) (tile_record_id t) = true)
    by (apply existsb_exists; exists 47%N; split; [exact Hin | reflexivity]).
  congruence.
Qed.

Section SavedFiles.
Import ocr_page_python.
Variables (env : environment) (img : image) (image_path : str).

Abbreviation directory := (boxes_dir env image_path).

(** The four files of a tile. *)
Definition tile_paths (t : tile) : list str :=
  List.map (box_path directory (tile_record_id t)) ["_serial"; "_epic"; "_text"; ""]%string.

Lemma suffix_plain (s : string) :
  In s ["_serial"; "_epic"; "_text"; ""]%string -> ~ In 47%N (utf8 s).
Proof.
  intros Hin. cbn [In] in Hin.
  repeat (destruct Hin as [<- | Hin]; [vm_compute; intuition discriminate|]). destruct Hin.
Qed.

(** Tiles with different identifiers share no file. *)
Lemma tile_paths_disjoint (t t' : tile) (k : str) :
  In t grid -> In t' grid -> tile_record_id t <> tile_record_id t' ->
  In k (tile_paths t) -> ~ In k (tile_paths t').
Proof.
  intros Ht Ht' Hne Hk Hk'. unfold tile_paths in Hk, Hk'.
  apply in_map_iff in Hk. destruct Hk as (s & <- & Hs).
  apply in_map_iff in Hk'. destruct Hk' as (s' & Heq & Hs').
  destruct (grid_id_plain t Ht) as [Hp Hl]. destruct (grid_id_plain t' Ht') as [Hp' Hl'].
  apply box_path_inj in Heq; [| assumption | assumption | congruence
                              | now apply suffix_plain | now apply suffix_plain].
  destruct Heq as [Heq _]. congruence.
Qed.

(** Working on a tile touches no file but its own four. *)
Lemma extract_tile_other (t : tile) (acc : extraction) (k : str) :
  ~ In k (tile_paths t) ->
  snd (fst (extract_tile env img directory t acc)) !! k = snd (fst acc) !! k.
Proof.
  unfold tile_paths. cbn [List.map In]. intros Hk.
  destruct acc as [[records saved] out]. unfold extract_tile.
  repeat (match goal with |- context [save_ok env ?p] => destruct (save_ok env p) end;
          cbn [negb fst snd]);
    rewrite ?lookup_insert_ne by tauto; reflexivity.
Qed.

Lemma extract_loop_other (width height : Z) (l : list tile) (k : str) :
  (forall t, In t l -> ~ In k (tile_paths t)) ->
  forall acc : extraction,
    snd (fst (fold_left
                (fun acc t =>
                   if out_of_bounds width height t
                   then (let '(records, saved, out) := acc in
                         (records, saved, out ++ [WarningOutOfBounds (tile_record_id t)]))
                   else extract_tile env img directory t acc)
                l acc)) !! k = snd (fst acc) !! k.
Proof.
  induction l as [|t l IH]; intros Hl acc; cbn [fold_left]; [reflexivity|].
  rewrite IH by (intros t' Ht'; apply Hl; now right).
  destruct (out_of_bounds width height t).
  - destruct acc as [[records saved] out]. reflexivity.
  - apply extract_tile_other. apply Hl. now left.
Qed.

Lemma tile_paths_distinct (t : tile) :
  In t grid -> List.NoDup (tile_paths t).
Proof.
  intros Ht. destruct (grid_id_plain t Ht) as [Hplain _].
  assert (Hne : forall s1 s2 : string,
            ~ In 47%N (utf8 s1) -> ~ In 47%N (utf8 s2) -> utf8 s1 <> utf8 s2 ->
            box_path directory (tile_record_id t) s1 <> box_path directory (tile_record_id t) s2).
  { intros s1 s2 H1 H2 Hs Heq.
    apply (box_path_inj directory _ _ s1 s2 Hplain Hplain eq_refl H1 H2) in Heq. tauto. }
  unfold tile_paths. cbn [List.map].
  repeat (apply List.NoDup_cons; [cbn [In]; intros Hin |]); [| | | |apply List.NoDup_nil];
    repeat (destruct Hin as [Hin | Hin];
            [revert Hin; apply Hne; [apply suffix_plain; cbn; auto 6
                                    | apply suffix_plain; cbn; auto 6
                                    | vm_compute; discriminate] |]);
    destruct Hin.
Qed.

(** The files of a tile whose four saves succeed. *)
Lemma extract_tile_own (t : tile) (acc : extraction) :
  In t grid -> saves_ok env image_path t = true ->
  let saved := snd (fst (extract_tile env img directory t acc)) in
  let record_img := Crop (record_box t) img in
  saved !! box_path directory (tile_record_id t) "_serial" =
    Some (Crop (region_box Serial) record_img) /\
  saved !! box_path directory (tile_record_id t) "_epic" =
    Some (Crop (region_box Epic) record_img) /\
  saved !! box_path directory (tile_record_id t) "_text" =
    Some (Sharpen (Contrast (Convert_L (Crop (region_box Text) record_img)))) /\
  saved !! box_path directory (tile_record_id t) "" = Some record_img.
Proof.
  intros Ht Hok. pose proof (tile_paths_distinct t Ht) as Hnd.
  unfold tile_paths in Hnd. cbn [List.map] in Hnd.
  apply List.NoDup_cons_iff in Hnd. destruct Hnd as [H1 Hnd].
  apply List.NoDup_cons_iff in Hnd. destruct Hnd as [H2 Hnd].
  apply List.NoDup_cons_iff in Hnd. destruct Hnd as [H3 _].
  cbn [In] in H1, H2, H3.
  unfold saves_ok in Hok.
  apply andb_true_iff in Hok. destruct Hok as [Hok Hfull].
  apply andb_true_iff in Hok. destruct Hok as [Hok Htext].
  apply andb_true_iff in Hok. destruct Hok as [Hserial Hepic].
  destruct acc as [[records saved0] out]. unfold extract_tile.
  rewrite Hserial, Hepic, Htext, Hfull. cbn [negb fst snd].
  repeat split.
  - rewrite !lookup_insert_ne by (intros E; apply H1; rewrite E; tauto).
    apply lookup_insert_eq.
  - rewrite !lookup_insert_ne by (intros E; apply H2; rewrite E; tauto).
    apply lookup_insert_eq.
  - rewrite !lookup_insert_ne by (intros E; apply H3; rewrite E; tauto).
    apply lookup_insert_eq.
  - apply lookup_insert_eq.
Qed.
End SavedFiles.

(** X17. Every recognition task reads the image that was cut out for it.
    For a tile the extraction keeps, the file at each of its three region
    paths holds, when recognition starts, the crop of that region of that
    tile (the text region converted to grayscale, contrast-enhanced and
    sharpened), and the fourth file holds the whole tile: the file names
    built from directory, record identifier and suffix never collide, so no
    later tile and no abandoned tile overwrites them. *)
Theorem X17_saved_regions (env : ocr_page_python.environment) (img : image)
    (image_path : str) (t : tile) :
  In t (extracted_tiles env img image_path) ->
  let saved := saved_files env img image_path in
  let data := tile_data env image_path t in
  let record_img := Crop (record_box t) img in
  saved !! ocr_page_python.serial_path data = Some (Crop (region_box Serial) record_img) /\
  saved !! ocr_page_python.epic_path data = Some (Crop (region_box Epic) record_img) /\
  saved !! ocr_page_python.text_path data =
    Some (Sharpen (Contrast (Convert_L (Crop (region_box Text) record_img)))) /\
  saved !! ocr_page_python.full_path data = Some record_img.
Proof.
  intros Ht. unfold extracted_tiles in Ht. apply filter_In in Ht. destruct Ht as [Ht Hok].
  rewrite segment_filter in Ht. apply filter_In in Ht. destruct Ht as [Hgrid Hin].
  apply negb_true_iff in Hin.
  destruct (in_split _ _ Hgrid) as (l1 & l2 & Hsplit).
  pose proof grid_ids_distinct as Hnd. rewrite Hsplit in Hnd.
  rewrite List.map_app in Hnd. cbn [List.map] in Hnd.
  apply List.NoDup_remove_2 in Hnd.
  assert (Hlater : forall t' k, In t' l2 -> In k (tile_paths env image_path t) ->
                                ~ In k (tile_paths env image_path t')).
  { intros t' k Ht' Hk.
    assert (Hgrid' : In t' grid) by (rewrite Hsplit; apply in_or_app; right; now right).
    apply (tile_paths_disjoint env image_path t t' k Hgrid Hgrid'); [|exact Hk].
    intros Hid. apply Hnd. apply in_or_app. right. rewrite Hid. apply in_map. exact Ht'. }
  cbv zeta. unfold saved_files, extraction_result, ocr_page_python.extract_record_regions.
  fold (boxes_dir env image_path).
  rewrite grid_loop_fold, Hsplit, fold_left_app. cbn [fold_left]. rewrite Hin.
  match goal with |- context [ocr_page_python.extract_tile env img _ t ?acc] =>
    destruct (extract_tile_own env img image_path t acc Hgrid Hok) as (H1 & H2 & H3 & H4)
  end.
  unfold tile_data.
  cbn [ocr_page_python.serial_path ocr_page_python.epic_path ocr_page_python.text_path
       ocr_page_python.full_path].
  rewrite !extract_loop_other
    by (intros t' Ht'; apply Hlater; [exact Ht' | unfold tile_paths; cbn [List.map In]; auto 6]).
  auto.
Qed.

Lemma X17_saved_regions_witness :
  saved_files (constant_pool twenty_five) (small_page (utf8 "page.png")) (utf8 "page.png")
    !! utf8 "/tmp/tmp0/boxes/page/record_00_serial.png" =
  Some (Crop (0, 0, 150, 25) (Crop (22, 42, 320, 163) (small_page (utf8 "page.png")))).
Proof.
  apply (X17_saved_regions (constant_pool twenty_five) (small_page (utf8 "page.png"))
           (utf8 "page.png") (tile_at 0 0)).
  vm_compute. now left.
Defined.

(** ** Every grid position is accounted for *)

Section Accounting.
Import ocr_page_python.
Variables (env : environment) (img : image) (image_path : str).

(** What the extraction loop prints for one position of the grid. *)
Definition position_lines (t : tile) : list message :=
  if out_of_bounds (image_width img) (image_height img) t
  then [WarningOutOfBounds (tile_record_id t)]
  else if saves_ok env image_path t then []
  else [ErrorProcessingRecord (tile_record_id t)].

Lemma extract_tile_lines (t : tile) (acc : extraction) :
  snd (extract_tile env img (boxes_dir env image_path) t acc) =
  snd acc ++ (if saves_ok env image_path t then []
              else [ErrorProcessingRecord (tile_record_id t)]).
Proof.
  destruct acc as [[records saved] out]. unfold extract_tile, saves_ok.
  repeat (match goal with |- context [save_ok env ?p] => destruct (save_ok env p) end;
          cbn [negb andb snd]; rewrite ?app_nil_r; try reflexivity).
Qed.

Lemma extract_loop_lines (l : list tile) :
  forall acc : extraction,
    snd (fold_left
           (fun acc t =>
              if out_of_bounds (image_width img) (image_height img) t
              then (let '(records, saved, out) := acc in
                    (records, saved, out ++ [WarningOutOfBounds (tile_record_id t)]))
              else extract_tile env img (boxes_dir env image_path) t acc)
           l acc) =
    snd acc ++ flat_map position_lines l.
Proof.
  induction l as [|t l IH]; intros acc; cbn [fold_left flat_map].
  - now rewrite app_nil_r.
  - rewrite IH. unfold position_lines at 2.
    destruct (out_of_bounds (image_width img) (image_height img) t).
    + destruct acc as [[records saved] out]. cbn [snd]. now rewrite <- app_assoc.
    + rewrite extract_tile_lines. now rewrite <- app_assoc.
Qed.

Lemma position_count (l : list tile) :
  (length (List.filter (saves_ok env image_path)
             (List.filter (fun t => negb (out_of_bounds (image_width img) (image_height img) t)) l))
   + length (flat_map position_lines l) = length l)%nat.
Proof.
  induction l as [|t l IH]; [reflexivity|].
  cbn [List.filter flat_map]. rewrite length_app. unfold position_lines at 1.
  destruct (out_of_bounds (image_width img) (image_height img) t); cbn [negb List.filter].
  - cbn [length]. lia.
  - destruct (saves_ok env image_path t); cbn [length]; lia.
Qed.
End Accounting.

(** X18. The extraction of the worker-pool script accounts for each of the
    thirty grid positions exactly once and in grid order: a position gives a
    record, or an out-of-bounds warning, or, when one of its four image files
    cannot be saved, an error line. So the records and the lines printed by
    the extraction always add up to thirty. *)
Theorem X18_positions_accounted_for (env : ocr_page_python.environment) (img : image)
    (image_path : str) :
  let result := extraction_result env img image_path in
  snd result = flat_map (position_lines env img image_path) grid /\
  fst (fst result) =
    List.map (tile_data env image_path)
      (List.filter (fun t => match position_lines env img image_path t with
                             | [] => true
                             | _ :: _ => false
                             end) grid) /\
  (length (fst (fst result)) + length (snd result) = 30)%nat.
Proof.
  cbv zeta. split; [|split].
  - unfold extraction_result, ocr_page_python.extract_record_regions.
    fold (boxes_dir env image_path). rewrite grid_loop_fold, extract_loop_lines. reflexivity.
  - rewrite extracted_records. unfold extracted_tiles. rewrite segment_filter. f_equal.
    induction grid as [|t l IH]; [reflexivity|]. cbn [List.filter]. unfold position_lines at 1.
    destruct (out_of_bounds (image_width img) (image_height img) t); cbn [negb List.filter];
      [exact IH|].
    destruct (saves_ok env image_path t); [now rewrite IH | exact IH].
  - rewrite extracted_records, List.length_map. unfold extracted_tiles.
    rewrite segment_filter.
    assert (Hlines : snd (extraction_result env img image_path) =
                     flat_map (position_lines env img image_path) grid).
    { unfold extraction_result, ocr_page_python.extract_record_regions.
      fold (boxes_dir env image_path). rewrite grid_loop_fold, extract_loop_lines.
      reflexivity. }
    rewrite Hlines. apply (position_count env img image_path grid).
Qed.

(** ** The command-line entry points

    [main] of each script, from the parsed arguments on. *)

(** The arguments of the two page scripts. *)
Record page_arguments := {
  arg_image_path : str;
  arg_output_csv : str;
  arg_debug : bool
}.

(** A line printed by [main] or by what it calls. *)
Inductive main_line (M R : Type) :=
| FromPage (m : M)                  (* printed by [process_page] *)
| ImageNotFound (path : str)        (* "Error: Image file not found: ..." *)
| ErrorProcessingPage               (* "Error processing page: ..." *)
| Json (result : R).                (* [json.dumps(result, indent=2)] *)
Arguments FromPage {M R} _.
Arguments ImageNotFound {M R} _.
Arguments ErrorProcessingPage {M R}.
Arguments Json {M R} _.

(** How a script ends: its exit status, what it printed and the files it
    wrote. *)
Record outcome (M R : Type) := {
  exit_status : Z;
  output : list (main_line M R);
  files : list (str * list (list str))
}.
Arguments exit_status {M R} _.
Arguments output {M R} _.
Arguments files {M R} _.

(** [main] of [ocr_page_fast.py]; [path_exists] is [os.path.exists]. *)
Definition ocr_page_fast_main (path_exists : str -> bool) (env : ocr_page_fast.environment)
    (args : page_arguments) : outcome ocr_page_fast.message summary :=
  if negb (path_exists (arg_image_path args)) then
    {| exit_status := 1; output := [ImageNotFound (arg_image_path args)]; files := [] |}
  else
    let run := ocr_page_fast.process_page env (arg_image_path args) (arg_output_csv args)
                 (arg_debug args) in
    match returned run with
    | Some result =>
        {| exit_status := 0;
           output := List.map FromPage (printed run) ++ [Json result];
           files := written run |}
    | None =>
        {| exit_status := 1;
           output := List.map FromPage (printed run) ++ [ErrorProcessingPage];
           files := written run |}
    end.

(** [main] of [ocr_page_python.py]; its [--debug] is parsed and not
    used. *)
Definition ocr_page_python_main (path_exists : str -> bool)
    (env : ocr_page_python.environment) (args : page_arguments)
    : outcome ocr_page_python.message (option summary) :=
  if negb (path_exists (arg_image_path args)) then
    {| exit_status := 1; output := [ImageNotFound (arg_image_path args)]; files := [] |}
  else
    let run := ocr_page_python.process_page env (arg_image_path args) (arg_output_csv args) in
    match returned run with
    | Some result =>
        {| exit_status := 0;
           output := List.map FromPage (printed run) ++ [Json result];
           files := written run |}
    | None =>
        {| exit_status := 1;
           output := List.map FromPage (printed run) ++ [ErrorProcessingPage];
           files := written run |}
    end.

Lemma python_records_nil (env : ocr_page_python.environment) (img : image)
    (image_path : str) :
  fst (fst (ocr_page_python.page_records env img image_path)) = [] <->
  extracted_tiles env img image_path = [].
Proof.
  rewrite page_records_parts. cbn [fst]. rewrite extracted_records.
  split; [apply map_eq_nil | intros ->; reflexivity].
Qed.

(** X19. How the worker-pool script ends for a page image that exists and
    opens. If no tile is extracted it prints [null] as its result and exits
    with status 0 without writing the CSV file. If tiles are extracted and the
    output path has no directory part, [os.makedirs] is called on the empty
    string and raises: the script exits with status 1 and writes nothing,
    after all recognition work is done. Otherwise it exits with status 0,
    having written the header and one row per extracted tile, and prints a
    summary whose [total_records] is the number of rows. Creating the
    directory of a path that has one, and writing the file, are taken to
    succeed. *)
Theorem X19_python_main (path_exists : str -> bool) (env : ocr_page_python.environment)
    (args : page_arguments) (img : image) :
  path_exists (arg_image_path args) = true ->
  ocr_page_python.open_image env (arg_image_path args) = Some img ->
  let run := ocr_page_python_main path_exists env args in
  let tiles := extracted_tiles env img (arg_image_path args) in
  let rows := python_records env img (arg_image_path args) in
  (tiles = [] ->
   exit_status run = 0 /\ last (output run) = Some (Json None) /\ files run = []) /\
  (tiles <> [] -> ocr_page_python.has_dirname (arg_output_csv args) = false ->
   exit_status run = 1 /\ last (output run) = Some ErrorProcessingPage /\ files run = []) /\
  (tiles <> [] -> ocr_page_python.has_dirname (arg_output_csv args) = true ->
   exit_status run = 0 /\
   files run = [(arg_output_csv args, csv_keys :: List.map csv_cells rows)] /\
   length rows = length tiles /\
   exists result,
     last (output run) = Some (Json (Some result)) /\
     total_records result = Z.of_nat (length rows) /\
     csv_file result = arg_output_csv args).
Proof.
  intros Hexists Hopen run tiles rows.
  assert (Hrows : length rows = length tiles).
  { unfold rows, tiles. rewrite python_records_eq. apply List.length_map. }
  pose proof (python_records_nil env img (arg_image_path args)) as Hnil.
  pose proof (page_records_parts env img (arg_image_path args)) as Hparts.
  fold tiles in Hnil. fold rows in Hparts.
  assert (Hlen : length (fst (fst (ocr_page_python.page_records env img (arg_image_path args))))
                 = length tiles).
  { rewrite Hparts. cbn [fst]. unfold tiles. rewrite extracted_records.
    apply List.length_map. }
  assert (Hcsv : snd (fst (ocr_page_python.page_records env img (arg_image_path args))) = rows)
    by (rewrite Hparts; reflexivity).
  clear Hparts. unfold run, ocr_page_python_main. rewrite Hexists. cbn [negb].
  unfold ocr_page_python.process_page. rewrite Hopen.
  clearbody rows tiles. clear run.
  destruct (ocr_page_python.page_records env img (arg_image_path args))
    as [[records csv_records] lines].
  cbn [fst snd] in Hnil, Hlen, Hcsv. subst csv_records.
  split; [|split].
  - intros Ht. apply Hnil in Ht. subst records.
    cbn [returned printed written exit_status output files].
    split; [reflexivity|]. split; [apply last_snoc | reflexivity].
  - intros Ht Hdir. destruct records as [|r rs]; [exfalso; apply Ht, Hnil; reflexivity|].
    rewrite Hdir. cbn [negb returned printed written exit_status output files].
    split; [reflexivity|]. split; [apply last_snoc | reflexivity].
  - intros Ht Hdir. destruct records as [|r rs] eqn:Er; [exfalso; apply Ht, Hnil; reflexivity|].
    rewrite Hdir. cbn [negb returned printed written exit_status output files].
    split; [reflexivity|].
    split.
    { unfold ocr_page_python.csv_rows.
      destruct rows; [|reflexivity]. cbn [length] in Hrows, Hlen. lia. }
    split; [exact Hrows|]. eexists. split; [apply last_snoc|].
    cbn [total_records csv_file]. split; [|reflexivity]. rewrite Hrows, <- Hlen. reflexivity.
Qed.

Lemma X19_python_main_witness :
  let run := ocr_page_python_main (fun _ => true) (constant_pool twenty_five)
               {| arg_image_path := utf8 "page.png"; arg_output_csv := utf8 "out.csv";
                  arg_debug := false |} in
  exit_status run = 1 /\ last (output run) = Some ErrorProcessingPage /\ files run = [].
Proof.
  apply (X19_python_main (fun _ => true) (constant_pool twenty_five)
           {| arg_image_path := utf8 "page.png"; arg_output_csv := utf8 "out.csv";
              arg_debug := false |} (small_page (utf8 "page.png")));
    [reflexivity | reflexivity | vm_compute; discriminate | reflexivity].
Defined.

(** X20. How the persistent-engine script ends. It exits with status 0
    exactly when the image path exists, the engine comes up and the image
    opens; otherwise with status 1, having written nothing. What happens at
    single tiles (recognition errors, tiles out of bounds, no tile at all)
    never changes the exit status. On status 0 it has written exactly the file
    at the output path, also when that path has no directory part, and the
    last thing printed is the summary of the page. Creating the output
    directory and writing the file are taken to succeed. *)
Theorem X20_fast_main (path_exists : str -> bool) (env : ocr_page_fast.environment)
    (args : page_arguments) :
  let run := ocr_page_fast_main path_exists env args in
  (exit_status run = 0 <->
   path_exists (arg_image_path args) = true /\
   ocr_page_fast.engine_available env = true /\
   is_Some (ocr_page_fast.open_image env (arg_image_path args))) /\
  (exit_status run = 0 \/ exit_status run = 1 /\ files run = []) /\
  (forall img,
     exit_status run = 0 ->
     ocr_page_fast.open_image env (arg_image_path args) = Some img ->
     let rows := fast_records env img (arg_image_path args) (arg_debug args) in
     files run = [(arg_output_csv args, ocr_page_fast.csv_rows rows)] /\
     last (output run) =
       Some (Json {| summary_page := path_stem (arg_image_path args);
                     total_records := Z.of_nat (length rows);
                     summary_valid_records := count_valid rows;
                     csv_file := arg_output_csv args |})).
Proof.
  cbv zeta. unfold ocr_page_fast_main.
  destruct (path_exists (arg_image_path args)); cbn [negb].
  2: { cbn [exit_status files]. split; [|split].
       - split; [discriminate | intros [H _]; discriminate H].
       - right. auto.
       - discriminate. }
  unfold ocr_page_fast.process_page.
  destruct (ocr_page_fast.engine_available env); cbn [negb].
  2: { cbn [returned exit_status files written]. split; [|split].
       - split; [discriminate | intros (_ & H & _); discriminate H].
       - right. auto.
       - discriminate. }
  destruct (ocr_page_fast.open_image env (arg_image_path args)) as [img0|].
  2: { cbn [returned exit_status files written]. split; [|split].
       - split; [discriminate | intros (_ & _ & [x H]); discriminate H].
       - right. auto.
       - discriminate. }
  pose proof (fast_valid_count env img0 (arg_image_path args) (arg_debug args)) as Hvalid.
  unfold fast_records in Hvalid.
  destruct (ocr_page_fast.process_image env img0 (arg_image_path args) (arg_debug args))
    as [[csv_records valid_count] lines] eqn:E.
  cbn [fst snd] in Hvalid. cbn [returned printed written exit_status output files].
  split; [|split].
  - split; [intros _; repeat split; now exists img0 | reflexivity].
  - now left.
  - intros img _ [= <-]. unfold fast_records. rewrite E. cbn [fst].
    split; [reflexivity|]. rewrite Hvalid. apply last_snoc.
Qed.

Lemma X20_fast_main_witness :
  exit_status (ocr_page_fast_main (fun _ => true) text_failing_engine
                 {| arg_image_path := utf8 "page.png"; arg_output_csv := utf8 "out.csv";
                    arg_debug := false |}) = 0.
Proof.
  apply (X20_fast_main (fun _ => true) text_failing_engine
           {| arg_image_path := utf8 "page.png"; arg_output_csv := utf8 "out.csv";
              arg_debug := false |}).
  split; [reflexivity|]. split; [reflexivity|]. now eexists.
Defined.

(** The arguments of [parse_ocr.py]. *)
Record parser_arguments := {
  arg_input_dir : str;
  arg_csv : str;
  arg_strict : bool;
  arg_test : bool
}.

(** [VoterParser]: the attributes [__init__] sets. *)
Record VoterParser := {
  strict_mode : bool;
  parser_world : parse_ocr.world
}.

Definition VoterParser_init (strict_mode : bool) : VoterParser :=
  {| strict_mode := strict_mode; parser_world := new_world |}.

(** A method that does not read [strict_mode], run on the parser. *)
Definition call (parser : VoterParser) (method : parse_ocr.M unit) : VoterParser :=
  {| strict_mode := strict_mode parser;
     parser_world := snd (method (parser_world parser)) |}.

(** [main] of [parse_ocr.py]: the parser it leaves behind. *)
Definition parse_ocr_main (fs : filesystem) (args : parser_arguments) : VoterParser :=
  let voter_parser := VoterParser_init (arg_strict args) in
  call voter_parser (parse_ocr.process_directory fs (arg_input_dir args) (arg_csv args)).

(** The files of one record marked VALID whose EPIC file is missing. *)
Definition strict_scenario : filesystem :=
  {| fs_read := fun p =>
       if str_eqb p (utf8 "out/ocr/page1/record_00_epic.txt") then None
       else fs_read scenario_fs p;
     fs_glob := fun pattern =>
       if str_eqb pattern (utf8 "out/ocr/page1/record_*.status")
       then [utf8 "out/ocr/page1/record_00.status"] else [];
     fs_exists := fs_exists scenario_fs;
     fs_listdir := fs_listdir scenario_fs;
     fs_isdir := fs_isdir scenario_fs |}.

(** X21. The options [--strict] and [--test] of [parse_ocr.py] change
    nothing. [main] hands [--strict] to the parser, but what it then runs,
    [process_directory], never reads [strict_mode] and never calls
    [parse_tile], and [--test] is not read at all: output, files written and
    counters are the same with and without the options. With [--strict] a
    record without EPIC is written all the same. *)
Theorem X21_parser_options_ignored :
  (forall (fs : filesystem) (args : parser_arguments) (strict test : bool),
     parser_world (parse_ocr_main fs args) =
     parser_world (parse_ocr_main fs {| arg_input_dir := arg_input_dir args;
                                        arg_csv := arg_csv args;
                                        arg_strict := strict; arg_test := test |})) /\
  (forall (fs : filesystem) (args : parser_arguments),
     let w := parser_world (parse_ocr_main fs args) in
     let ocr_base := path_join (arg_input_dir args) (utf8 "ocr") in
     let records := directory_records fs ocr_base (parse_ocr.page_dirs fs ocr_base) in
     parse_ocr.written w =
       (if fs_exists fs ocr_base then
          match records with
          | [] => []
          | _ :: _ => [(arg_csv args, parse_ocr.fieldnames :: List.map parse_ocr.csv_row records)]
          end
        else []) /\
     parse_ocr.valid_records (parse_ocr.stats w) =
       if fs_exists fs ocr_base then Z.of_nat (length records) else 0) /\
  (exists fields,
     parse_ocr.written
       (parser_world (parse_ocr_main strict_scenario
                        {| arg_input_dir := utf8 "out"; arg_csv := utf8 "voters.csv";
                           arg_strict := true; arg_test := false |})) =
     [(utf8 "voters.csv",
       [parse_ocr.fieldnames;
        utf8 "page1" :: utf8 "record_00" :: utf8 "12" :: [] :: fields])]).
Proof.
  split; [reflexivity|]. split.
  - intros fs args w ocr_base records. unfold w, parse_ocr_main, call, VoterParser_init.
    cbn [parser_world strict_mode].
    pose proof (process_directory_result fs (arg_input_dir args) (arg_csv args) new_world)
      as Hyes.
    cbv zeta in Hyes. fold ocr_base in Hyes. fold records in Hyes.
    destruct (fs_exists fs ocr_base) eqn:Hexists.
    + destruct (Hyes eq_refl) as [Hw Hv]. rewrite Hw, Hv. split; reflexivity.
    + unfold parse_ocr.process_directory. fold ocr_base. rewrite Hexists. cbn [negb].
      split; reflexivity.
  - eexists. vm_compute. reflexivity.
Qed.

(** ** Stripped cells *)

Lemma find_stripped (pattern : re.regex) (text : str) :
  strip (default [] (hindi.find pattern text)) = default [] (hindi.find pattern text).
Proof.
  unfold hindi.find. destruct (re.search true pattern text) as [m|].
  - cbn [fmap option_fmap option_map default from_option id]. apply strip_idempotent.
  - apply strip_nil.
Qed.

Lemma parsed_cells_stripped (page_name id : str) (r c : Z) (s e t : str) (v : bool) :
  let rec := make_csv_record page_name id r c s e t v in
  strip (name rec) = name rec /\ strip (father rec) = father rec /\
  strip (age rec) = age rec /\ strip (address rec) = address rec.
Proof.
  cbv zeta. unfold make_csv_record, hindi.parse_hindi_text.
  cbn [name father age address parsed_name parsed_father parsed_age parsed_address].
  repeat split; apply find_stripped.
Qed.

Lemma tile_texts_stripped (env : ocr_page_fast.environment) (img : image) :
  let texts := ocr_page_fast.tile_texts env img in
  strip (fst (fst texts)) = fst (fst texts) /\ strip (snd (fst texts)) = snd (fst texts) /\
  strip (snd texts) = snd texts.
Proof.
  cbv zeta. unfold ocr_page_fast.tile_texts, ocr_page_fast.recognize_tile,
    ocr_page_fast.ocr_serial, ocr_page_fast.ocr_epic, ocr_page_fast.ocr_text.
  repeat match goal with
         | |- context [ocr_page_fast.recognize env ?p ?i] =>
             destruct (ocr_page_fast.recognize env p i);
             cbn [fmap option_fmap option_map default from_option id fst snd]
         end;
    repeat split; (apply strip_idempotent || apply strip_nil).
Qed.

(** The text cells of a row. *)
Definition text_cells (r : csv_record) : list str :=
  [serial r; epic r; name r; father r; age r; address r; raw_text r].

(** X22. No text cell of a row begins or ends with whitespace: in both page
    scripts the serial, EPIC, name, father, age, address and raw text of every
    row are unchanged by [strip], whatever the engine returned; and so is
    every field [extract_field] of the decoupled parser returns. *)
Theorem X22_cells_are_stripped :
  (forall (env : ocr_page_fast.environment) (img : image) (image_path : str) (debug : bool)
          (r : csv_record),
     In r (fast_records env img image_path debug) ->
     Forall (fun cell => strip cell = cell) (text_cells r)) /\
  (forall (env : ocr_page_python.environment) (img : image) (image_path : str)
          (r : csv_record),
     In r (python_records env img image_path) ->
     Forall (fun cell => strip cell = cell) (text_cells r)) /\
  (forall (pattern : re.regex) (text : str),
     strip (parse_ocr.extract_field pattern text) = parse_ocr.extract_field pattern text).
Proof.
  split; [|split].
  - intros env img image_path debug r Hr. rewrite fast_records_segment in Hr.
    apply in_map_iff in Hr. destruct Hr as (t & <- & _).
    unfold fast_record.
    pose proof (tile_texts_stripped env (Crop (record_box t) (grayscale img))) as Ht.
    cbv zeta in Ht.
    destruct (ocr_page_fast.tile_texts env (Crop (record_box t) (grayscale img)))
      as [[s e] x].
    cbn [fst snd] in Ht. destruct Ht as (Hs & He & Hx).
    destruct (parsed_cells_stripped (path_stem image_path) (tile_record_id t) (tile_row t)
                (tile_col t) s e x (ocr_page_fast.is_valid e x)) as (Hn & Hf & Ha & Hd).
    unfold text_cells.
    destruct (make_csv_record_fields (path_stem image_path) (tile_record_id t) (tile_row t)
                (tile_col t) s e x (ocr_page_fast.is_valid e x))
      as (_ & _ & _ & _ & -> & -> & -> & _).
    repeat (apply List.Forall_cons; [assumption|]). apply List.Forall_nil.
  - intros env img image_path r Hr. rewrite python_records_eq in Hr.
    apply in_map_iff in Hr. destruct Hr as (t & <- & _).
    unfold ocr_page_python.record_csv.
    match goal with |- context [make_csv_record ?p ?i ?r ?c ?s ?e ?x ?v] =>
      destruct (parsed_cells_stripped p i r c s e x v) as (Hn & Hf & Ha & Hd);
      unfold text_cells;
      destruct (make_csv_record_fields p i r c s e x v) as (_ & _ & _ & _ & -> & -> & -> & _)
    end.
    unfold ocr_page_python.lookup_text.
    repeat (apply List.Forall_cons; [first [assumption | apply strip_idempotent]|]).
    apply List.Forall_nil.
  - intros pattern text. unfold parse_ocr.extract_field.
    destruct (re.search true pattern text); [apply strip_idempotent | apply strip_nil].
Qed.

Lemma X22_cells_are_stripped_witness :
  Forall (fun cell => strip cell = cell)
    (text_cells (make_csv_record (utf8 "page") (utf8 "00") 0 0 [] [] twenty_five true)).
Proof.
  destruct X22_cells_are_stripped as [H _].
  apply (H (constant_engine twenty_five) (small_page (utf8 "page.png")) (utf8 "page.png") false).
  vm_compute. now left.
Defined.

(** ** [FastOCR.__init__]: where the language data is looked for *)

Module FastOCR.
Import re.

(** The machine the constructor runs on. *)
Record host := {
  HAS_TESSEROCR : bool;
  list_langs : option str;      (* what [tesseract --list-langs] prints; [None]: it cannot be run *)
  path_exists : str -> bool;    (* [os.path.exists] *)
  home : str;                   (* what [os.path.expanduser] puts for the tilde *)
  api_init : str -> bool        (* the three [PyTessBaseAPI(path=...)] calls return *)
}.

(** [subprocess.run(cmd, capture_output=..., stderr=...)]: the function
    checks its arguments before it starts the program and raises [ValueError]
    when [capture_output] is given together with [stdout] or [stderr].
    [None] is an exception. *)
Definition subprocess_run (capture_output stderr_given : bool) (program : option str)
    : option str :=
  if capture_output && stderr_given then None else program.

(** [needle in s] *)
Fixpoint contains (needle s : str) : bool :=
  startswith needle s ||
  match s with
  | _ :: s' => contains needle s'
  | [] => false
  end.

(** The pattern of the constructor: a quotation mark, group 1 holding
    [tessdata] between two runs of characters other than the quotation mark,
    and a quotation mark. The quotation mark is written as its code point
    34. *)
Definition QUOTED_TESSDATA : regex :=
  seq_ [Lit [34%N];
        Group (seq_ [star (NotIn [Ch 34]); Lit (utf8 "tessdata"); star (NotIn [Ch 34])]);
        Lit [34%N]].

(** What the [try] block makes of the output of the program. *)
Definition path_in_output (output : str) : option str :=
  if contains (utf8 "tessdata") output then
    match search false QUOTED_TESSDATA output with
    | Some m =>
        let tessdata_path := group m in
        Some (if bool_decide (last tessdata_path = Some 47%N) then tessdata_path
              else tessdata_path ++ [47%N])
    | None => None
    end
  else None.

(** [tessdata_path] after the [try] block; its bare [except] swallows
    every exception. *)
Definition reported_path (h : host) : option str :=
  match subprocess_run true true (list_langs h) with
  | Some output => path_in_output output
  | None => None
  end.

Definition possible_paths (h : host) : list str :=
  [utf8 "/usr/share/tesseract-ocr/5/tessdata/";
   utf8 "/usr/share/tesseract-ocr/4.00/tessdata/";
   utf8 "/usr/share/tesseract-ocr/tessdata/";
   utf8 "/usr/share/tessdata/";
   utf8 "/usr/local/share/tessdata/";
   home h ++ utf8 "/.local/share/tessdata/"].

(** [not tessdata_path] *)
Definition unset (tessdata_path : option str) : bool :=
  match tessdata_path with
  | Some (_ :: _) => false
  | _ => true
  end.

(** [tessdata_path] after the fallback loop. *)
Definition tessdata_path (h : host) : option str :=
  let tessdata_path := reported_path h in
  if unset tessdata_path || negb (path_exists h (default [] tessdata_path)) then
    match List.find (path_exists h) (possible_paths h) with
    | Some path => Some path
    | None => tessdata_path
    end
  else tessdata_path.

Inductive init_result :=
| RuntimeError                    (* "Could not find tessdata directory. ..." *)
| ApiError                        (* a [PyTessBaseAPI] call raised *)
| Engines (tessdata : str)        (* the three engines, on this data path *)
| Fallback.                       (* no [tesserocr]: [pytesseract] is used per call *)

(** [FastOCR.__init__] *)
Definition init (h : host) : init_result :=
  if HAS_TESSEROCR h then
    let tessdata_path := tessdata_path h in
    if unset tessdata_path then RuntimeError
    else if api_init h (default [] tessdata_path) then Engines (default [] tessdata_path)
    else ApiError
  else Fallback.

End FastOCR.

(** What [tesseract --list-langs] prints on a machine with its data under
    [/opt/share/tessdata]. *)
Definition list_langs_output : str :=
  utf8 "List of available languages in " ++ [34%N] ++ utf8 "/opt/share/tessdata" ++ [34%N]
  ++ utf8 " (2):" ++ [10%N] ++ utf8 "eng" ++ [10%N] ++ utf8 "hin" ++ [10%N].

(** A machine whose [tesseract] reports its data under
    [/opt/share/tessdata/], with an older copy under [/usr/share/tessdata/]. *)
Definition two_copies_host : FastOCR.host :=
  {| FastOCR.HAS_TESSEROCR := true;
     FastOCR.list_langs := Some list_langs_output;
     FastOCR.path_exists := fun p =>
       str_eqb p (utf8 "/opt/share/tessdata/") || str_eqb p (utf8 "/usr/share/tessdata/");
     FastOCR.home := utf8 "/root";
     FastOCR.api_init := fun _ => true |}.

Lemma find_first_existing {A} (p : A -> bool) (l : list A) (x : A) :
  List.find p l = Some x -> p x = true /\ In x l.
Proof. intros H. apply find_some in H. tauto. Qed.

(** X23. The data path [tesseract] itself reports is never used. The
    constructor asks [subprocess.run] for [capture_output] together with
    [stderr], which [subprocess.run] refuses with [ValueError] before running
    anything; the bare [except] hides this. So the path always comes from the
    fixed list: the engines are set up on the first of the six listed
    directories that exists, and [RuntimeError] is raised exactly when none of
    them exists, whatever [tesseract --list-langs] would print. The code that
    reads the printed path would work: from the usual output it takes the
    quoted directory and appends a slash. On a machine where the reported
    directory exists and a listed one does too, the listed one is used. *)
Theorem X23_reported_tessdata_path_is_dead_code :
  (forall h : FastOCR.host, FastOCR.reported_path h = None) /\
  (forall h : FastOCR.host,
     FastOCR.tessdata_path h = List.find (FastOCR.path_exists h) (FastOCR.possible_paths h)) /\
  (forall h : FastOCR.host,
     FastOCR.HAS_TESSEROCR h = true ->
     (FastOCR.init h = FastOCR.RuntimeError <->
      forall p, In p (FastOCR.possible_paths h) -> FastOCR.path_exists h p = false) /\
     (forall p, FastOCR.init h = FastOCR.Engines p ->
                In p (FastOCR.possible_paths h) /\ FastOCR.path_exists h p = true)) /\
  FastOCR.path_in_output list_langs_output = Some (utf8 "/opt/share/tessdata/") /\
  FastOCR.init two_copies_host = FastOCR.Engines (utf8 "/usr/share/tessdata/").
Proof.
  assert (Hpath : forall h : FastOCR.host,
            FastOCR.tessdata_path h =
            List.find (FastOCR.path_exists h) (FastOCR.possible_paths h)).
  { intros h. unfold FastOCR.tessdata_path, FastOCR.reported_path. 
    cbn [FastOCR.subprocess_run andb FastOCR.unset orb].
    destruct (List.find _ _); reflexivity. }
  assert (Hnonempty : forall h p, In p (FastOCR.possible_paths h) -> p <> []).
  { intros h p Hin ->. unfold FastOCR.possible_paths in Hin. cbn [In] in Hin.
    repeat (destruct Hin as [Hin | Hin]; [vm_compute in Hin; discriminate Hin|]).
    destruct Hin as [Hin | []]. apply app_eq_nil in Hin. destruct Hin as [_ Hin].
    vm_compute in Hin. discriminate Hin. }
  split; [reflexivity|]. split; [exact Hpath|].
  split; [|split; vm_compute; reflexivity].
  intros h Has. unfold FastOCR.init. rewrite Has, Hpath.
  destruct (List.find (FastOCR.path_exists h) (FastOCR.possible_paths h)) as [p|] eqn:E.
  - destruct (find_first_existing _ _ _ E) as [Hex Hin].
    pose proof (Hnonempty h p Hin) as Hne.
    destruct p as [|c p]; [congruence|]. cbn [FastOCR.unset default from_option id].
    split.
    + split.
      * destruct (FastOCR.api_init h (c :: p)); discriminate.
      * intros Hnone. rewrite (Hnone _ Hin) in Hex. discriminate Hex.
    + intros q. destruct (FastOCR.api_init h (c :: p)); [|discriminate].
      intros [= <-]. auto.
  - cbn [FastOCR.unset]. split.
    + split; [|reflexivity]. intros _ p Hin.
      destruct (FastOCR.path_exists h p) eqn:Ep; [|reflexivity].
      rewrite (find_none _ _ E p Hin) in Ep. discriminate Ep.
    + discriminate.
Qed.

Lemma X23_reported_tessdata_path_is_dead_code_witness :
  In (utf8 "/usr/share/tessdata/") (FastOCR.possible_paths two_copies_host) /\
  FastOCR.path_exists two_copies_host (utf8 "/usr/share/tessdata/") = true.
Proof.
  destruct X23_reported_tessdata_path_is_dead_code as (_ & _ & H & _).
  destruct (H two_copies_host eq_refl) as [_ H']. apply H'. vm_compute. reflexivity.
Defined.

(** ** Strict and lenient mode of [parse_tile] *)

Section StrictMode.
Import parse_ocr.

Lemma tile_missing_nil (strict_mode : bool) (record : tile_record) :
  tile_missing strict_mode record = [] <->
  forall f, In f (if strict_mode then PATTERNS_keys else REQUIRED_FIELDS) ->
            tile_get record f <> [].
Proof.
  unfold tile_missing. split.
  - intros H f Hf. apply truthy_spec. apply (filter_nil_false _ _ f) in H; [|exact Hf].
    now apply negb_false_iff in H.
  - intros H. apply filter_none. intros f Hf. apply negb_false_iff, truthy_spec. now apply H.
Qed.

(** The dictionary [parse_tile] builds from a text that is long enough. *)
Definition tile_from_text (text tile_id : str) : tile_record :=
  {| tile_id := tile_id;
     t_serial := extract_field (PATTERNS serial) text;
     t_epic := extract_field (PATTERNS epic) text;
     t_name := extract_field (PATTERNS name) text;
     t_relation := extract_field (PATTERNS relation) text;
     t_house_no := extract_field (PATTERNS house_no) text;
     t_age := extract_field (PATTERNS age) text;
     t_gender := extract_field (PATTERNS gender) text;
     t_raw_text_length := len text |}.

Lemma parse_tile_value (strict_mode : bool) (ocr_text tile_id : str) (w : world) :
  let record := tile_from_text (clean_text ocr_text) tile_id in
  fst (parse_tile strict_mode ocr_text tile_id w) =
    (if len (clean_text ocr_text) <? 20 then None
     else if passes_fields_and_age strict_mode record
             && negb (strict_mode && malformed_epic record)
          then Some record else None) /\
  (negb (len (clean_text ocr_text) <? 20) && passes_fields_and_age strict_mode record = true ->
   stdout (snd (parse_tile strict_mode ocr_text tile_id w)) =
     stdout w ++ (if malformed_epic record
                  then [TileInvalidEpic tile_id (t_epic record)] else [])).
Proof.
  cbv zeta. unfold parse_tile. destruct (len (clean_text ocr_text) <? 20).
  - split; [reflexivity | discriminate].
  - cbn [negb andb]. fold (tile_from_text (clean_text ocr_text) tile_id).
    apply (validate_tile_spec strict_mode (tile_from_text (clean_text ocr_text) tile_id) w).
Qed.

Lemma passes_strict_lenient (record : tile_record) :
  passes_fields_and_age true record = true <->
  passes_fields_and_age false record = true /\
  t_serial record <> [] /\ t_relation record <> [] /\
  t_house_no record <> [] /\ t_gender record <> [].
Proof.
  unfold passes_fields_and_age. rewrite !andb_true_iff, !bool_decide_eq_true.
  rewrite !tile_missing_nil. split.
  - intros [Hall Hage]. split; [split; [|exact Hage] | split; [|split; [|split]]].
    + intros f Hf. apply Hall. destruct f; cbn; auto 10.
    + apply (Hall serial). cbn; auto 10.
    + apply (Hall relation). cbn; auto 10.
    + apply (Hall house_no). cbn; auto 10.
    + apply (Hall gender). cbn; auto 10.
  - intros ([Hreq Hage] & Hs & Hr & Hh & Hg). split; [|exact Hage].
    intros f Hf. destruct f; try assumption.
    + apply (Hreq name). cbn; auto.
    + apply (Hreq age). cbn; auto.
    + apply (Hreq epic). cbn; auto.
Qed.
End StrictMode.

Lemma field_no_trailing_newline (pattern : re.regex) (text : str) :
  last (parse_ocr.extract_field pattern text) <> Some 10%N.
Proof.
  unfold parse_ocr.extract_field.
  destruct (re.search true pattern text); [apply stripped_no_newline | discriminate].
Qed.

(** X24. Strict mode of [parse_tile] only ever rejects more. A tile
    accepted with [strict_mode] set is accepted without it, as the same record
    and without any message. A tile accepted without [strict_mode] is accepted
    with it exactly when its serial, relation, house number and gender are
    non-empty and its EPIC is three capitals A-Z followed by six or seven
    ASCII digits. *)
Theorem X24_strict_mode_rejects_more (ocr_text tile_id : str) (w : parse_ocr.world)
    (r : parse_ocr.tile_record) :
  (fst (parse_ocr.parse_tile true ocr_text tile_id w) = Some r ->
   fst (parse_ocr.parse_tile false ocr_text tile_id w) = Some r /\
   parse_ocr.stdout (snd (parse_ocr.parse_tile false ocr_text tile_id w)) =
     parse_ocr.stdout w) /\
  (fst (parse_ocr.parse_tile false ocr_text tile_id w) = Some r ->
   (fst (parse_ocr.parse_tile true ocr_text tile_id w) = Some r <->
    parse_ocr.t_serial r <> [] /\ parse_ocr.t_relation r <> [] /\
    parse_ocr.t_house_no r <> [] /\ parse_ocr.t_gender r <> [] /\
    canonical_epic (parse_ocr.t_epic r))).
Proof.
  destruct (parse_tile_value true ocr_text tile_id w) as [Hstrict _].
  destruct (parse_tile_value false ocr_text tile_id w) as [Hlenient Hout].
  cbv zeta in Hstrict, Hlenient, Hout. rewrite Hstrict, Hlenient. clear Hstrict Hlenient.
  set (record := tile_from_text (parse_ocr.clean_text ocr_text) tile_id) in *.
  assert (Hepic : parse_ocr.t_epic record <> [] ->
                  (malformed_epic record = false <-> canonical_epic (parse_ocr.t_epic record))).
  { intros Hne. unfold malformed_epic. apply truthy_spec in Hne. rewrite Hne. cbn [andb].
    rewrite negb_false_iff. apply conforms_canonical.
    unfold record, tile_from_text. cbn [parse_ocr.t_epic]. apply field_no_trailing_newline. }
  destruct (len (parse_ocr.clean_text ocr_text) <? 20).
  { split; discriminate. }
  cbn [negb andb] in Hout |- *.
  pose proof (passes_strict_lenient record) as Hpass.
  destruct (passes_fields_and_age true record) eqn:Et;
    destruct (passes_fields_and_age false record) eqn:Ef; cbn [andb negb].
  - (* both sets of fields are there *)
    assert (Hne : parse_ocr.t_epic record <> []).
    { unfold passes_fields_and_age in Ef. apply andb_true_iff in Ef. destruct Ef as [Ef _].
      apply bool_decide_eq_true in Ef. rewrite tile_missing_nil in Ef.
      apply (Ef parse_ocr.epic). cbn; auto. }
    specialize (Hepic Hne). destruct (proj1 Hpass eq_refl) as (_ & Hs & Hr & Hh & Hg).
    destruct (malformed_epic record) eqn:Em; cbn [negb].
    + split; [discriminate|]. intros [= <-]. split; [discriminate|].
      intros (_ & _ & _ & _ & Hc). apply Hepic in Hc. discriminate Hc.
    + split.
      * intros [= <-]. split; [reflexivity|]. rewrite (Hout eq_refl). apply app_nil_r.
      * intros [= <-]. split; [intros _ | reflexivity].
        repeat split; try assumption. now apply Hepic.
  - destruct (proj1 Hpass eq_refl) as [H _]. discriminate H.
  - split; [discriminate|]. intros [= <-]. split; [discriminate|].
    intros (Hs & Hr & Hh & Hg & _).
    assert (H : false = true) by (apply Hpass; auto). discriminate H.
  - split; discriminate.
Qed.

(** A tile with every field and an EPIC in capitals. *)
Definition complete_tile_text : str :=
  utf8 "12 ABC1234567" ++ [10%N] ++ utf8 "निर्वाचक का नाम: राम कुमार" ++ [10%N]
  ++ utf8 "पिता का नाम: श्याम" ++ [10%N] ++ utf8 "मकान संख्या: 12" ++ [10%N]
  ++ utf8 "उम्र: 45" ++ [10%N] ++ utf8 "लिंग: पुरुष".

Lemma X24_strict_mode_rejects_more_witness :
  let r := tile_from_text (parse_ocr.clean_text complete_tile_text) (utf8 "tile_00") in
  fst (parse_ocr.parse_tile false complete_tile_text (utf8 "tile_00") new_world) = Some r /\
  parse_ocr.stdout (snd (parse_ocr.parse_tile false complete_tile_text (utf8 "tile_00")
                           new_world)) = parse_ocr.stdout new_world.
Proof.
  cbv zeta.
  destruct (X24_strict_mode_rejects_more complete_tile_text (utf8 "tile_00") new_world
              (tile_from_text (parse_ocr.clean_text complete_tile_text) (utf8 "tile_00")))
    as [H _].
  apply H. vm_compute. reflexivity.
Defined.

(** ** Fields are pieces of the text *)

Section GroupPosition.
Import re.
Variables (ignorecase : bool) (r : regex).
Variable after : list regex.
Hypothesis r_groupless : groupless r = true.
Hypothesis after_groupless : forallb groupless after = true.

(** The captured text lies inside the text matched against. *)
Lemma grouped_match_here_inside (before : list regex) :
  forallb groupless before = true ->
  forall (prev : option codepoint) (s : str) (m : match_object),
    match_here ignorecase (grouped before r after) prev s = Some m ->
    exists d a b, group1 m = Some d /\ s = a ++ d ++ b.
Proof.
  unfold match_here, grouped. generalize (@None str) as cap.
  induction before as [|r0 rs IH]; intros cap before_groupless prev s m H.
  - cbn [app seq_ foldr] in H.
    change (foldr Cat (Lit []) after) with (seq_ after) in H.
    change (run ignorecase (Cat (Group r) (seq_ after)) prev s cap
              (fun _ s' cap' => Some {| rest := s'; group1 := cap' |}))
      with (run ignorecase (Group r) prev s cap
              (fun prev' s' cap' =>
                 run ignorecase (seq_ after) prev' s' cap'
                     (fun _ s'' cap'' => Some {| rest := s''; group1 := cap'' |}))) in H.
    apply (run_group_sound ignorecase r _ _ _ _ _ r_groupless) in H.
    destruct H as (d & s2 & prev' & -> & _ & H).
    apply (run_groupless_sound ignorecase (seq_ after) (seq_groupless after after_groupless))
      in H.
    destruct H as (s3 & s4 & prev'' & _ & _ & [= <-]).
    exists d, [], s2. cbn [group1]. auto.
  - cbn [forallb] in before_groupless. apply andb_true_iff in before_groupless.
    destruct before_groupless as [Hr Hrs].
    cbn [app seq_ foldr run] in H.
    apply (run_groupless_sound ignorecase r0 Hr) in H.
    destruct H as (s1 & s2 & prev' & -> & _ & H).
    destruct (IH cap Hrs prev' s2 m H) as (d & a & b & Hd & ->).
    exists d, (s1 ++ a), b. rewrite <- app_assoc. auto.
Qed.

Lemma grouped_search_inside (before : list regex) (s : str) (m : match_object) :
  forallb groupless before = true ->
  search ignorecase (grouped before r after) s = Some m ->
  exists a b, s = a ++ group m ++ b.
Proof.
  unfold search. intros Hb H. apply search_from_sound in H.
  destruct H as (skipped & f & prev' & -> & H).
  apply (grouped_match_here_inside before Hb) in H.
  destruct H as (d & a & b & Hd & ->). unfold group. rewrite Hd.
  exists (skipped ++ a), b. cbn [default from_option id]. now rewrite <- app_assoc.
Qed.
End GroupPosition.

(** [field] is a contiguous piece of [text]. *)
Definition inside (field text : str) : Prop := exists a b, text = a ++ field ++ b.

Lemma inside_nil (text : str) : inside [] text.
Proof. exists [], text. reflexivity. Qed.

Lemma inside_strip (d text : str) : inside d text -> inside (strip d) text.
Proof.
  intros (a & b & ->). destruct (strip_infix d) as (a' & b' & Hd).
  exists (a ++ a'), (b' ++ b). rewrite Hd at 1. now rewrite <- !app_assoc.
Qed.

Lemma field_inside (before : list re.regex) (r : re.regex) (after : list re.regex)
    (text : str) :
  forallb groupless before = true -> groupless r = true -> forallb groupless after = true ->
  inside (parse_ocr.extract_field (grouped before r after) text) text.
Proof.
  intros Hb Hr Ha. unfold parse_ocr.extract_field.
  destruct (re.search true _ text) as [m|] eqn:E; [|apply inside_nil].
  apply inside_strip. exact (grouped_search_inside true r after Hr Ha before text m Hb E).
Qed.

Lemma hindi_field_inside (a b : string) (value : re.regex) (text : str) :
  groupless value = true ->
  inside (default [] (hindi.find (hindi.labelled a b value) text)) text.
Proof.
  intros Hv. unfold hindi.find. rewrite labelled_grouped.
  destruct (re.search true _ text) as [m|] eqn:E; [|apply inside_nil].
  cbn [fmap option_fmap option_map default from_option id]. apply inside_strip.
  exact (grouped_search_inside true value [] Hv eq_refl (label_part a b) text m eq_refl E).
Qed.

Lemma pattern_field_inside (f : parse_ocr.field) (text : str) :
  inside (parse_ocr.extract_field (parse_ocr.PATTERNS f) text) text.
Proof.
  destruct f.
  - apply (field_inside [re.WordBoundary] (re.counted 1 4 parse_ocr.ascii_digit)
             [re.WordBoundary]); reflexivity.
  - apply (field_inside
             [re.Lit (utf8 "निर्वाचक"); re.star (re.In [re.Space]); re.Lit (utf8 "का");
              re.star (re.In [re.Space]); re.Lit (utf8 "नाम");
              re.star parse_ocr.space_or_colon] (re.plus parse_ocr.not_newline) []);
      reflexivity.
  - apply (field_inside
             [re.Alt (re.Lit (utf8 "पति")) (re.Alt (re.Lit (utf8 "पिता")) (re.Lit (utf8 "माता")));
              re.star (re.In [re.Space]); re.Lit (utf8 "का");
              re.star (re.In [re.Space]); re.Lit (utf8 "नाम");
              re.star parse_ocr.space_or_colon] (re.plus parse_ocr.not_newline) []);
      reflexivity.
  - apply (field_inside
             [re.Lit (utf8 "मकान"); re.star (re.In [re.Space]); re.Lit (utf8 "संख्या");
              re.star parse_ocr.space_or_colon] (re.plus parse_ocr.not_newline) []);
      reflexivity.
  - apply (field_inside [re.Lit (utf8 "उम्र"); re.star parse_ocr.space_or_colon]
             (re.counted 1 3 parse_ocr.ascii_digit) []); reflexivity.
  - apply (field_inside [re.Lit (utf8 "लिंग"); re.star parse_ocr.space_or_colon]
             (re.plus parse_ocr.not_newline) []); reflexivity.
  - apply (field_inside [re.WordBoundary]
             (re.Cat (re.counted 3 3 parse_ocr.ascii_upper)
                     (re.counted 6 7 parse_ocr.ascii_digit))
             [re.WordBoundary]); reflexivity.
Qed.

Lemma parsed_cells_inside (page_name id : str) (r c : Z) (s e t : str) (v : bool) :
  let rec := make_csv_record page_name id r c s e t v in
  inside (name rec) (raw_text rec) /\ inside (father rec) (raw_text rec) /\
  inside (age rec) (raw_text rec) /\ inside (address rec) (raw_text rec).
Proof.
  cbv zeta. unfold make_csv_record, hindi.parse_hindi_text.
  cbn [name father age address raw_text parsed_name parsed_father parsed_age parsed_address].
  repeat split; apply hindi_field_inside; reflexivity.
Qed.

(** X25. The scripts never make up text: every field they extract with a
    pattern is a contiguous piece of the text the pattern was applied to. For
    [parse_tile] that text is the cleaned OCR text, for [parse_record] the
    content of the file the field is read from, and in a row of either page
    script the name, father, age and address are pieces of the row's raw
    text. *)
Theorem X25_fields_are_pieces_of_the_text :
  (forall (f : parse_ocr.field) (text : str),
     inside (parse_ocr.extract_field (parse_ocr.PATTERNS f) text) text) /\
  (forall text : str,
     inside (parse_ocr.extract_field parse_ocr.RECORD_SERIAL text) text /\
     inside (parse_ocr.extract_field parse_ocr.RECORD_EPIC text) text) /\
  (forall (strict_mode : bool) (ocr_text tile_id : str) (w : parse_ocr.world)
          (r : parse_ocr.tile_record) (f : parse_ocr.field),
     fst (parse_ocr.parse_tile strict_mode ocr_text tile_id w) = Some r ->
     inside (parse_ocr.tile_get r f) (parse_ocr.clean_text ocr_text)) /\
  (forall (env : ocr_page_fast.environment) (img : image) (image_path : str) (debug : bool)
          (r : csv_record),
     In r (fast_records env img image_path debug) ->
     Forall (fun cell => inside cell (raw_text r)) [name r; father r; age r; address r]) /\
  (forall (env : ocr_page_python.environment) (img : image) (image_path : str)
          (r : csv_record),
     In r (python_records env img image_path) ->
     Forall (fun cell => inside cell (raw_text r)) [name r; father r; age r; address r]).
Proof.
  split; [exact pattern_field_inside|]. split; [|split; [|split]].
  - intros text. split.
    + apply (field_inside [re.WordBoundary] (re.counted 1 4 parse_ocr.ascii_digit)
               [re.WordBoundary]); reflexivity.
    + apply (field_inside [re.WordBoundary]
               (re.counted 6 12 (re.In [re.Rg 65 90; re.Rg 48 57])) [re.WordBoundary]);
        reflexivity.
  - intros strict_mode ocr_text tile_id w r f H.
    destruct (parse_tile_value strict_mode ocr_text tile_id w) as [Hv _].
    cbv zeta in Hv. rewrite Hv in H.
    destruct (len (parse_ocr.clean_text ocr_text) <? 20); [discriminate H|].
    destruct (_ && _); [|discriminate H]. injection H as <-.
    destruct f; apply pattern_field_inside.
  - intros env img image_path debug r Hr. rewrite fast_records_segment in Hr.
    apply in_map_iff in Hr. destruct Hr as (t & <- & _). unfold fast_record.
    destruct (ocr_page_fast.tile_texts env (Crop (record_box t) (grayscale img)))
      as [[s e] x].
    match goal with |- context [make_csv_record ?p ?i ?r ?c ?s ?e ?x ?v] =>
      destruct (parsed_cells_inside p i r c s e x v) as (Hn & Hf & Ha & Hd) end.
    repeat (apply List.Forall_cons; [assumption|]). apply List.Forall_nil.
  - intros env img image_path r Hr. rewrite python_records_eq in Hr.
    apply in_map_iff in Hr. destruct Hr as (t & <- & _).
    unfold ocr_page_python.record_csv.
    match goal with |- context [make_csv_record ?p ?i ?r ?c ?s ?e ?x ?v] =>
      destruct (parsed_cells_inside p i r c s e x v) as (Hn & Hf & Ha & Hd) end.
    repeat (apply List.Forall_cons; [assumption|]). apply List.Forall_nil.
Qed.

Lemma X25_fields_are_pieces_of_the_text_witness :
  inside (utf8 "45") (parse_ocr.clean_text complete_tile_text).
Proof.
  destruct X25_fields_are_pieces_of_the_text as (_ & _ & H & _).
  apply (H true complete_tile_text (utf8 "tile_00") new_world
           (tile_from_text (parse_ocr.clean_text complete_tile_text) (utf8 "tile_00"))
           parse_ocr.age).
  vm_compute. reflexivity.
Defined.

(** ** The order of directory listings *)

Lemma str_leb_refl (a : str) : str_leb a a = true.
Proof.
  induction a as [|x a IH]; [reflexivity|]. cbn [str_leb].
  now rewrite N.ltb_irrefl.
Qed.

Lemma str_leb_total (a b : str) : str_leb a b = false -> str_leb b a = true.
Proof.
  revert b. induction a as [|x a IH]; intros [|y b]; cbn [str_leb]; try discriminate;
    try reflexivity.
  destruct (N.ltb_spec x y); [discriminate|].
  destruct (N.ltb_spec y x); [reflexivity|]. apply IH.
Qed.

Lemma str_leb_antisym (a b : str) : str_leb a b = true -> str_leb b a = true -> a = b.
Proof.
  revert b. induction a as [|x a IH]; intros [|y b]; cbn [str_leb]; try discriminate;
    try reflexivity.
  destruct (N.ltb_spec x y); destruct (N.ltb_spec y x); try discriminate; try lia.
  intros H1 H2. assert (x = y) as -> by lia. f_equal. now apply IH.
Qed.

Lemma str_leb_trans (a b c : str) :
  str_leb a b = true -> str_leb b c = true -> str_leb a c = true.
Proof.
  revert b c. induction a as [|x a IH]; intros [|y b] [|z c]; cbn [str_leb];
    try discriminate; try reflexivity.
  destruct (N.ltb_spec x y); destruct (N.ltb_spec y z); destruct (N.ltb_spec x z);
    try reflexivity; try lia;
    destruct (N.ltb_spec y x); destruct (N.ltb_spec z y); destruct (N.ltb_spec z x);
    try discriminate; try lia.
  apply IH.
Qed.

(** Every element is at most all later ones. *)
Fixpoint ascending (l : list str) : bool :=
  match l with
  | [] => true
  | x :: l' => forallb (str_leb x) l' && ascending l'
  end.

Lemma insert_sorted_permutation (x : str) (l : list str) :
  Permutation (insert_sorted x l) (x :: l).
Proof.
  induction l as [|y l IH]; cbn [insert_sorted]; [reflexivity|].
  destruct (str_leb x y); [reflexivity|].
  rewrite IH. apply perm_swap.
Qed.

Lemma forallb_permutation {A} (p : A -> bool) (l l' : list A) :
  Permutation l l' -> forallb p l = true -> forallb p l' = true.
Proof.
  intros Hp H. rewrite forallb_forall in H |- *. intros x Hx. apply H.
  apply Permutation_sym in Hp. exact (Permutation_in x Hp Hx).
Qed.

Lemma insert_sorted_ascending (x : str) (l : list str) :
  ascending l = true -> ascending (insert_sorted x l) = true.
Proof.
  induction l as [|y l IH]; cbn [insert_sorted ascending]; [reflexivity|].
  intros H. apply andb_true_iff in H. destruct H as [Hy Hl].
  destruct (str_leb x y) eqn:E; cbn [ascending forallb].
  - rewrite E, Hy, Hl. cbn [andb]. rewrite andb_true_r.
    rewrite forallb_forall in Hy |- *. intros z Hz.
    apply str_leb_trans with (1 := E). now apply Hy.
  - rewrite (IH Hl), andb_true_r.
    apply (forallb_permutation _ (x :: l)); [symmetry; apply insert_sorted_permutation|].
    cbn [forallb]. rewrite Hy, andb_true_r. now apply str_leb_total.
Qed.

Lemma sorted_permutation (l : list str) : Permutation (sorted l) l.
Proof.
  induction l as [|x l IH]; [reflexivity|]. unfold sorted. cbn [foldr].
  fold (sorted l). rewrite insert_sorted_permutation. now apply perm_skip.
Qed.

Lemma sorted_ascending (l : list str) : ascending (sorted l) = true.
Proof.
  induction l as [|x l IH]; [reflexivity|]. unfold sorted. cbn [foldr].
  fold (sorted l). now apply insert_sorted_ascending.
Qed.

Lemma ascending_unique (l l' : list str) :
  ascending l = true -> ascending l' = true -> Permutation l l' -> l = l'.
Proof.
  revert l'. induction l as [|x l IH]; intros l' Hl Hl' Hp.
  - apply Permutation_nil in Hp. now subst.
  - destruct l' as [|y l']; [apply Permutation_sym, Permutation_nil in Hp; discriminate Hp|].
    cbn [ascending] in Hl, Hl'.
    apply andb_true_iff in Hl. destruct Hl as [Hx Hl].
    apply andb_true_iff in Hl'. destruct Hl' as [Hy Hl'].
    rewrite forallb_forall in Hx, Hy.
    assert (Hxy : str_leb x y = true).
    { assert (Hin : In y (x :: l))
        by (apply Permutation_sym in Hp; apply (Permutation_in y Hp); now left).
      destruct Hin as [<- | Hin]; [apply str_leb_refl | now apply Hx]. }
    assert (Hyx : str_leb y x = true).
    { assert (Hin : In x (y :: l')) by (apply (Permutation_in x Hp); now left).
      destruct Hin as [<- | Hin]; [apply str_leb_refl | now apply Hy]. }
    assert (x = y) as <- by now apply str_leb_antisym.
    f_equal. apply IH; [exact Hl | exact Hl'|]. now apply Permutation_cons_inv in Hp.
Qed.

(** [sorted] forgets the order of its argument. *)
Lemma sorted_order_irrelevant (l l' : list str) :
  Permutation l l' -> sorted l = sorted l'.
Proof.
  intros Hp. apply ascending_unique; try apply sorted_ascending.
  rewrite !sorted_permutation. exact Hp.
Qed.

Lemma filter_permutation {A} (p : A -> bool) (l l' : list A) :
  Permutation l l' -> Permutation (List.filter p l) (List.filter p l').
Proof.
  induction 1 as [|x l l' _ IH|x y l|l l' l'' _ IH1 _ IH2]; cbn [List.filter].
  - reflexivity.
  - destruct (p x); [now apply perm_skip | exact IH].
  - destruct (p x), (p y); try reflexivity. apply perm_swap.
  - now rewrite IH1.
Qed.

(** The same files, listed by the system in another order. *)
Definition with_listing (fs : filesystem) (glob listdir : str -> list str) : filesystem :=
  {| fs_read := fs_read fs; fs_glob := glob; fs_exists := fs_exists fs;
     fs_listdir := listdir; fs_isdir := fs_isdir fs |}.

(** X26. The order in which the operating system lists files does not
    matter to the parser. If [glob] and [os.listdir] return the same names in
    another order, [process_page] and [process_directory] return the same
    records, print the same lines, read the same files in the same order,
    write the same CSV and leave the same counters: both sort what they
    list, and the result is in ascending order of the names. *)
Theorem X26_listing_order_irrelevant (fs : filesystem) (glob listdir : str -> list str) :
  (forall pattern, Permutation (glob pattern) (fs_glob fs pattern)) ->
  (forall directory, Permutation (listdir directory) (fs_listdir fs directory)) ->
  (forall ocr_dir page_id w,
     parse_ocr.process_page (with_listing fs glob listdir) ocr_dir page_id w =
     parse_ocr.process_page fs ocr_dir page_id w) /\
  (forall input_dir output_csv w,
     parse_ocr.process_directory (with_listing fs glob listdir) input_dir output_csv w =
     parse_ocr.process_directory fs input_dir output_csv w) /\
  (forall ocr_dir,
     ascending (parse_ocr.status_files fs ocr_dir) = true /\
     ascending (parse_ocr.page_dirs fs ocr_dir) = true /\
     Permutation (parse_ocr.status_files fs ocr_dir)
                 (fs_glob fs (path_join ocr_dir (utf8 "record_*.status")))).
Proof.
  intros Hglob Hlist.
  assert (Hfiles : forall ocr_dir,
            parse_ocr.status_files (with_listing fs glob listdir) ocr_dir =
            parse_ocr.status_files fs ocr_dir).
  { intros ocr_dir. unfold parse_ocr.status_files. cbn [fs_glob with_listing].
    apply sorted_order_irrelevant, Hglob. }
  assert (Hdirs : forall ocr_base,
            parse_ocr.page_dirs (with_listing fs glob listdir) ocr_base =
            parse_ocr.page_dirs fs ocr_base).
  { intros ocr_base. unfold parse_ocr.page_dirs. cbn [fs_listdir fs_isdir with_listing].
    apply sorted_order_irrelevant, filter_permutation, Hlist. }
  assert (Hpage : forall ocr_dir page_id w,
            parse_ocr.process_page (with_listing fs glob listdir) ocr_dir page_id w =
            parse_ocr.process_page fs ocr_dir page_id w).
  { intros ocr_dir page_id w. unfold parse_ocr.process_page. rewrite Hfiles. reflexivity. }
  split; [exact Hpage|]. split.
  - intros input_dir output_csv w. unfold parse_ocr.process_directory.
    cbn [fs_exists with_listing]. rewrite Hdirs.
    assert (Hloop : forall ocr_base dirs w0,
              parse_ocr.process_page_dirs (with_listing fs glob listdir) ocr_base dirs w0 =
              parse_ocr.process_page_dirs fs ocr_base dirs w0).
    { intros ocr_base dirs. unfold parse_ocr.process_page_dirs.
      generalize (@nil parse_ocr.voter_record).
      induction dirs as [|d dirs IH]; intros acc w0; [reflexivity|].
      cbn [parse_ocr.for_each]. rewrite !run_bind. rewrite Hpage. apply IH. }
    destruct (negb _); [reflexivity|].
    rewrite !run_bind. rewrite Hloop. reflexivity.
  - intros ocr_dir. unfold parse_ocr.status_files, parse_ocr.page_dirs.
    split; [apply sorted_ascending|]. split; [apply sorted_ascending|].
    apply sorted_permutation.
Qed.

Lemma X26_listing_order_irrelevant_witness :
  parse_ocr.process_page
    (with_listing scenario_fs (fun p => rev (fs_glob scenario_fs p)) (fs_listdir scenario_fs))
    scenario_dir (utf8 "page1") new_world =
  parse_ocr.process_page scenario_fs scenario_dir (utf8 "page1") new_world.
Proof.
  apply (X26_listing_order_irrelevant scenario_fs (fun p => rev (fs_glob scenario_fs p))
           (fs_listdir scenario_fs)); intros p;
    [symmetry; apply Permutation_rev | reflexivity].
Defined.

(** ** What the persistent-engine script prints *)

Section FastLines.
Import ocr_page_fast.
Variables (env : environment) (img : image) (image_path : str) (debug : bool).



End FastLines.


